(** * A shallow embedding of [diff.cpp] (namespace [myers_diff])

    The C++ solver works on [int] positions into two sequences, a fixed
    working array [buf] indexed by shifted diagonal, a growing list of
    history records, and a deque of edit instructions.  Positions are
    modelled as [Z] (all values stay far below 2^31 for sequences that fit
    in memory), [buf] as a finite map from array index to the stored value,
    vectors as lists.  An element access outside a vector, a read of a
    [buf] cell that was never written, and a failed [assert] have no
    defined result in C++; they are modelled as explicit faults. *)

From Stdlib Require Import ZArith List Lia String Ascii.
From stdpp Require Import base option list gmap strings pretty.

Local Open Scope Z_scope.

(** ** Faults and results *)

Inductive fault : Type :=
  | OutOfBounds
  | Uninitialised
  | AssertionFailed.

Inductive result (T : Type) : Type :=
  | Done (t : T)
  | Fault (f : fault).
Arguments Done {T} t.
Arguments Fault {T} f.

Global Instance result_ret : MRet result := λ T t, Done t.
Global Instance result_bind : MBind result := λ T U k r,
  match r with
  | Done t => k t
  | Fault f => Fault f
  end.

(** [v[i]] on a [std::vector]. *)
Definition vec_get {T : Type} (v : list T) (i : Z) : result T :=
  if bool_decide (0 ≤ i) then
    match v !! Z.to_nat i with
    | Some t => Done t
    | None => Fault OutOfBounds
    end
  else Fault OutOfBounds.

(** [assert(c)]. *)
Definition assert (c : bool) : result unit :=
  if c then Done tt else Fault AssertionFailed.

(** The source computes in [int]; the model computes in [Z].  The two
    agree on a sum or difference as long as it fits in an [int], and the
    statements about instructions that no run of the solver produced say
    so for the sums the code takes of their fields. *)
Definition int_fits (z : Z) : Prop := -2147483648 ≤ z ≤ 2147483647.

(** ** Edit instructions *)

Inductive EditInstructionType : Type := Delete | Add | Change | Nop.

Global Instance EditInstructionType_eq_dec : EqDecision EditInstructionType.
Proof. solve_decision. Defined.

Record EditInstruction : Type := mkEdit {
  type : EditInstructionType;
  orig_start : Z;
  orig_length : Z;
  new_start : Z;
  new_length : Z;
}.

Global Instance EditInstruction_eq_dec : EqDecision EditInstruction.
Proof. solve_decision. Defined.

(** [using point = std::pair<int,int>] and [using max_pos_vec =
    std::vector<int>]. *)
Abbreviation point := (Z * Z)%type.
Abbreviation max_pos_vec := (list Z).

(** ** DiffSolver *)

(** [constexpr int max_diff = 10000;] *)
Definition max_diff : Z := 10000.

(** [std::array<int,2*max_diff+1> buf], keyed by array index. *)
Definition buf_get (buf : gmap Z Z) (i : Z) : result Z :=
  if bool_decide (0 ≤ i < 2 * max_diff + 1) then
    match buf !! i with
    | Some x => Done x
    | None => Fault Uninitialised
    end
  else Fault OutOfBounds.

Definition buf_set (buf : gmap Z Z) (i x : Z) : result (gmap Z Z) :=
  if bool_decide (0 ≤ i < 2 * max_diff + 1) then Done (<[i:=x]> buf)
  else Fault OutOfBounds.

Section DiffSolver.
Context {A : Type} `{EqDecision A}.

Section search.
Variables a b : list A.

Let n : Z := Z.of_nat (length a).
Let m : Z := Z.of_nat (length b).

(** The snake loop [while (x < n && y < m)].  It runs at most [n - x]
    times, which is what [steps] counts; at [steps = 0] the guard
    [x < n] is false. *)
Fixpoint snake_loop (steps : nat) (x y : Z) : result Z :=
  match steps with
  | O => Done x
  | S steps' =>
      if (x <? n) && (y <? m) then
        ax ← vec_get a x;
        by_ ← vec_get b y;
        if decide (ax = by_) then snake_loop steps' (x + 1) (y + 1)
        else Done x
      else Done x
  end.

Definition snake (x y : Z) : result Z :=
  snake_loop (Z.to_nat (n - x)) x y.

(** "select previous furthest reaching path": the start [x] on
    diagonal [k] at distance [d], with the short-circuit evaluation of
    the source's condition. *)
Definition select_start (buf : gmap Z Z) (d k : Z) : result Z :=
  from_above ←
    (if bool_decide (k = - d) then Done true
     else if bool_decide (k ≠ d) then
       l ← buf_get buf (max_diff + k - 1);
       r ← buf_get buf (max_diff + k + 1);
       Done (bool_decide (l < r))
     else Done false);
  if from_above : bool then buf_get buf (max_diff + k + 1)
  else l ← buf_get buf (max_diff + k - 1); Done (l + 1).

(** The loop [for (k = -d; k <= d; k += 2)]: [cnt] is the number of
    diagonals still to visit, [d + 1] at entry.  [None] is the
    [return] of the source; [Some] carries [buf] and the finished
    record [v]. *)
Fixpoint diagonals (cnt : nat) (d k : Z) (buf : gmap Z Z) (v : max_pos_vec)
  : result (option (gmap Z Z * max_pos_vec)) :=
  match cnt with
  | O => Done (Some (buf, v))
  | S cnt' =>
      x0 ← select_start buf d k;
      x ← snake x0 (x0 - k);
      buf' ← buf_set buf (max_diff + k) x;
      if bool_decide (x = n) && bool_decide (x - k = m) then Done None
      else diagonals cnt' d (k + 2) buf' (v ++ [x])
  end.

(** The loop [for (d = 0; d < max_diff; d++)]: [rem] is
    [max_diff - d]. *)
Fixpoint levels (rem : nat) (d : Z) (buf : gmap Z Z)
    (history : list max_pos_vec) : result (list max_pos_vec) :=
  match rem with
  | O => Done history
  | S rem' =>
      r ← diagonals (S (Z.to_nat d)) d (- d) buf [];
      match r with
      | None => Done history
      | Some (buf', v) => levels rem' (d + 1) buf' (history ++ [v])
      end
  end.

(** Returns the member [history_]. *)
Definition find_shortest_path : result (list max_pos_vec) :=
  buf ← buf_set ∅ (max_diff + 1) 0;
  levels (Z.to_nat max_diff) 0 buf [].
End search.

(** One turn of the backward loop, at history index [d]; returns the
    new diagonal and the point pushed on the trace. *)
Definition back_step (history : list max_pos_vec) (max_n : Z)
    (d : Z) (k : Z) : result (Z * point) :=
  v ← vec_get history d;
  _ ← assert (bool_decide (Z.of_nat (length v) = d + 1));
  let idx := Z.quot ((k - 1) + d) 2 in
  x1 ← (if bool_decide (idx < 0) then Done (- (max_n + 1)) else vec_get v idx);
  x2 ← (if bool_decide (idx > d) then Done (- (max_n + 1)) else vec_get v (idx + 1));
  if bool_decide (x1 + 1 > x2) then Done (k - 1, (x1, x1 - (k - 1)))
  else Done (k + 1, (x2, x2 - (k + 1))).

(** The loop [for (d = history_.size()-1; d >= 0; d--)]: [cnt] is
    [d + 1]. *)
Fixpoint backtrack (history : list max_pos_vec) (max_n : Z)
    (cnt : nat) (k : Z) (trace : list point) : result (list point) :=
  match cnt with
  | O => Done trace
  | S d =>
      '(k', p) ← back_step history max_n (Z.of_nat d) k;
      backtrack history max_n d k' (trace ++ [p])
  end.

(** Returns the member [trace_]. *)
Definition reconstruct_trace (history : list max_pos_vec) (n m : Z)
    : result (list point) :=
  let max_n := if bool_decide (n > m) then n else m in
  trace ← backtrack history max_n (length history) (n - m) [(n, m)];
  Done (reverse trace).

(** The state of the loop of [build_edit_script]: the deque, with its
    back at the head of the list, and the locals [x], [y], [k]. *)
Abbreviation build_state := (list EditInstruction * Z * Z * Z)%type.

Definition build_step (st : build_state) (p : point) : result build_state :=
  let '(dq, x, y, k) := st in
  let '(xn, yn) := p in
  if bool_decide (x = xn) && bool_decide (y = yn) then Done st
  else
    match dq with
    | [] => Fault OutOfBounds
    | last_edit :: rest =>
        let kn := xn - yn in
        let '(dq1, x1, y1) :=
          if bool_decide (k < kn) then
            (if decide (type last_edit = Delete) then
               mkEdit Delete (orig_start last_edit) (orig_length last_edit + 1) y 0
                 :: rest
             else mkEdit Delete x 1 y 0 :: dq,
             x + 1, y)
          else
            (if decide (type last_edit = Add) then
               mkEdit Add x 0 (new_start last_edit) (new_length last_edit + 1)
                 :: rest
             else if decide (type last_edit = Delete ∨ type last_edit = Change) then
               mkEdit Change (orig_start last_edit) (orig_length last_edit)
                 (new_start last_edit) (new_length last_edit + 1) :: rest
             else mkEdit Add x 0 y 1 :: dq,
             x, y + 1) in
        if bool_decide (x1 ≠ xn) then
          _ ← assert (bool_decide (xn - x1 = yn - y1));
          Done (mkEdit Nop x1 (xn - x1) y1 (yn - y1) :: dq1, xn, yn, kn)
        else Done (dq1, xn, yn, kn)
    end.

Fixpoint build_loop (st : build_state) (trace : list point) : result build_state :=
  match trace with
  | [] => Done st
  | p :: trace' => st' ← build_step st p; build_loop st' trace'
  end.

Definition build_edit_script (trace : list point) : result (list EditInstruction) :=
  '(x, y) ← vec_get trace 0;
  '(dq, _, _, _) ← build_loop ([mkEdit Nop 0 0 0 0], x, y, x - y) trace;
  Done (reverse dq).

Definition shortest_edit_script (a b : list A) : result (list EditInstruction) :=
  let n := Z.of_nat (length a) in
  let m := Z.of_nat (length b) in
  history ← find_shortest_path a b;
  trace ← reconstruct_trace history n m;
  build_edit_script trace.
End DiffSolver.

(** ** Output

    What the program writes to [std::cout], as the sequence of writes:
    plain ones and the ones made through [color_print]. *)

Inductive Color : Type := Red | Green | Cyan | Default.

Definition esc : string := String (ascii_of_nat 27) EmptyString.
Definition nl : string := String (ascii_of_nat 10) EmptyString.

Definition to_ansi_code (c : Color) : string :=
  match c with
  | Red => esc +:+ "[31m"
  | Green => esc +:+ "[32m"
  | Cyan => esc +:+ "[36m"
  | Default => ""
  end.

Inductive chunk : Type :=
  | Plain (s : string)
  | Colored (c : Color) (s : string).

Definition color_print (s : string) (c : Color) : list chunk := [Colored c s].

(** The bytes a write puts on the terminal, and its text without the
    colour codes. *)
Definition bytes_of (w : chunk) : string :=
  match w with
  | Plain s => s
  | Colored c s => to_ansi_code c +:+ s +:+ esc +:+ "[0m"
  end.

Definition text_of (w : chunk) : string :=
  match w with
  | Plain s => s
  | Colored _ s => s
  end.

Definition printed_bytes (out : list chunk) : string :=
  foldr (λ w acc, bytes_of w +:+ acc) "" out.

Definition printed_text (out : list chunk) : string :=
  foldr (λ w acc, text_of w +:+ acc) "" out.

(** [std::to_string] on an [int]. *)
Definition to_string (i : Z) : string := pretty i.

(** ** ModifiedRange

    The constructor takes [start + 1] and [start + length] in [int]. *)

Definition ModifiedRange (start length : Z) : Z * Z :=
  (start + 1, start + length).

Definition to_str (range_ : Z * Z) : string :=
  let '(start, end_) := range_ in
  if bool_decide (start = end_) then to_string start
  else to_string start +:+ "," +:+ to_string end_.

(** The loop [for (i = start-1; i < end; i++)] of
    [ModifiedRange::print_modifications]; [cnt] is [end - i]. *)
Fixpoint range_lines (seq : list string) (sign : string) (color : Color)
    (cnt : nat) (i : Z) : result (list chunk) :=
  match cnt with
  | O => Done []
  | S cnt' =>
      l ← vec_get seq i;
      rest ← range_lines seq sign color cnt' (i + 1);
      Done (color_print (sign +:+ l +:+ nl) color ++ rest)
  end.

Definition range_print_modifications (range_ : Z * Z) (seq : list string)
    (sign : string) (color : Color) : result (list chunk) :=
  let '(start, end_) := range_ in
  range_lines seq sign color (Z.to_nat (end_ - (start - 1))) (start - 1).

(** ** EditInstructionPrinter *)

Record EditSigns : Type := mkSigns {
  no_change : string;
  deleted : string;
  inserted : string;
  sep_changes : string;
}.

Definition default_signs : EditSigns := mkSigns " " "-" "+" "".

Record ColorConfig : Type := mkColors {
  color_no_change : Color;
  color_deleted : Color;
  color_inserted : Color;
  color_unified_header : Color;
}.

Definition default_colors : ColorConfig := mkColors Default Red Green Cyan.

Record EditInstructionPrinter : Type := mkPrinter {
  edit_signs_ : EditSigns;
  color_config_ : ColorConfig;
}.

Definition get_color (ep : EditInstructionPrinter) (t : EditInstructionType) : Color :=
  match t with
  | Delete => color_deleted (color_config_ ep)
  | Add => color_inserted (color_config_ ep)
  | _ => Default
  end.

Definition print_header (es : EditInstruction) : list chunk :=
  let header :=
    match type es with
    | Delete =>
        to_str (ModifiedRange (orig_start es) (orig_length es))
          +:+ "d" +:+ to_string (new_start es)
    | Add =>
        to_string (orig_start es) +:+ "a"
          +:+ to_str (ModifiedRange (new_start es) (new_length es))
    | Change =>
        to_str (ModifiedRange (orig_start es) (orig_length es))
          +:+ "c" +:+ to_str (ModifiedRange (new_start es) (new_length es))
    | Nop => ""
    end in
  [Plain (header +:+ nl)].

Definition print_modifications (ep : EditInstructionPrinter)
    (a b : list string) (es : EditInstruction) : result (list chunk) :=
  match type es with
  | Delete =>
      range_print_modifications (ModifiedRange (orig_start es) (orig_length es))
        a (deleted (edit_signs_ ep)) (get_color ep Delete)
  | Add =>
      range_print_modifications (ModifiedRange (new_start es) (new_length es))
        b (inserted (edit_signs_ ep)) (get_color ep Add)
  | Change =>
      o ← range_print_modifications (ModifiedRange (orig_start es) (orig_length es))
            a (deleted (edit_signs_ ep)) (get_color ep Delete);
      w ← range_print_modifications (ModifiedRange (new_start es) (new_length es))
            b (inserted (edit_signs_ ep)) (get_color ep Add);
      Done (o ++ [Plain (sep_changes (edit_signs_ ep))] ++ w)
  | Nop => Done []
  end.

(** ** Hunk *)

Record Hunk : Type := mkHunk {
  edit_scripts_ : list EditInstruction;
  orig_start_ : Z;
  orig_end_ : Z;
  new_start_ : Z;
  new_end_ : Z;
}.

(** The constructor [Hunk(EditInstruction es)]. *)
Definition Hunk_of (es : EditInstruction) : Hunk :=
  mkHunk [es]
    (orig_start es - 3) (orig_start es + orig_length es + 3)
    (new_start es - 3) (new_start es + new_length es + 3).

Definition mergeable (h : Hunk) (es : EditInstruction) : bool :=
  bool_decide (orig_start es ≤ orig_end_ h).

Definition add_edit_script (h : Hunk) (es : EditInstruction) : Hunk :=
  mkHunk (edit_scripts_ h ++ [es])
    (orig_start_ h) (orig_start es + orig_length es + 3)
    (new_start_ h) (new_start es + new_length es + 3).

Definition normalize_range (h : Hunk) (n m : Z) : Hunk :=
  mkHunk (edit_scripts_ h)
    (Z.max (orig_start_ h) 0) (Z.min (orig_end_ h) n)
    (Z.max (new_start_ h) 0) (Z.min (new_end_ h) m).

Definition make_header (h : Hunk) : string :=
  "@@ " +:+ ("-" +:+ to_string (orig_start_ h + 1) +:+ ","
               +:+ to_string (orig_end_ h - orig_start_ h))
    +:+ " " +:+ ("+" +:+ to_string (new_start_ h + 1) +:+ ","
                   +:+ to_string (new_end_ h - new_start_ h))
    +:+ " @@" +:+ nl.

(** The loops [while (line < bound)] printing unchanged lines; [cnt] is
    [bound - line]. *)
Fixpoint context_lines (a : list string) (cnt : nat) (line : Z) : result (list chunk) :=
  match cnt with
  | O => Done []
  | S cnt' =>
      l ← vec_get a line;
      rest ← context_lines a cnt' (line + 1);
      Done (Plain (" " +:+ l +:+ nl) :: rest)
  end.

Fixpoint hunk_body (ep : EditInstructionPrinter) (a b : list string)
    (orig_end : Z) (line : Z) (ess : list EditInstruction) : result (list chunk) :=
  match ess with
  | [] => context_lines a (Z.to_nat (orig_end - line)) line
  | es :: ess' =>
      ctx ← context_lines a (Z.to_nat (orig_start es - line)) line;
      let line1 := Z.max line (orig_start es) in
      mods ← print_modifications ep a b es;
      rest ← hunk_body ep a b orig_end (line1 + orig_length es) ess';
      Done (ctx ++ mods ++ rest)
  end.

Definition hunk_print_modifications (h : Hunk) (a b : list string) : result (list chunk) :=
  let color_config := default_colors in
  let ep := mkPrinter default_signs color_config in
  let h := normalize_range h (Z.of_nat (length a)) (Z.of_nat (length b)) in
  body ← hunk_body ep a b (orig_end_ h) (orig_start_ h) (edit_scripts_ h);
  Done (color_print (make_header h) (color_unified_header color_config) ++ body).

(** ** DiffPrinter *)

Fixpoint normal_print (a b : list string) (edit_script : list EditInstruction)
    : result (list chunk) :=
  let ep := mkPrinter (mkSigns " " "< " "> " ("---" +:+ nl)) default_colors in
  match edit_script with
  | [] => Done []
  | es :: rest =>
      if decide (type es = Nop) then normal_print a b rest
      else
        mods ← print_modifications ep a b es;
        out ← normal_print a b rest;
        Done (print_header es ++ mods ++ out)
  end.

(** The first loop of [unified_print]; the vector [hunks] is kept with
    its back at the head of the list. *)
Definition hunk_step (hunks : list Hunk) (es : EditInstruction) : list Hunk :=
  if decide (type es = Nop) then hunks
  else
    match hunks with
    | hunk :: others =>
        if mergeable hunk es then add_edit_script hunk es :: others
        else Hunk_of es :: hunks
    | [] => [Hunk_of es]
    end.

Definition collect_hunks (edit_script : list EditInstruction) : list Hunk :=
  reverse (foldl hunk_step [] edit_script).

Fixpoint print_hunks (a b : list string) (hunks : list Hunk) : result (list chunk) :=
  match hunks with
  | [] => Done []
  | hunk :: rest =>
      o ← hunk_print_modifications hunk a b;
      out ← print_hunks a b rest;
      Done (o ++ out)
  end.

Definition unified_print (a b : list string) (edit_script : list EditInstruction)
    : result (list chunk) :=
  print_hunks a b (collect_hunks edit_script).

(** ** The program

    How a function that may call [exit] ends: it returns, or the process
    exits with a status, having written [out] to [std::cout] and [err] to
    [std::cerr], or it has gone wrong with a [fault]. *)

Inductive run (T : Type) : Type :=
  | Returned (t : T)
  | Exited (code : Z) (out : list chunk) (err : string)
  | Undefined (f : fault).
Arguments Returned {T} t.
Arguments Exited {T} code out err.
Arguments Undefined {T} f.

Global Instance run_ret : MRet run := λ T t, Returned t.
Global Instance run_bind : MBind run := λ T U k r,
  match r with
  | Returned t => k t
  | Exited code out err => Exited code out err
  | Undefined f => Undefined f
  end.

Definition lift {T : Type} (r : result T) : run T :=
  match r with
  | Done t => Returned t
  | Fault f => Undefined f
  end.

Definition newline : ascii := ascii_of_nat 10.
Definition tab : string := String (ascii_of_nat 9) EmptyString.

(** [std::getline(ifs, s)] with [stream] left to read: the characters up
    to the first newline or to the end of the stream, and what is left
    after the newline. *)
Fixpoint getline_chars (stream : string) : string * string :=
  match stream with
  | EmptyString => (EmptyString, EmptyString)
  | String c rest =>
      if decide (c = newline) then (EmptyString, rest)
      else let '(s, rest') := getline_chars rest in (String c s, rest')
  end.

(** It fails when there is nothing left to extract. *)
Definition getline (stream : string) : option (string * string) :=
  match stream with
  | EmptyString => None
  | String _ _ => Some (getline_chars stream)
  end.

(** The loop [while (std::getline(ifs,s)) lines.push_back(s)]. *)
Fixpoint read_loop (fuel : nat) (stream : string) (lines : list string)
    : list string :=
  match fuel with
  | O => lines
  | S fuel' =>
      match getline stream with
      | Some (s, rest) => read_loop fuel' rest (lines ++ [s])
      | None => lines
      end
  end.

Section program.
(** The contents of the files [std::ifstream] can open, and what [stat]
    and [strftime] give for a file: the formatted time of its last change,
    or the text of [strerror(errno)]. *)
Variable open_file : string → option string.
Variable timestamp : string → string + string.

(** Every successful [getline] takes at least one character off the
    stream, so the loop ends within [String.length stream + 1] turns. *)
Definition read_lines (file : string) : run (list string) :=
  match open_file file with
  | None => Exited 1 [] ("Cannot open " +:+ file +:+ nl)
  | Some stream => Returned (read_loop (S (String.length stream)) stream [])
  end.

Definition get_timestamp (file : string) : run string :=
  match timestamp file with
  | inl buf => Returned buf
  | inr msg => Exited 1 [Plain (msg +:+ nl)] ""
  end.

Definition print_unified_header (file_1 file_2 : string) : run (list chunk) :=
  buf1 ← get_timestamp file_1;
  buf2 ← get_timestamp file_2;
  Returned [Plain ("--- " +:+ file_1 +:+ tab +:+ buf1 +:+ nl);
            Plain ("+++ " +:+ file_2 +:+ tab +:+ buf2 +:+ nl)].

Definition print_diff (file_1 file_2 : string) (unified : bool)
    : run (list chunk) :=
  a ← read_lines file_1;
  b ← read_lines file_2;
  edit_script ← lift (shortest_edit_script a b);
  if unified then
    header ← print_unified_header file_1 file_2;
    body ← lift (unified_print a b edit_script);
    Returned (header ++ body)
  else
    lift (normal_print a b edit_script).
End program.


(** * Properties *)

Lemma max_diff_pos : 0 < max_diff.
Proof. reflexivity. Qed.

Lemma max_diff_levels : Z.to_nat max_diff = S (Z.to_nat (max_diff - 1)).
Proof. reflexivity. Qed.

Lemma max_diff_value : max_diff = 10000.
Proof. reflexivity. Qed.

Global Opaque max_diff.

Lemma bind_Done {T U : Type} (r : result T) (k : T → result U) (u : U) :
  r ≫= k = Done u → ∃ t, r = Done t ∧ k t = Done u.
Proof. destruct r as [t|f]; simpl; [eauto | discriminate]. Qed.

Lemma vec_get_Done {T : Type} (v : list T) (i : Z) (t : T) :
  vec_get v i = Done t ↔ 0 ≤ i ∧ v !! Z.to_nat i = Some t.
Proof.
  unfold vec_get. case_bool_decide.
  - destruct (v !! Z.to_nat i) eqn:E; split; intros; try congruence; intuition congruence.
  - split; [discriminate | lia].
Qed.

Lemma vec_get_nat {T : Type} (v : list T) (i : nat) (t : T) :
  v !! i = Some t → vec_get v (Z.of_nat i) = Done t.
Proof. intros. apply vec_get_Done. rewrite Nat2Z.id. split; [lia | done]. Qed.

Lemma vec_get_past_end {T : Type} (v : list T) (i : Z) :
  Z.of_nat (length v) ≤ i → vec_get v i = Fault OutOfBounds.
Proof.
  intros Hi. unfold vec_get. case_bool_decide; [|done].
  rewrite lookup_ge_None_2; [done | lia].
Qed.

(** ** The snake *)

Section snake_facts.
Context {A : Type} `{EqDecision A}.
Variables a b : list A.

Local Abbreviation n := (Z.of_nat (length a)).
Local Abbreviation m := (Z.of_nat (length b)).

(** [len] elements of [a] from [x] equal those of [b] from [y]. *)
Definition run_eq (x y len : Z) : Prop :=
  ∀ i, 0 ≤ i < len →
    0 ≤ x + i ∧ 0 ≤ y + i ∧
    ∃ c, a !! Z.to_nat (x + i) = Some c ∧ b !! Z.to_nat (y + i) = Some c.

Lemma run_eq_nil x y len : len ≤ 0 → run_eq x y len.
Proof. intros ? i ?. lia. Qed.

Lemma run_eq_cons x y len c :
  0 ≤ x → 0 ≤ y → 0 ≤ len →
  a !! Z.to_nat x = Some c → b !! Z.to_nat y = Some c →
  run_eq (x + 1) (y + 1) len → run_eq x y (len + 1).
Proof.
  intros Hx Hy Hl Ha Hb Hr i Hi.
  destruct (decide (i = 0)) as [->|Hne].
  - rewrite !Z.add_0_r. eauto.
  - destruct (Hr (i - 1)) as (? & ? & c' & ? & ?); [lia|].
    replace (x + i) with (x + 1 + (i - 1)) by lia.
    replace (y + i) with (y + 1 + (i - 1)) by lia. eauto.
Qed.

Lemma run_eq_bounds x y len :
  0 < len → run_eq x y len → 0 ≤ x ∧ 0 ≤ y ∧ x + len ≤ n ∧ y + len ≤ m.
Proof.
  intros Hl Hr.
  destruct (Hr 0) as (? & ? & _); [lia|].
  destruct (Hr (len - 1)) as (? & ? & c & Ha & Hb); [lia|].
  apply lookup_lt_Some in Ha, Hb. lia.
Qed.

(** The snake always ends, at or after its start, over equal elements. *)
Lemma snake_loop_total steps x y :
  0 ≤ x → 0 ≤ y →
  ∃ x', snake_loop a b steps x y = Done x' ∧ x ≤ x' ∧ run_eq x y (x' - x).
Proof.
  revert x y. induction steps as [|steps IH]; intros x y Hx Hy; simpl.
  - exists x. split; [done|]. split; [lia|]. apply run_eq_nil. lia.
  - destruct (x <? n) eqn:Hxn; simpl;
      [destruct (y <? m) eqn:Hym; simpl|]; cycle 1.
    + exists x. split; [done|]. split; [lia|]. apply run_eq_nil. lia.
    + exists x. split; [done|]. split; [lia|]. apply run_eq_nil. lia.
    + apply Z.ltb_lt in Hxn, Hym.
      destruct (lookup_lt_is_Some_2 a (Z.to_nat x)) as [ax Hax]; [lia|].
      destruct (lookup_lt_is_Some_2 b (Z.to_nat y)) as [by_ Hby]; [lia|].
      rewrite (proj2 (vec_get_Done a x ax)) by done. simpl.
      rewrite (proj2 (vec_get_Done b y by_)) by done. simpl.
      destruct (decide (ax = by_)) as [->|Hne].
      * destruct (IH (x + 1) (y + 1)) as (x' & -> & Hle & Hr); [lia..|].
        exists x'. split; [done|]. split; [lia|].
        replace (x' - x) with (x' - (x + 1) + 1) by lia.
        eapply run_eq_cons; eauto. lia.
      * exists x. split; [done|]. split; [lia|]. apply run_eq_nil. lia.
Qed.

Lemma snake_total x y :
  0 ≤ x → 0 ≤ y →
  ∃ x', snake a b x y = Done x' ∧ x ≤ x' ∧ run_eq x y (x' - x).
Proof. apply snake_loop_total. Qed.
End snake_facts.

(** ** The forward search *)

(** The diagonal stored at index [i] of the record of level [d]. *)
Definition diag (d i : nat) : Z := 2 * Z.of_nat i - Z.of_nat d.

(** [buf] holds the record [v] of level [d]. *)
Definition buf_holds (buf : gmap Z Z) (d : nat) (v : max_pos_vec) : Prop :=
  ∀ i : nat, (i < length v)%nat → buf !! (max_diff + diag d i) = v !! i.

(** [buf] and [buf0] agree on the cells of the diagonals that level [d]
    does not write. *)
Definition same_reads (d : nat) (buf buf0 : gmap Z Z) : Prop :=
  ∀ j, Z.odd (j - max_diff - Z.of_nat d) = true → buf !! j = buf0 !! j.

(** Every entry of a record lies on or above both axes. *)
Definition above_axes (d : nat) (v : max_pos_vec) : Prop :=
  ∀ (i : nat) x, v !! i = Some x → 0 ≤ x ∧ diag d i ≤ x.

(** The start on the diagonal of index [i] at level [d], from the record
    [prev] of level [d - 1]. *)
Definition pick (prev : max_pos_vec) (d i : nat) : option Z :=
  if decide (i = 0)%nat then prev !! 0%nat
  else if decide (i ≠ d) then
    l ← prev !! (i - 1)%nat; r ← prev !! i;
    Some (if bool_decide (l < r) then r else l + 1)
  else l ← prev !! (i - 1)%nat; Some (l + 1).

Definition start_at (H : list max_pos_vec) (d i : nat) : option Z :=
  match d with
  | O => Some 0
  | S d' => prev ← H !! d'; pick prev d i
  end.

Lemma diag_succ d i : diag d i + 2 = diag d (S i).
Proof. unfold diag. lia. Qed.

Lemma same_reads_refl d buf : same_reads d buf buf.
Proof. by intros j _. Qed.

Lemma same_reads_insert d i buf buf0 x :
  same_reads d buf buf0 → same_reads d (<[max_diff + diag d i := x]> buf) buf0.
Proof.
  intros Hs j Hj. rewrite lookup_insert_ne; [by apply Hs|].
  intros <-. unfold diag in Hj.
  replace (max_diff + (2 * Z.of_nat i - Z.of_nat d) - max_diff - Z.of_nat d)
    with (2 * (Z.of_nat i - Z.of_nat d)) in Hj by lia.
  rewrite Z.odd_mul in Hj. discriminate.
Qed.

Section forward.
Context {A : Type} `{EqDecision A}.
Variables a b : list A.

Local Abbreviation n := (Z.of_nat (length a)).
Local Abbreviation m := (Z.of_nat (length b)).

Lemma select_start_same_reads d i buf buf0 :
  same_reads d buf buf0 →
  select_start buf (Z.of_nat d) (diag d i) = select_start buf0 (Z.of_nat d) (diag d i).
Proof.
  intros Hs.
  assert (∀ e, e = 1 ∨ e = -1 →
     buf_get buf (max_diff + diag d i + e) = buf_get buf0 (max_diff + diag d i + e)) as Hg.
  { intros e He. unfold buf_get. rewrite Hs; [done|]. unfold diag.
    destruct He as [-> | ->].
    - replace (max_diff + (2 * Z.of_nat i - Z.of_nat d) + 1 - max_diff - Z.of_nat d)
        with (1 + 2 * (Z.of_nat i - Z.of_nat d)) by lia.
      by rewrite Z.odd_add_mul_2.
    - replace (max_diff + (2 * Z.of_nat i - Z.of_nat d) + -1 - max_diff - Z.of_nat d)
        with (1 + 2 * (Z.of_nat i - Z.of_nat d - 1)) by lia.
      by rewrite Z.odd_add_mul_2. }
  unfold select_start.
  replace (max_diff + diag d i - 1) with (max_diff + diag d i + -1) by lia.
  rewrite !Hg by auto. done.
Qed.

(** What the search establishes for the entry [x] at index [i] of level
    [d], started from the buffer [buf0] the level began with. *)
Definition found (buf0 : gmap Z Z) (d i : nat) (x : Z) : Prop :=
  ∃ x0, select_start buf0 (Z.of_nat d) (diag d i) = Done x0 ∧
        snake a b x0 (x0 - diag d i) = Done x ∧
        x0 ≤ x ∧ run_eq a b x0 (x0 - diag d i) (x - x0) ∧
        0 ≤ x0 ∧ diag d i ≤ x0.

Lemma diagonals_total (d : nat) (buf0 : gmap Z Z) :
  Z.of_nat d < max_diff →
  (∀ i : nat, (i ≤ d)%nat →
     ∃ x0, select_start buf0 (Z.of_nat d) (diag d i) = Done x0 ∧ 0 ≤ x0 ∧ diag d i ≤ x0) →
  ∀ (cnt i : nat) buf v,
    (cnt + i = S d)%nat → length v = i →
    same_reads d buf buf0 → buf_holds buf d v →
    (∀ (j : nat) x, v !! j = Some x → found buf0 d j x) →
    (∀ (j : nat) x, v !! j = Some x → ¬ (x = n ∧ x - diag d j = m)) →
    ∃ r, diagonals a b cnt (Z.of_nat d) (diag d i) buf v = Done r ∧
      match r with
      | None => ∃ i' : nat, (i ≤ i' ≤ d)%nat ∧ found buf0 d i' n ∧ n - diag d i' = m
      | Some (buf', v') =>
          same_reads d buf' buf0 ∧ length v' = S d ∧ buf_holds buf' d v' ∧
          (∀ (j : nat) x, v' !! j = Some x → found buf0 d j x) ∧
          (∀ (j : nat) x, v' !! j = Some x → ¬ (x = n ∧ x - diag d j = m))
      end.
Proof.
  intros Hd Hsel cnt.
  induction cnt as [|cnt IH]; intros i buf v Hcnt Hlen Hs Hh Hv Hnend.
  - exists (Some (buf, v)). split; [done|]. repeat split; auto. lia.
  - destruct (Hsel i) as (x0 & Hx0 & Hx0a & Hx0b); [lia|].
    destruct (snake_total a b x0 (x0 - diag d i) ltac:(lia) ltac:(lia))
      as (x & Hx & Hle & Hrun).
    cbn [diagonals].
    rewrite (select_start_same_reads d i buf buf0 Hs), Hx0. cbn [mbind result_bind].
    rewrite Hx. cbn [mbind result_bind].
    unfold buf_set.
    rewrite (bool_decide_true (0 ≤ max_diff + diag d i < 2 * max_diff + 1))
      by (unfold diag; lia).
    cbn [mbind result_bind].
    assert (found buf0 d i x) as Hfound.
    { exists x0. do 5 (split; [done|]). done. }
    destruct (bool_decide (x = n) && bool_decide (x - diag d i = m)) eqn:Hterm.
    + apply andb_true_iff in Hterm as [Hn Hm].
      apply bool_decide_eq_true in Hn, Hm. subst x.
      exists None. split; [done|]. exists i. split; [lia|]. split; [done|]. done.
    + rewrite diag_succ.
      destruct (IH (S i) (<[max_diff + diag d i := x]> buf) (v ++ [x]))
        as (r & Hr & Hpost).
      * lia.
      * rewrite length_app. simpl. lia.
      * by apply same_reads_insert.
      * intros j Hj. rewrite length_app in Hj. simpl in Hj.
        destruct (decide (j = i)) as [->|Hne].
        -- rewrite lookup_insert_eq. rewrite lookup_app_r by lia.
           by rewrite Hlen, Nat.sub_diag.
        -- rewrite lookup_insert_ne by (unfold diag; lia).
           rewrite lookup_app_l by lia. apply Hh. lia.
      * intros j y Hj. apply lookup_app_Some in Hj as [Hj | [Hge Hj]]; [by apply Hv|].
        destruct (j - length v)%nat as [|?] eqn:E; simpl in Hj; [|done].
        assert (j = i) as -> by lia. by injection Hj as <-.
      * intros j y Hj. apply lookup_app_Some in Hj as [Hj | [Hge Hj]]; [by apply Hnend|].
        destruct (j - length v)%nat as [|?] eqn:E; simpl in Hj; [|done].
        assert (j = i) as -> by lia. injection Hj as <-.
        apply andb_false_iff in Hterm.
        intros [? ?]. destruct Hterm as [Ht|Ht]; apply bool_decide_eq_false in Ht; done.
      * exists r. split; [done|]. destruct r as [[buf' v']|]; [done|].
        destruct Hpost as (i' & Hi' & Hf & Hk). exists i'. split; [lia|done].
Qed.

Lemma buf_get_holds buf (d : nat) v (j : nat) x :
  Z.of_nat d < max_diff → buf_holds buf d v → v !! j = Some x → (j ≤ d)%nat →
  buf_get buf (max_diff + diag d j) = Done x.
Proof.
  intros Hd Hh Hj Hjd. unfold buf_get.
  rewrite bool_decide_true by (unfold diag; lia).
  rewrite Hh by (by eapply lookup_lt_Some). by rewrite Hj.
Qed.

(** At level [d' + 1] the source's selection reads the record of level
    [d'] out of [buf]. *)
Lemma select_start_pick (d' : nat) buf0 prev :
  Z.of_nat (S d') < max_diff →
  buf_holds buf0 d' prev → length prev = S d' → above_axes d' prev →
  ∀ i : nat, (i ≤ S d')%nat →
    ∃ x0, pick prev (S d') i = Some x0 ∧
          select_start buf0 (Z.of_nat (S d')) (diag (S d') i) = Done x0 ∧
          0 ≤ x0 ∧ diag (S d') i ≤ x0.
Proof.
  intros Hd Hh Hlen Hax i Hi.
  assert (max_diff + diag (S d') i + 1 = max_diff + diag d' i) as Hup
    by (unfold diag; lia).
  unfold select_start, pick.
  destruct (decide (i = 0)%nat) as [->|Hi0].
  - rewrite bool_decide_true by (unfold diag; lia). cbn [mbind result_bind].
    destruct (lookup_lt_is_Some_2 prev 0%nat) as [x0 Hx0]; [lia|].
    exists x0. rewrite Hup, (buf_get_holds buf0 d' prev 0%nat x0 ltac:(lia) Hh Hx0 ltac:(lia)).
    destruct (Hax _ _ Hx0). split; [done|]. split; [done|]. unfold diag in *. lia.
  - rewrite bool_decide_false by (unfold diag; lia).
    assert (max_diff + diag (S d') i - 1 = max_diff + diag d' (i - 1)) as Hlo
      by (unfold diag; lia).
    destruct (lookup_lt_is_Some_2 prev (i - 1)%nat) as [l Hl]; [lia|].
    rewrite Hlo, (buf_get_holds buf0 d' prev (i - 1)%nat l ltac:(lia) Hh Hl ltac:(lia)).
    destruct (Hax _ _ Hl) as [Hl0 Hlk].
    destruct (decide (i ≠ S d')) as [Hne|Heq].
    + rewrite bool_decide_true by (unfold diag; lia).
      destruct (lookup_lt_is_Some_2 prev i) as [r Hr]; [lia|].
      rewrite Hup, (buf_get_holds buf0 d' prev i r ltac:(lia) Hh Hr ltac:(lia)).
      destruct (Hax _ _ Hr) as [Hr0 Hrk].
      rewrite Hl, Hr. cbn [mbind result_bind option_bind].
      case_bool_decide.
      * exists r. split; [done|]. split; [done|]. unfold diag in *. lia.
      * exists (l + 1). split; [done|]. split; [done|]. unfold diag in *. lia.
    + rewrite bool_decide_false by (unfold diag; lia).
      rewrite Hl. cbn [mbind result_bind option_bind].
      exists (l + 1). split; [done|]. split; [done|]. unfold diag in *. lia.
Qed.

Lemma select_start_origin buf0 :
  buf0 !! (max_diff + 1) = Some 0 →
  select_start buf0 (Z.of_nat 0) (diag 0 0) = Done 0.
Proof.
  intros Hb. unfold select_start.
  change (diag 0 0) with 0. change (Z.of_nat 0) with 0.
  rewrite bool_decide_true by lia. cbn [mbind result_bind].
  replace (max_diff + 0 + 1) with (max_diff + 1) by lia.
  unfold buf_get. pose proof max_diff_pos.
  rewrite bool_decide_true by lia. by rewrite Hb.
Qed.

(** What the history says about the entry [x] at index [i] of level [d]:
    it is the end of the snake from the start picked out of the record
    of the level before. *)
Definition reach (H : list max_pos_vec) (d i : nat) (x : Z) : Prop :=
  ∃ x0, start_at H d i = Some x0 ∧
        snake a b x0 (x0 - diag d i) = Done x ∧
        x0 ≤ x ∧ run_eq a b x0 (x0 - diag d i) (x - x0).

Definition history_ok (H : list max_pos_vec) : Prop :=
  ∀ (d : nat) v, H !! d = Some v →
    length v = S d ∧ above_axes d v ∧
    (∀ (i : nat) x, v !! i = Some x → reach H d i x) ∧
    (∀ (i : nat) x, v !! i = Some x → ¬ (x = n ∧ x - diag d i = m)).

(** The search stopped at level [length H], on the diagonal of [(n, m)]. *)
Definition terminal (H : list max_pos_vec) : Prop :=
  ∃ i : nat, (i ≤ length H)%nat ∧ reach H (length H) i n ∧
             n - diag (length H) i = m.

Lemma start_at_app H H2 (d i : nat) :
  (d ≤ length H)%nat → start_at (H ++ H2) d i = start_at H d i.
Proof.
  intros Hd. destruct d as [|d']; [done|]. simpl.
  rewrite lookup_app_l by lia. done.
Qed.

Lemma reach_app H H2 (d i : nat) x :
  (d ≤ length H)%nat → reach H d i x → reach (H ++ H2) d i x.
Proof.
  intros Hd (x0 & Hs & Hrest). exists x0. by rewrite start_at_app.
Qed.

(** [buf], at the start of level [length H], holds the last record. *)
Definition level_buf (buf : gmap Z Z) (H : list max_pos_vec) : Prop :=
  match length H with
  | O => buf !! (max_diff + 1) = Some 0
  | S d' => ∃ prev, H !! d' = Some prev ∧ buf_holds buf d' prev
  end.

Lemma level_select H buf :
  Z.of_nat (length H) < max_diff → history_ok H → level_buf buf H →
  ∀ i : nat, (i ≤ length H)%nat →
    ∃ x0, start_at H (length H) i = Some x0 ∧
          select_start buf (Z.of_nat (length H)) (diag (length H) i) = Done x0 ∧
          0 ≤ x0 ∧ diag (length H) i ≤ x0.
Proof.
  intros Hd Hok Hbuf i Hi. unfold level_buf in Hbuf.
  destruct (length H) as [|d'] eqn:Hlen.
  - assert (i = 0)%nat as -> by lia. exists 0.
    split; [done|]. split; [by apply select_start_origin|]. unfold diag. lia.
  - destruct Hbuf as (prev & Hprev & Hh).
    destruct (Hok _ _ Hprev) as (Hl & Hax & _).
    destruct (select_start_pick d' buf prev Hd Hh Hl Hax i Hi)
      as (x0 & Hp & Hs & Hb).
    exists x0. split; [|done]. simpl. rewrite Hprev. done.
Qed.

Lemma found_reach H buf (j : nat) x :
  Z.of_nat (length H) < max_diff → history_ok H → level_buf buf H →
  (j ≤ length H)%nat → found buf (length H) j x → reach H (length H) j x.
Proof.
  intros Hd Hok Hbuf Hj (x0 & Hsel & Hsn & Hle & Hrun & _).
  destruct (level_select H buf Hd Hok Hbuf j Hj) as (x0' & Hst & Hsel' & _).
  assert (x0' = x0) as -> by congruence.
  exists x0. done.
Qed.

Lemma levels_total rem : ∀ H buf,
  Z.of_nat (rem + length H) = max_diff → history_ok H → level_buf buf H →
  ∃ H', levels a b rem (Z.of_nat (length H)) buf H = Done H' ∧ history_ok H' ∧
        (terminal H' ∧ Z.of_nat (length H') < max_diff
         ∨ Z.of_nat (length H') = max_diff).
Proof.
  induction rem as [|rem IH]; intros H buf Hrem Hok Hbuf.
  - exists H. split; [done|]. split; [done|]. right. simpl in Hrem. lia.
  - assert (Z.of_nat (length H) < max_diff) as Hd by lia.
    set (d := length H) in *.
    destruct (diagonals_total d buf Hd) with (cnt := S d) (i := 0%nat) (buf := buf)
      (v := @nil Z) as (r & Hr & Hpost).
    + intros i Hi. destruct (level_select H buf Hd Hok Hbuf i Hi) as (x0 & _ & ? & ?).
      by exists x0.
    + lia.
    + done.
    + apply same_reads_refl.
    + intros i Hi. simpl in Hi. lia.
    + intros j x Hj. done.
    + intros j x Hj. done.
    + cbn [levels]. rewrite Nat2Z.id.
      replace (- Z.of_nat d) with (diag d 0) by (unfold diag; lia).
      rewrite Hr. cbn [mbind result_bind].
      destruct r as [[buf' v']|].
      * destruct Hpost as (Hs' & Hlen' & Hh' & Hf' & Hne').
        replace (Z.of_nat d + 1) with (Z.of_nat (length (H ++ [v'])))
          by (rewrite length_app; simpl; lia).
        apply IH.
        -- rewrite length_app. simpl. lia.
        -- intros d0 v0 Hd0. apply lookup_app_Some in Hd0 as [Hd0 | [Hge Hd0]].
           ++ destruct (Hok _ _ Hd0) as (? & ? & Hre & ?).
              split; [done|]. split; [done|]. split; [|done].
              intros i x Hi. apply reach_app; [|by apply Hre].
              apply lookup_lt_Some in Hd0. lia.
           ++ destruct (d0 - length H)%nat as [|?] eqn:E; simpl in Hd0; [|done].
              injection Hd0 as <-. assert (d0 = d) as -> by (unfold d; lia).
              split; [done|]. split.
              ** intros i x Hi. destruct (Hf' _ _ Hi) as (x0 & _ & _ & ? & _ & ? & ?). lia.
              ** split; [|done]. intros i x Hi. apply reach_app; [done|].
                 apply (found_reach H buf); auto.
                 apply lookup_lt_Some in Hi. fold d. lia.
        -- unfold level_buf. rewrite length_app. simpl.
           replace (length H + 1)%nat with (S d) by (unfold d; lia).
           exists v'. split; [|done].
           rewrite lookup_app_r by (unfold d; lia).
           by replace (d - length H)%nat with 0%nat by (unfold d; lia).
      * exists H. split; [done|]. split; [done|]. left. split; [|done].
        destruct Hpost as (i & Hi & Hf & Hk). exists i. fold d.
        split; [lia|]. split; [|done]. apply (found_reach H buf); auto. fold d. lia.
Qed.

(** The forward search never faults; it returns at most [max_diff]
    records, and fewer exactly when it reached [(n, m)]. *)
Lemma find_shortest_path_total :
  ∃ H, find_shortest_path a b = Done H ∧ history_ok H ∧
       (terminal H ∧ Z.of_nat (length H) < max_diff
        ∨ Z.of_nat (length H) = max_diff).
Proof.
  unfold find_shortest_path, buf_set. pose proof max_diff_pos.
  rewrite bool_decide_true by lia. cbn [mbind result_bind].
  apply (levels_total (Z.to_nat max_diff) []).
  - simpl. lia.
  - intros d v Hd. done.
  - unfold level_buf. simpl. apply lookup_insert_eq.
Qed.
End forward.

(** ** The backward reconstruction *)

Section backward.
Context {A : Type} `{EqDecision A}.
Variables a b : list A.

Local Abbreviation n := (Z.of_nat (length a)).
Local Abbreviation m := (Z.of_nat (length b)).

(** One anchor to the next: one element of [a] deleted, or one element of
    [b] inserted, and then a run of equal elements. *)
Definition delete_edge (p q : point) : Prop :=
  q.1 - q.2 = p.1 - p.2 + 1 ∧ p.1 + 1 ≤ q.1 ∧
  run_eq a b (p.1 + 1) p.2 (q.1 - (p.1 + 1)).

Definition insert_edge (p q : point) : Prop :=
  q.1 - q.2 = p.1 - p.2 - 1 ∧ p.1 ≤ q.1 ∧
  run_eq a b p.1 (p.2 + 1) (q.1 - p.1).

Definition edge (p q : point) : Prop := delete_edge p q ∨ insert_edge p q.

(** An insertion not followed by any equal element, and then a deletion:
    the search never takes these two steps in that order. *)
Definition insert_then_delete (p q r : point) : Prop :=
  q = (p.1, p.2 + 1) ∧ r.1 - r.2 = q.1 - q.2 + 1.

Fixpoint path (p : point) (rest : list point) : Prop :=
  match rest with
  | [] => True
  | q :: rest' =>
      edge p q ∧
      match rest' with
      | r :: _ => ¬ insert_then_delete p q r
      | [] => True
      end ∧
      path q rest'
  end.

(** A trace as [build_edit_script] expects it: it starts at the end of
    the common prefix, follows edges, and ends at [(n, m)]. *)
Definition trace_ok (trace : list point) : Prop :=
  ∃ x0 rest, trace = (x0, x0) :: rest ∧ snake a b 0 0 = Done x0 ∧
             0 ≤ x0 ∧ run_eq a b 0 0 x0 ∧
             path (x0, x0) rest ∧ last trace = Some (n, m).

Lemma pick_above prev (d i : nat) x0 l :
  pick prev d (S i) = Some x0 → prev !! i = Some l → l + 1 ≤ x0.
Proof.
  unfold pick. intros Hp Hl.
  destruct (decide (S i = 0)%nat); [lia|].
  replace (S i - 1)%nat with i in Hp by lia. rewrite Hl in Hp. simpl in Hp.
  destruct (decide (S i ≠ d)).
  - destruct (prev !! S i) as [r|]; simpl in Hp; [|done].
    injection Hp as <-. case_bool_decide; lia.
  - simpl in Hp. injection Hp as <-. lia.
Qed.

Lemma quot_diag (d i : nat) :
  Z.quot (diag (S d) i - 1 + Z.of_nat d) 2 = Z.of_nat i - 1.
Proof.
  replace (diag (S d) i - 1 + Z.of_nat d) with ((Z.of_nat i - 1) * 2)
    by (unfold diag; lia).
  apply Z.quot_mul. lia.
Qed.

(** What a turn of the backward loop does when it does not fault. *)
Lemma back_step_Done H max_n (d i : nat) k' p :
  history_ok a b H → 0 ≤ max_n → (i ≤ S d)%nat →
  back_step H max_n (Z.of_nat d) (diag (S d) i) = Done (k', p) →
  ∃ v (i' : nat) xp,
    H !! d = Some v ∧ v !! i' = Some xp ∧ k' = diag d i' ∧ p = (xp, xp - k') ∧
    ((i = S i' ∧ start_at H (S d) i = Some (xp + 1) ∧
      ∃ rv, v !! i = Some rv ∧ rv < xp + 1)
     ∨ (i = i' ∧ start_at H (S d) i = Some xp)).
Proof.
  intros Hok Hmax Hi Hstep. unfold back_step in Hstep.
  apply bind_Done in Hstep as (v & Hv & Hstep).
  apply vec_get_Done in Hv as [_ Hv]. rewrite Nat2Z.id in Hv.
  destruct (Hok _ _ Hv) as (Hlen & Hax & _).
  rewrite (bool_decide_true (Z.of_nat (length v) = Z.of_nat d + 1)) in Hstep by lia.
  cbn [assert mbind result_bind] in Hstep.
  rewrite quot_diag in Hstep.
  exists v. simpl. rewrite Hv. simpl.
  destruct (decide (i = 0)%nat) as [->|Hi0].
  - rewrite (bool_decide_true (Z.of_nat 0 - 1 < 0)) in Hstep by lia.
    rewrite (bool_decide_false (Z.of_nat 0 - 1 > Z.of_nat d)) in Hstep by lia.
    cbn [mbind result_bind] in Hstep.
    destruct (lookup_lt_is_Some_2 v 0%nat) as [x2 Hx2]; [lia|].
    change (Z.of_nat 0 - 1 + 1) with (Z.of_nat 0) in Hstep.
    rewrite (vec_get_nat v 0 x2 Hx2) in Hstep. cbn [mbind result_bind] in Hstep.
    destruct (Hax _ _ Hx2) as [Hx2a _].
    rewrite (bool_decide_false (- (max_n + 1) + 1 > x2)) in Hstep by lia.
    injection Hstep as <- <-.
    exists 0%nat, x2. split; [done|]. split; [done|].
    split; [unfold diag; lia|]. split; [done|]. right. done.
  - rewrite (bool_decide_false (Z.of_nat i - 1 < 0)) in Hstep by lia.
    rewrite (bool_decide_false (Z.of_nat i - 1 > Z.of_nat d)) in Hstep by lia.
    destruct (lookup_lt_is_Some_2 v (i - 1)%nat) as [l Hl]; [lia|].
    replace (Z.of_nat i - 1) with (Z.of_nat (i - 1)) in Hstep by lia.
    rewrite (vec_get_nat v _ l Hl) in Hstep. cbn [mbind result_bind] in Hstep.
    replace (Z.of_nat (i - 1) + 1) with (Z.of_nat i) in Hstep by lia.
    destruct (decide (i = S d)) as [->|Hne].
    { rewrite vec_get_past_end in Hstep by lia. discriminate. }
    destruct (lookup_lt_is_Some_2 v i) as [r Hr]; [lia|].
    rewrite (vec_get_nat v _ r Hr) in Hstep. cbn [mbind result_bind] in Hstep.
    unfold pick. rewrite decide_False by done. rewrite decide_True by done.
    rewrite Hl, Hr. simpl.
    case_bool_decide as Hcmp; injection Hstep as <- <-.
    + exists (i - 1)%nat, l. split; [done|]. split; [done|].
      split; [unfold diag; lia|]. split; [done|]. left.
      split; [lia|]. split; [by rewrite bool_decide_false by lia|].
      exists r. split; [done|lia].
    + exists i, r. split; [done|]. split; [done|].
      split; [unfold diag; lia|]. split; [done|]. right.
      split; [done|]. by rewrite bool_decide_true by lia.
Qed.

(** The state of the backward loop about to read record [cnt - 1]: the
    trace so far, read from its last point, is a path from the current
    point on diagonal [k] to [(n, m)]. *)
Definition back_inv (H : list max_pos_vec) (cnt : nat) (k : Z)
    (trace : list point) : Prop :=
  ∃ (i : nat) x rest,
    reverse trace = (x, x - k) :: rest ∧ k = diag cnt i ∧ (i ≤ cnt)%nat ∧
    reach a b H cnt i x ∧ path (x, x - k) rest ∧
    last (reverse trace) = Some (n, m) ∧
    match rest with
    | r :: _ =>
        r.1 - r.2 = k + 1 →
        ∃ v rv, H !! cnt = Some v ∧ v !! S i = Some rv ∧ rv < x + 1
    | [] => True
    end.

Lemma back_inv_step H max_n (d : nat) k trace k' p :
  history_ok a b H → 0 ≤ max_n →
  back_inv H (S d) k trace →
  back_step H max_n (Z.of_nat d) k = Done (k', p) →
  back_inv H d k' (trace ++ [p]).
Proof.
  intros Hok Hmax (i & x & rest & Hrev & -> & Hi & Hreach & Hpath & Hlast & Hjust) Hstep.
  destruct (back_step_Done H max_n d i k' p Hok Hmax Hi Hstep)
    as (v & i' & xp & Hv & Hxp & -> & -> & Hcase).
  destruct (Hok _ _ Hv) as (Hlen & Hax & Hre & _).
  assert (i' ≤ d)%nat as Hi' by (apply lookup_lt_Some in Hxp; lia).
  destruct Hreach as (x0 & Hst & Hsn & Hle & Hrun).
  exists i', xp, ((x, x - diag (S d) i) :: rest).
  split; [by rewrite reverse_snoc, Hrev|].
  split; [done|]. split; [done|]. split; [by apply Hre|].
  split; [|split].
  - (* the path *)
    split; [|split; [|done]].
    + destruct Hcase as [(-> & Hst' & _) | (-> & Hst')];
        rewrite Hst in Hst'; injection Hst' as ->.
      * left. unfold delete_edge. simpl. split; [unfold diag; lia|]. split; [lia|].
        replace (xp - diag d i') with (xp + 1 - diag (S d) (S i'))
          by (unfold diag; lia).
        done.
      * right. unfold insert_edge. simpl. split; [unfold diag; lia|]. split; [lia|].
        replace (xp - diag d i' + 1) with (xp - diag (S d) i')
          by (unfold diag; lia).
        done.
    + destruct rest as [|r rest']; [done|].
      intros [Hq Hr]. simpl in Hq, Hr. injection Hq as Hq1 Hq2. subst x.
      destruct Hcase as [(-> & _) | (-> & Hst')]; [unfold diag in Hq2; lia|].
      destruct Hjust as (v1 & rv & Hv1 & Hrv & Hlt); [lia|].
      destruct (Hok _ _ Hv1) as (_ & _ & Hre1 & _).
      destruct (Hre1 _ _ Hrv) as (x1 & Hst1 & _ & Hle1 & _).
      simpl in Hst1. rewrite Hv in Hst1. simpl in Hst1.
      pose proof (pick_above _ _ _ _ _ Hst1 Hxp). lia.
  - rewrite reverse_snoc, Hrev. simpl. rewrite Hrev in Hlast. done.
  - simpl. intros Hk.
    destruct Hcase as [(-> & _ & rv & Hrv & Hlt) | (-> & _)];
      [|unfold diag in Hk; lia].
    exists v, rv. done.
Qed.

Lemma backtrack_inv H max_n :
  history_ok a b H → 0 ≤ max_n →
  ∀ (cnt : nat) k trace trace',
    back_inv H cnt k trace →
    backtrack H max_n cnt k trace = Done trace' →
    ∃ k', back_inv H 0 k' trace' ∧
          length trace' = (length trace + cnt)%nat.
Proof.
  intros Hok Hmax cnt. induction cnt as [|d IH]; intros k trace trace' Hinv Hrun.
  - simpl in Hrun. injection Hrun as <-. exists k. split; [done|lia].
  - simpl in Hrun. apply bind_Done in Hrun as ([k' p] & Hstep & Hrun).
    destruct (IH _ _ _ (back_inv_step _ _ _ _ _ _ _ Hok Hmax Hinv Hstep) Hrun)
      as (k'' & Hinv' & Hlen).
    exists k''. split; [done|]. rewrite Hlen, length_app. simpl. lia.
Qed.

(** A reconstruction that does not fault, from the history of a search
    that reached [(n, m)], gives a well-formed trace with one anchor per
    level. *)
Lemma reconstruct_trace_ok H trace :
  history_ok a b H → terminal a b H →
  reconstruct_trace H n m = Done trace →
  trace_ok trace ∧ length trace = S (length H).
Proof.
  intros Hok (i & Hi & Hreach & Hk) Hrec. unfold reconstruct_trace in Hrec.
  apply bind_Done in Hrec as (tr & Hbt & Hrec). injection Hrec as <-.
  assert (back_inv H (length H) (n - m) [(n, m)]) as Hinit.
  { exists i, n, []. replace (n - (n - m)) with m by lia.
    split; [done|]. split; [lia|]. done. }
  assert (0 ≤ (if bool_decide (n > m) then n else m)) as Hmax
    by (case_bool_decide; lia).
  destruct (backtrack_inv H _ Hok Hmax _ _ _ _ Hinit Hbt)
    as (k' & (i0 & x & rest & Hrev & -> & Hi0 & Hr0 & Hpath & Hlast & _) & Hlen).
  assert (i0 = 0)%nat as -> by lia.
  destruct Hr0 as (x0 & Hst & Hsn & Hle & Hrun). simpl in Hst. injection Hst as <-.
  change (diag 0 0) with 0 in *. rewrite !Z.sub_0_r in *.
  split.
  - exists x, rest. rewrite Hrev in *. done.
  - rewrite length_reverse, Hlen. simpl. lia.
Qed.
End backward.

(** ** Applying an edit script *)

(** The [len] elements of [l] from position [start]. *)
Definition segment {T : Type} (l : list T) (start len : Z) : list T :=
  take (Z.to_nat len) (drop (Z.to_nat start) l).

(** How many elements of [a] an instruction removes, and how many
    elements of [b] it puts in. *)
Definition removed (es : EditInstruction) : Z :=
  match type es with
  | Delete | Change => orig_length es
  | Add | Nop => 0
  end.

Definition added (es : EditInstruction) : Z :=
  match type es with
  | Add | Change => new_length es
  | Delete | Nop => 0
  end.

(** Applying the instructions to [a] in order, reading [a] from [pos]:
    the elements of [a] before an instruction are kept, a Delete or Change
    drops its range of [a], an Add or Change puts in its range of [b]; a
    Nop does nothing. *)
Fixpoint apply_from {T : Type} (a b : list T) (pos : Z)
    (script : list EditInstruction) : list T :=
  match script with
  | [] => drop (Z.to_nat pos) a
  | es :: rest =>
      match type es with
      | Nop => apply_from a b pos rest
      | _ =>
          segment a pos (orig_start es - pos)
            ++ segment b (new_start es) (added es)
            ++ apply_from a b (orig_start es + removed es) rest
      end
  end.

Definition apply_script {T : Type} (a b : list T)
    (script : list EditInstruction) : list T :=
  apply_from a b 0 script.

(** The number of deleted plus inserted elements of a script. *)
Definition edit_count (script : list EditInstruction) : Z :=
  foldr (λ es acc, removed es + added es + acc) 0 script.

Lemma edit_count_app (s1 s2 : list EditInstruction) :
  edit_count (s1 ++ s2) = edit_count s1 + edit_count s2.
Proof.
  induction s1 as [|es s1 IH]; simpl; [done|].
  unfold edit_count in *. simpl. lia.
Qed.

Lemma edit_count_reverse (s : list EditInstruction) :
  edit_count (reverse s) = edit_count s.
Proof.
  induction s as [|es s IH]; [done|].
  rewrite reverse_cons, edit_count_app, IH. unfold edit_count. simpl. lia.
Qed.

Section segments.
Context {T : Type}.
Implicit Types l : list T.

Lemma segment_nil l start len : len ≤ 0 → segment l start len = [].
Proof. intros. unfold segment. by replace (Z.to_nat len) with 0%nat by lia. Qed.

Lemma segment_app l start len1 len2 :
  0 ≤ start → 0 ≤ len1 → 0 ≤ len2 →
  segment l start (len1 + len2)
  = segment l start len1 ++ segment l (start + len1) len2.
Proof.
  intros. unfold segment.
  rewrite Z2Nat.inj_add by lia.
  rewrite <- take_take_drop, drop_drop.
  by rewrite (Z2Nat.inj_add start len1) by lia.
Qed.

Lemma drop_segment l start :
  0 ≤ start → drop (Z.to_nat start) l = segment l start (Z.of_nat (length l) - start).
Proof.
  intros. unfold segment. rewrite take_ge; [done|]. rewrite length_drop. lia.
Qed.

Lemma segment_drop l start len :
  0 ≤ start → 0 ≤ len →
  drop (Z.to_nat start) l = segment l start len ++ drop (Z.to_nat (start + len)) l.
Proof.
  intros. unfold segment.
  rewrite Z2Nat.inj_add by lia. rewrite <- drop_drop. by rewrite take_drop.
Qed.
End segments.

Lemma segment_run_eq {A : Type} (a b : list A) x y len :
  run_eq a b x y len → segment a x len = segment b y len.
Proof.
  intros Hrun. destruct (decide (len ≤ 0)) as [|Hpos].
  { by rewrite !segment_nil. }
  unfold segment. apply list_eq. intros i.
  destruct (decide (i < Z.to_nat len)%nat) as [Hi|Hi].
  - rewrite !lookup_take_lt, !lookup_drop by done.
    destruct (Hrun (Z.of_nat i)) as (Hx & Hy & c & Ha & Hb); [lia|].
    destruct (Hrun 0) as (Hx0 & Hy0 & _); [lia|].
    replace (Z.to_nat x + i)%nat with (Z.to_nat (x + Z.of_nat i)) by lia.
    replace (Z.to_nat y + i)%nat with (Z.to_nat (y + Z.of_nat i)) by lia.
    congruence.
  - rewrite !lookup_take_ge by lia. done.
Qed.

(** ** The shape of the scripts *)

Definition is_nop (es : EditInstruction) : bool := bool_decide (type es = Nop).

Ltac solve_is_nop :=
  unfold is_nop in *; simpl in *; repeat case_bool_decide; congruence.

(** The side conditions of the chain lemmas on a concrete instruction. *)
Ltac chain_side kind_ok :=
  first
    [ done
    | simpl; lia
    | congruence
    | unfold kind_ok; simpl; lia
    | solve_is_nop
    | intuition congruence ].

Section scripts.
Context {A : Type} `{EqDecision A}.
Variables a b : list A.

Local Abbreviation n := (Z.of_nat (length a)).
Local Abbreviation m := (Z.of_nat (length b)).

(** What each kind of instruction looks like after the initial one. *)
Definition kind_ok (es : EditInstruction) : Prop :=
  match type es with
  | Delete => 0 < orig_length es ∧ new_length es = 0
  | Add => orig_length es = 0 ∧ 0 < new_length es
  | Change => 0 < orig_length es ∧ 0 < new_length es
  | Nop =>
      0 < orig_length es ∧ new_length es = orig_length es ∧
      run_eq a b (orig_start es) (new_start es) (orig_length es)
  end.

(** The instructions of [s] cover [x, xe) of [a] and [y, ye) of [b] one
    after the other, without gap or overlap. *)
Fixpoint chained (x y : Z) (s : list EditInstruction) (xe ye : Z) : Prop :=
  match s with
  | [] => x = xe ∧ y = ye
  | es :: s' =>
      orig_start es = x ∧ new_start es = y ∧ kind_ok es ∧
      chained (x + orig_length es) (y + new_length es) s' xe ye
  end.

(** Nop and non-Nop instructions take turns. *)
Fixpoint alternating (prev : EditInstruction) (s : list EditInstruction) : Prop :=
  match s with
  | [] => True
  | es :: s' => is_nop es ≠ is_nop prev ∧ alternating es s'
  end.

Lemma kind_ok_lengths es :
  kind_ok es → 0 ≤ orig_length es ∧ 0 ≤ new_length es ∧
  (type es ≠ Nop → removed es = orig_length es ∧ added es = new_length es).
Proof.
  unfold kind_ok, removed, added. destruct (type es); intros; intuition lia.
Qed.

Lemma chained_snoc s : ∀ x y es xe ye,
  chained x y s (orig_start es) (new_start es) → kind_ok es →
  xe = orig_start es + orig_length es → ye = new_start es + new_length es →
  chained x y (s ++ [es]) xe ye.
Proof.
  induction s as [|e s IH]; intros x y es xe ye Hc Hk -> ->; simpl in *.
  - destruct Hc as [-> ->]. done.
  - destruct Hc as (? & ? & ? & Hc). repeat (split; [done|]). by apply IH.
Qed.

Lemma alternating_snoc s : ∀ prev es,
  alternating prev s → is_nop es ≠ is_nop (default prev (last s)) →
  alternating prev (s ++ [es]).
Proof.
  induction s as [|e s IH]; intros prev es Ha Hn; simpl in *; [done|].
  destruct Ha as [? Ha]. split; [done|]. apply IH; [done|].
  rewrite last_cons in Hn. by destruct (last s).
Qed.

Lemma chained_le s : ∀ x y xe ye, chained x y s xe ye → x ≤ xe ∧ y ≤ ye.
Proof.
  induction s as [|e s IH]; intros x y xe ye Hc; simpl in Hc.
  - lia.
  - destruct Hc as (_ & _ & Hk & Hc). apply IH in Hc.
    apply kind_ok_lengths in Hk. lia.
Qed.

(** A chained script rebuilds [b]: with the elements of [a] from [pos] to
    [x] still to be copied, and equal to the elements of [b] before [y],
    applying [s] gives the rest of [b]. *)
Lemma apply_from_chained s : ∀ x y pos,
  chained x y s n m → 0 ≤ pos ≤ x → 0 ≤ y - (x - pos) →
  segment a pos (x - pos) = segment b (y - (x - pos)) (x - pos) →
  apply_from a b pos s = drop (Z.to_nat (y - (x - pos))) b.
Proof.
  induction s as [|es s IH]; intros x y pos Hc Hpos Hy Hpend.
  - simpl in *. destruct Hc as [-> ->].
    rewrite (drop_segment a pos) by lia.
    rewrite (drop_segment b) by lia.
    rewrite Hpend. f_equal. lia.
  - simpl in Hc. destruct Hc as (Hos & Hns & Hk & Hc).
    pose proof (chained_le _ _ _ _ _ Hc) as Hle.
    pose proof (kind_ok_lengths _ Hk) as (Hol & Hnl & Hra).
    assert (type es ≠ Nop →
      apply_from a b pos (es :: s) = drop (Z.to_nat (y - (x - pos))) b) as Hedit.
    { intros Hne. destruct (Hra Hne) as [Hr Ha].
      transitivity (segment a pos (orig_start es - pos)
                      ++ segment b (new_start es) (added es)
                      ++ apply_from a b (orig_start es + removed es) s).
      { simpl. destruct (type es); done. }
      rewrite Hos, Hns, Hr, Ha.
      rewrite (IH (x + orig_length es) (y + new_length es)); [|done|lia|lia|].
      2:{ rewrite !segment_nil by lia. done. }
      replace (y + new_length es - (x + orig_length es - (x + orig_length es)))
        with (y + new_length es) by lia.
      rewrite Hpend.
      rewrite (segment_drop b (y - (x - pos)) (x - pos)) by lia.
      replace (y - (x - pos) + (x - pos)) with y by lia.
      rewrite (segment_drop b y (new_length es)) by lia. done. }
    destruct (type es) eqn:Ht; try (apply Hedit; congruence).
    simpl. rewrite Ht.
    unfold kind_ok in Hk. rewrite Ht in Hk. destruct Hk as (Hlen & Hnew & Hrun).
    rewrite (IH (x + orig_length es) (y + new_length es)); [f_equal; lia|done|lia|lia|].
    replace (x + orig_length es - pos) with ((x - pos) + orig_length es) by lia.
    rewrite !segment_app by lia.
    rewrite Hpend.
    replace (y + new_length es - (x - pos + orig_length es)) with (y - (x - pos))
      by lia.
    f_equal.
    replace (pos + (x - pos)) with x by lia.
    replace (y - (x - pos) + (x - pos)) with y by lia.
    rewrite <- Hos, <- Hns. by apply segment_run_eq.
Qed.
End scripts.

(** ** Building the script *)

Section build.
Context {A : Type} `{EqDecision A}.
Variables a b : list A.

Local Abbreviation n := (Z.of_nat (length a)).
Local Abbreviation m := (Z.of_nat (length b)).

(** The deque during [build_edit_script], read from its back: the initial
    Nop at the bottom, then instructions chained from [(x0, x0)] up to
    [(xe, ye)], Nop and non-Nop taking turns. *)
Fixpoint rchain (x0 y0 : Z) (dq : list EditInstruction) (xe ye : Z) : Prop :=
  match dq with
  | [] => False
  | es :: dq' =>
      match dq' with
      | [] => es = mkEdit Nop 0 0 0 0 ∧ xe = x0 ∧ ye = y0
      | prev :: _ =>
          kind_ok a b es ∧
          orig_start es + orig_length es = xe ∧
          new_start es + new_length es = ye ∧
          is_nop es ≠ is_nop prev ∧
          rchain x0 y0 dq' (orig_start es) (new_start es)
      end
  end.

Lemma rchain_push x0 y0 last dq' x y es xe ye :
  rchain x0 y0 (last :: dq') x y → kind_ok a b es →
  orig_start es = x → new_start es = y → is_nop es ≠ is_nop last →
  xe = x + orig_length es → ye = y + new_length es →
  rchain x0 y0 (es :: last :: dq') xe ye.
Proof.
  intros Hc Hk <- <- Hn -> ->. cbn [rchain]. repeat (split; [done|]). done.
Qed.

Lemma rchain_back x0 y0 last dq' x y :
  rchain x0 y0 (last :: dq') x y → type last ≠ Nop →
  kind_ok a b last ∧ orig_start last + orig_length last = x ∧
  new_start last + new_length last = y.
Proof.
  intros Hc Hne. cbn [rchain] in Hc. destruct dq' as [|prev dq''].
  - destruct Hc as (-> & _). done.
  - destruct Hc as (? & ? & ? & _). done.
Qed.

Lemma rchain_replace x0 y0 last dq' x y es xe ye :
  rchain x0 y0 (last :: dq') x y → type last ≠ Nop → type es ≠ Nop →
  kind_ok a b es →
  orig_start es = orig_start last → new_start es = new_start last →
  xe = orig_start es + orig_length es → ye = new_start es + new_length es →
  rchain x0 y0 (es :: dq') xe ye.
Proof.
  intros Hc Hne Hne' Hk Hos Hns -> ->. cbn [rchain] in *.
  destruct dq' as [|prev dq''].
  - destruct Hc as (-> & _). done.
  - destruct Hc as (_ & _ & _ & Hn & Hc).
    repeat (split; [done|]). rewrite Hos, Hns. split; [|done].
    unfold is_nop in *. rewrite bool_decide_false by done.
    rewrite bool_decide_false in Hn by done. done.
Qed.

(** The Nop pushed after an edit when the next anchor lies further on. *)
Lemma rchain_snake x0 y0 last dq' x y xn yn :
  rchain x0 y0 (last :: dq') x y → type last ≠ Nop →
  x < xn → xn - x = yn - y → run_eq a b x y (xn - x) →
  rchain x0 y0 (mkEdit Nop x (xn - x) y (yn - y) :: last :: dq') xn yn.
Proof.
  intros Hc Hne Hlt Heq Hrun.
  apply (rchain_push x0 y0 last dq' x y); try done; try (simpl; lia).
  - unfold kind_ok. simpl. split; [lia|]. split; [lia|done].
  - solve_is_nop.
Qed.

(** One turn of the loop of [build_edit_script] along an edge of the
    trace. *)
Lemma build_step_ok x0 y0 last dq' x y q :
  rchain x0 y0 (last :: dq') x y → edge a b (x, y) q →
  (type last = Add ∨ type last = Change → q.1 - q.2 ≠ x - y + 1) →
  ∃ l1 d1,
    build_step (last :: dq', x, y, x - y) q = Done (l1 :: d1, q.1, q.2, q.1 - q.2) ∧
    rchain x0 y0 (l1 :: d1) q.1 q.2 ∧
    (type l1 = Add ∨ type l1 = Change → q = (x, y + 1)).
Proof.
  intros Hc Hedge Hnd. destruct q as [xn yn]. simpl in Hnd. simpl.
  assert (bool_decide (x = xn) && bool_decide (y = yn) = false) as ->.
  { apply andb_false_iff.
    destruct Hedge as [(Hk & _) | (Hk & _)]; simpl in Hk;
      destruct (decide (x = xn)) as [->|];
      [right|left|right|left]; apply bool_decide_eq_false; lia. }
  destruct Hedge as [(Hk & Hle & Hrun) | (Hk & Hle & Hrun)]; simpl in Hk, Hle, Hrun.
  - (* an element of [a] is deleted *)
    rewrite (bool_decide_true (x - y < xn - yn)) by lia.
    assert (∃ l1 d1,
      (if decide (type last = Delete)
       then mkEdit Delete (orig_start last) (orig_length last + 1) y 0 :: dq'
       else mkEdit Delete x 1 y 0 :: last :: dq') = l1 :: d1 ∧
      type l1 = Delete ∧ rchain x0 y0 (l1 :: d1) (x + 1) y) as (l1 & d1 & -> & Hl1 & Hc1).
    { destruct (decide (type last = Delete)) as [Hd|Hd].
      - eexists _, _. split; [done|]. split; [done|].
        destruct (rchain_back _ _ _ _ _ _ Hc ltac:(congruence)) as (Hkl & Hx & Hy).
        unfold kind_ok in Hkl. rewrite Hd in Hkl. destruct Hkl as [Hol Hnl].
        apply (rchain_replace x0 y0 last dq' x y); chain_side @kind_ok.
      - eexists _, _. split; [done|]. split; [done|].
        assert (type last = Nop) as Hnop by (destruct (type last); tauto).
        apply (rchain_push x0 y0 last dq' x y); chain_side @kind_ok. }
    case_bool_decide as Hx.
    + rewrite (bool_decide_true (xn - (x + 1) = yn - y)) by lia.
      cbn [assert mbind result_bind].
      eexists _, _. split; [done|]. split.
      * apply rchain_snake; try done; try lia. congruence.
      * simpl. intros [?|?]; discriminate.
    + assert (xn = x + 1) as -> by lia. assert (yn = y) as -> by lia.
      eexists _, _. split; [done|]. split; [done|].
      rewrite Hl1. intros [?|?]; discriminate.
  - (* an element of [b] is inserted *)
    rewrite (bool_decide_false (x - y < xn - yn)) by lia.
    assert (∃ l1 d1,
      (if decide (type last = Add)
       then mkEdit Add x 0 (new_start last) (new_length last + 1) :: dq'
       else if decide (type last = Delete ∨ type last = Change)
       then mkEdit Change (orig_start last) (orig_length last)
              (new_start last) (new_length last + 1) :: dq'
       else mkEdit Add x 0 y 1 :: last :: dq') = l1 :: d1 ∧
      type l1 ≠ Nop ∧ rchain x0 y0 (l1 :: d1) x (y + 1)) as (l1 & d1 & -> & Hl1 & Hc1).
    { destruct (decide (type last = Add)) as [Hd|Hd];
        [|destruct (decide (type last = Delete ∨ type last = Change)) as [Hd'|Hd']].
      - eexists _, _. split; [done|]. split; [done|].
        destruct (rchain_back _ _ _ _ _ _ Hc ltac:(congruence)) as (Hkl & Hx & Hy).
        unfold kind_ok in Hkl. rewrite Hd in Hkl. destruct Hkl as [Hol Hnl].
        apply (rchain_replace x0 y0 last dq' x y); chain_side @kind_ok.
      - eexists _, _. split; [done|]. split; [done|].
        destruct (rchain_back _ _ _ _ _ _ Hc ltac:(destruct Hd'; congruence))
          as (Hkl & Hx & Hy).
        assert (0 < orig_length last ∧ 0 ≤ new_length last) as [Hol Hnl].
        { unfold kind_ok in Hkl. destruct Hd' as [Ht|Ht]; rewrite Ht in Hkl; lia. }
        apply (rchain_replace x0 y0 last dq' x y); chain_side @kind_ok.
      - eexists _, _. split; [done|]. split; [done|].
        assert (type last = Nop) as Hnop by (destruct (type last); tauto).
        apply (rchain_push x0 y0 last dq' x y); chain_side @kind_ok. }
    case_bool_decide as Hx.
    + rewrite (bool_decide_true (xn - x = yn - (y + 1))) by lia.
      cbn [assert mbind result_bind].
      eexists _, _. split; [done|]. split.
      * apply rchain_snake; try done; try lia.
      * simpl. intros [?|?]; discriminate.
    + assert (xn = x) as -> by lia. assert (yn = y + 1) as -> by lia.
      eexists _, _. split; [done|]. split; [done|]. done.
Qed.

Lemma edge_neq (p q : point) : edge a b p q → q ≠ p.
Proof.
  intros [(Hk & _) | (Hk & _)] ->; lia.
Qed.

(** Each turn along an edge adds one deleted or inserted element. *)
Lemma build_step_count x0 y0 last dq' x y k q dq1 x1 y1 k1 :
  rchain x0 y0 (last :: dq') x y → q ≠ (x, y) →
  build_step (last :: dq', x, y, k) q = Done (dq1, x1, y1, k1) →
  edit_count dq1 = edit_count (last :: dq') + 1.
Proof.
  intros Hc Hq Hstep. destruct q as [xn yn]. unfold build_step in Hstep.
  assert (bool_decide (x = xn) && bool_decide (y = yn) = false) as Hskip.
  { apply andb_false_iff. destruct (decide (x = xn)) as [->|];
      [right|left]; apply bool_decide_eq_false; congruence. }
  rewrite Hskip in Hstep.
  assert (type last = Delete → new_length last = 0) as Hdel.
  { intros Hd. destruct (rchain_back _ _ _ _ _ _ Hc ltac:(congruence)) as (Hkl & _).
    unfold kind_ok in Hkl. rewrite Hd in Hkl. lia. }
  assert (∀ es (r : result (list EditInstruction * Z * Z * Z)) xm ym,
    edit_count es = edit_count (last :: dq') + 1 →
    (if bool_decide (xm ≠ xn)
     then _ ← assert (bool_decide (xn - xm = yn - ym));
          Done (mkEdit Nop xm (xn - xm) ym (yn - ym) :: es, xn, yn, xn - yn)
     else Done (es, xn, yn, xn - yn)) = Done (dq1, x1, y1, k1) →
    edit_count dq1 = edit_count (last :: dq') + 1) as Hnop.
  { intros es r xm ym Hes Hr. case_bool_decide.
    - apply bind_Done in Hr as (? & _ & Hr). injection Hr as <- _ _ _.
      rewrite <- Hes. unfold edit_count. simpl. unfold removed, added. simpl. lia.
    - by injection Hr as <- _ _ _. }
  unfold edit_count in *. simpl in *. unfold removed, added in *.
  case_bool_decide; repeat case_decide; simpl in Hstep;
    (eapply Hnop; [exact (Fault OutOfBounds)| |exact Hstep]); simpl;
    destruct (type last); try lia; try congruence;
    try (rewrite Hdel by done; lia); intuition congruence.
Qed.

Lemma build_loop_ok x0 y0 : ∀ rest back dq' x y,
  rchain x0 y0 (back :: dq') x y → path a b (x, y) rest →
  match rest with
  | r :: _ => type back = Add ∨ type back = Change → r.1 - r.2 ≠ x - y + 1
  | [] => True
  end →
  ∃ dq1 xe ye,
    build_loop (back :: dq', x, y, x - y) rest = Done (dq1, xe, ye, xe - ye) ∧
    last ((x, y) :: rest) = Some (xe, ye) ∧ rchain x0 y0 dq1 xe ye ∧
    edit_count dq1 = edit_count (back :: dq') + Z.of_nat (length rest).
Proof.
  induction rest as [|q rest IH]; intros back dq' x y Hc Hpath Hcond.
  - exists (back :: dq'), x, y. simpl. repeat (split; [done|]). lia.
  - destruct Hpath as (Hedge & Hnitd & Hpath).
    destruct (build_step_ok x0 y0 back dq' x y q Hc Hedge Hcond)
      as (l1 & d1 & Hstep & Hc1 & Hins).
    pose proof (build_step_count _ _ _ _ _ _ _ _ _ _ _ _ Hc
                  (edge_neq _ _ Hedge) Hstep) as Hcount.
    cbn [build_loop]. rewrite Hstep. cbn [mbind result_bind].
    destruct q as [xn yn]. cbn [fst snd] in Hstep, Hc1, Hins |- *.
    destruct (IH l1 d1 xn yn Hc1 Hpath)
      as (dq1 & xe & ye & Hrun & Hlast & Hc2 & Hcount2).
    + destruct rest as [|r rest']; [done|]. intros Ht Hr.
      apply Hnitd. split; [by apply Hins|]. simpl. lia.
    + exists dq1, xe, ye. repeat (split; [done|]).
      rewrite Hcount2, Hcount. cbn [length]. lia.
Qed.

(** From a well-formed trace the script is built without fault. *)
Lemma build_edit_script_ok trace :
  trace_ok a b trace →
  ∃ x0 dq, build_edit_script trace = Done (reverse dq) ∧
           snake a b 0 0 = Done x0 ∧
           0 ≤ x0 ∧ run_eq a b 0 0 x0 ∧ rchain x0 x0 dq n m ∧
           edit_count dq + 1 = Z.of_nat (length trace).
Proof.
  intros (x0 & rest & -> & Hsn & Hx0 & Hrun & Hpath & Hlast).
  destruct (build_loop_ok x0 x0 rest (mkEdit Nop 0 0 0 0) [] x0 x0)
    as (dq1 & xe & ye & Hloop & Hlast' & Hc & Hcount);
    [done|done|destruct rest; [done|]; simpl; intros [?|?]; discriminate|].
  exists x0, dq1. unfold build_edit_script. simpl.
  rewrite !bool_decide_true by done. simpl.
  rewrite Hloop. simpl.
  rewrite Hlast in Hlast'. injection Hlast' as <- <-.
  repeat (split; [done|]). rewrite Hcount. unfold edit_count. simpl.
  unfold removed, added. simpl. lia.
Qed.

(** The deque read from its front. *)
Lemma rchain_forward x0 y0 : ∀ dq xe ye,
  rchain x0 y0 dq xe ye →
  ∃ s', reverse dq = mkEdit Nop 0 0 0 0 :: s' ∧
        chained a b x0 y0 s' xe ye ∧
        alternating (mkEdit Nop 0 0 0 0) s' ∧
        head dq = Some (default (mkEdit Nop 0 0 0 0) (last s')).
Proof.
  induction dq as [|es dq IH]; intros xe ye Hc; [done|].
  cbn [rchain] in Hc. destruct dq as [|prev dq''].
  - destruct Hc as (-> & -> & ->). exists []. done.
  - destruct Hc as (Hk & <- & <- & Hn & Hc).
    destruct (IH _ _ Hc) as (s'' & Hrev & Hch & Halt & Hhead).
    exists (s'' ++ [es]). rewrite reverse_cons, Hrev.
    split; [done|]. split; [by apply chained_snoc|]. split.
    + apply alternating_snoc; [done|]. simpl in Hhead. by injection Hhead as <-.
    + by rewrite last_snoc.
Qed.
End build.

(** ** The solver as a whole *)

Section solver_facts.
Context {A : Type} `{EqDecision A}.
Variables a b : list A.

Local Abbreviation n := (Z.of_nat (length a)).
Local Abbreviation m := (Z.of_nat (length b)).

(** The search reached [(n, m)] before its [max_diff] levels were used up. *)
Definition converged : Prop :=
  ∃ H, find_shortest_path a b = Done H ∧ Z.of_nat (length H) < max_diff.

(** The script of a converged search whose reconstruction did not fault:
    the initial Nop, then instructions chained from the end [x0] of the
    common prefix to [(n, m)]. *)
Lemma script_shape s :
  converged → shortest_edit_script a b = Done s →
  ∃ x0 s', s = mkEdit Nop 0 0 0 0 :: s' ∧
           snake a b 0 0 = Done x0 ∧ 0 ≤ x0 ∧ run_eq a b 0 0 x0 ∧
           chained a b x0 x0 s' n m ∧
           alternating (mkEdit Nop 0 0 0 0) s' ∧
           ∃ H, find_shortest_path a b = Done H ∧
                edit_count s = Z.of_nat (length H).
Proof.
  intros (H & Hfind & Hlen) Hses.
  destruct (find_shortest_path_total a b) as (H' & Hfind' & Hok & Hend).
  assert (H' = H) as -> by congruence.
  destruct Hend as [[Hterm _] | Hfull]; [|lia].
  unfold shortest_edit_script in Hses. rewrite Hfind in Hses.
  cbn [mbind result_bind] in Hses.
  apply bind_Done in Hses as (trace & Hrec & Hbuild).
  destruct (reconstruct_trace_ok a b H trace Hok Hterm Hrec) as [Htr Htrlen].
  destruct (build_edit_script_ok a b trace Htr)
    as (x0 & dq & Hbuild' & Hsn & Hx0 & Hrun & Hc & Hcount).
  assert (s = reverse dq) as -> by congruence.
  destruct (rchain_forward a b x0 x0 dq _ _ Hc) as (s' & Hrev & Hch & Halt & _).
  exists x0, s'. repeat (split; [done|]).
  exists H. split; [done|]. rewrite edit_count_reverse. lia.
Qed.
End solver_facts.

(** ** The edit distance

    The level at which the search stops is the least number of deletions
    and insertions that turn [a] into [b]. *)

(** [edits a b d]: [a] and [b] can be aligned with [d] elements deleted or
    inserted. *)
Inductive edits {A : Type} : list A → list A → nat → Prop :=
  | edits_nil : edits [] [] 0
  | edits_keep c a b d : edits a b d → edits (c :: a) (c :: b) d
  | edits_delete c a b d : edits a b d → edits (c :: a) b (S d)
  | edits_insert c a b d : edits a b d → edits a (c :: b) (S d).

Section distance.
Context {A : Type} `{EqDecision A}.
Variables a b : list A.

Local Abbreviation n := (Z.of_nat (length a)).
Local Abbreviation m := (Z.of_nat (length b)).

(** Points of the edit graph reached from the origin with [d] edits:
    inside the grid, and in the quarter plane, where the search may step
    past the last row or column. *)
Inductive reaches_in : nat → Z → Z → Prop :=
  | in_origin : reaches_in 0 0 0
  | in_diagonal d x y c :
      reaches_in d x y → 0 ≤ x → 0 ≤ y →
      a !! Z.to_nat x = Some c → b !! Z.to_nat y = Some c →
      reaches_in d (x + 1) (y + 1)
  | in_delete d x y : reaches_in d x y → x < n → reaches_in (S d) (x + 1) y
  | in_insert d x y : reaches_in d x y → y < m → reaches_in (S d) x (y + 1).

Inductive reaches : nat → Z → Z → Prop :=
  | out_origin : reaches 0 0 0
  | out_diagonal d x y c :
      reaches d x y → 0 ≤ x → 0 ≤ y →
      a !! Z.to_nat x = Some c → b !! Z.to_nat y = Some c →
      reaches d (x + 1) (y + 1)
  | out_delete d x y : reaches d x y → reaches (S d) (x + 1) y
  | out_insert d x y : reaches d x y → reaches (S d) x (y + 1).

(** The snake stops only where the next elements differ or a sequence
    ends. *)
Lemma snake_loop_stop steps : ∀ x y x',
  steps = Z.to_nat (n - x) →
  snake_loop a b steps x y = Done x' →
  ¬ ∃ c, vec_get a x' = Done c ∧ vec_get b (y + (x' - x)) = Done c.
Proof.
  induction steps as [|steps IH]; intros x y x' Hsteps Hrun; simpl in Hrun.
  - injection Hrun as <-. intros (c & Ha & _).
    apply vec_get_Done in Ha as [? Ha]. apply lookup_lt_Some in Ha. lia.
  - destruct (x <? n) eqn:Hxn; simpl in Hrun;
      [destruct (y <? m) eqn:Hym; simpl in Hrun|].
    + apply bind_Done in Hrun as (ax & Hax & Hrun).
      apply bind_Done in Hrun as (by_ & Hby & Hrun).
      destruct (decide (ax = by_)) as [->|Hne].
      * replace (y + (x' - x)) with (y + 1 + (x' - (x + 1))) by lia.
        apply (IH (x + 1) (y + 1) x'); [lia|done].
      * injection Hrun as <-. rewrite Z.sub_diag, Z.add_0_r.
        intros (c & Ha & Hb). congruence.
    + injection Hrun as <-. rewrite Z.sub_diag, Z.add_0_r.
      intros (c & _ & Hb). apply Z.ltb_ge in Hym.
      apply vec_get_Done in Hb as [? Hb]. apply lookup_lt_Some in Hb. lia.
    + injection Hrun as <-. intros (c & Ha & _). apply Z.ltb_ge in Hxn.
      apply vec_get_Done in Ha as [? Ha]. apply lookup_lt_Some in Ha. lia.
Qed.

Lemma reaches_run (d : nat) (len : nat) : ∀ x y,
  reaches d x y → run_eq a b x y (Z.of_nat len) →
  reaches d (x + Z.of_nat len) (y + Z.of_nat len).
Proof.
  induction len as [|len IH]; intros x y Hr Hrun.
  - by rewrite !Z.add_0_r.
  - destruct (Hrun 0) as (Hx & Hy & c & Ha & Hb); [lia|].
    rewrite Z.add_0_r in *.
    replace (x + Z.of_nat (S len)) with (x + 1 + Z.of_nat len) by lia.
    replace (y + Z.of_nat (S len)) with (y + 1 + Z.of_nat len) by lia.
    apply IH; [by eapply out_diagonal|].
    intros i Hi. destruct (Hrun (i + 1)) as (? & ? & c' & ? & ?); [lia|].
    replace (x + 1 + i) with (x + (i + 1)) by lia.
    replace (y + 1 + i) with (y + (i + 1)) by lia. eauto.
Qed.

Lemma pick_below prev (d' i : nat) x0 r :
  (i ≤ d')%nat → pick prev (S d') i = Some x0 → prev !! i = Some r → r ≤ x0.
Proof.
  unfold pick. intros Hi Hp Hr.
  destruct (decide (i = 0)%nat) as [Hi0|Hi0].
  - subst i. assert (x0 = r) by congruence. lia.
  - rewrite decide_True in Hp by lia.
    destruct (prev !! (i - 1)%nat) as [l|]; simpl in Hp; [|done].
    rewrite Hr in Hp. simpl in Hp. injection Hp as <-. case_bool_decide; lia.
Qed.

(** Every point the history records is reached with as many edits as its
    level. *)
Lemma reach_reaches H :
  history_ok a b H → ∀ (d i : nat) x,
    (i ≤ d)%nat → reach a b H d i x → reaches d x (x - diag d i).
Proof.
  intros Hok d. induction d as [|d' IH]; intros i x Hi (x0 & Hst & Hsn & Hle & Hrun).
  - assert (i = 0)%nat as -> by lia. simpl in Hst. injection Hst as <-.
    change (diag 0 0) with 0 in *. rewrite !Z.sub_0_r in *.
    replace x with (0 + Z.of_nat (Z.to_nat x)) by lia.
    apply reaches_run; [constructor|].
    by replace (Z.of_nat (Z.to_nat x)) with x by lia.
  - simpl in Hst. destruct (H !! d') as [prev|] eqn:Hprev; [|done]. simpl in Hst.
    destruct (Hok _ _ Hprev) as (Hlen & _ & Hre & _).
    assert (reaches (S d') x0 (x0 - diag (S d') i)) as Hstart.
    { unfold pick in Hst.
      assert (∀ l, prev !! (i - 1)%nat = Some l → i ≠ 0%nat →
                   reaches (S d') (l + 1) (l + 1 - diag (S d') i)) as Hdel.
      { intros l Hl Hi0.
        replace (l + 1 - diag (S d') i) with (l - diag d' (i - 1))
          by (unfold diag; lia).
        apply out_delete, IH; [|by apply Hre].
        apply lookup_lt_Some in Hl. lia. }
      assert (∀ r, prev !! i = Some r →
                   reaches (S d') r (r - diag (S d') i)) as Hins.
      { intros r Hr.
        replace (r - diag (S d') i) with (r - diag d' i + 1)
          by (unfold diag; lia).
        apply out_insert, IH; [|by apply Hre].
        apply lookup_lt_Some in Hr. lia. }
      destruct (decide (i = 0)%nat) as [->|Hi0]; [by apply Hins|].
      destruct (prev !! (i - 1)%nat) as [l|] eqn:Hl; simpl in Hst;
        [|by destruct (decide (i ≠ S d'))].
      destruct (decide (i ≠ S d')).
      - destruct (prev !! i) as [r|] eqn:Hr; simpl in Hst; [|done].
        injection Hst as <-. case_bool_decide; [by apply Hins|by apply Hdel].
      - simpl in Hst. injection Hst as <-. by apply Hdel. }
    replace x with (x0 + Z.of_nat (Z.to_nat (x - x0))) at 1 by lia.
    replace (x - diag (S d') i)
      with (x0 - diag (S d') i + Z.of_nat (Z.to_nat (x - x0))) by lia.
    apply reaches_run; [done|].
    by replace (Z.of_nat (Z.to_nat (x - x0))) with (x - x0) by lia.
Qed.

(** The recorded entry of a diagonal is at least as far as any point of
    that diagonal reached inside the grid with as many edits. *)
Lemma furthest_reaching H :
  history_ok a b H → ∀ (d : nat) x y,
    reaches_in d x y → (d < length H)%nat →
    ∃ (i : nat) v vx, (i ≤ d)%nat ∧ diag d i = x - y ∧
                      H !! d = Some v ∧ v !! i = Some vx ∧ x ≤ vx.
Proof.
  intros Hok d x y Hr.
  induction Hr as [|d x y c Hr IH Hx Hy Ha Hb|d x y Hr IH Hxn|d x y Hr IH Hym];
    intros Hd.
  - destruct (lookup_lt_is_Some_2 H 0%nat) as [v Hv]; [lia|].
    destruct (Hok _ _ Hv) as (Hlen & Hax & _).
    destruct (lookup_lt_is_Some_2 v 0%nat) as [vx Hvx]; [lia|].
    destruct (Hax _ _ Hvx). exists 0%nat, v, vx. by repeat split.
  - destruct (IH Hd) as (i & v & vx & Hi & Hk & Hv & Hvx & Hle).
    exists i, v, vx. repeat split; try done; [lia|].
    destruct (decide (x = vx)) as [->|]; [exfalso|lia].
    destruct (Hok _ _ Hv) as (_ & _ & Hre & _).
    destruct (Hre _ _ Hvx) as (x0 & _ & Hsn & Hle0 & _).
    apply (snake_loop_stop _ _ _ _ eq_refl Hsn). exists c.
    replace (x0 - diag d i + (vx - x0)) with y by lia.
    split; apply vec_get_Done; done.
  - destruct (IH ltac:(lia)) as (i & v & vx & Hi & Hk & Hv & Hvx & Hle).
    destruct (lookup_lt_is_Some_2 H (S d)) as [v1 Hv1]; [lia|].
    destruct (Hok _ _ Hv1) as (Hlen1 & _ & Hre1 & _).
    destruct (lookup_lt_is_Some_2 v1 (S i)) as [w Hw]; [lia|].
    destruct (Hre1 _ _ Hw) as (x0 & Hst & _ & Hle0 & _).
    simpl in Hst. rewrite Hv in Hst. simpl in Hst.
    pose proof (pick_above _ _ _ _ _ Hst Hvx).
    exists (S i), v1, w. repeat split; try done; [lia|unfold diag in *; lia|lia].
  - destruct (IH ltac:(lia)) as (i & v & vx & Hi & Hk & Hv & Hvx & Hle).
    destruct (lookup_lt_is_Some_2 H (S d)) as [v1 Hv1]; [lia|].
    destruct (Hok _ _ Hv1) as (Hlen1 & _ & Hre1 & _).
    destruct (lookup_lt_is_Some_2 v1 i) as [w Hw]; [lia|].
    destruct (Hre1 _ _ Hw) as (x0 & Hst & _ & Hle0 & _).
    simpl in Hst. rewrite Hv in Hst. simpl in Hst.
    pose proof (pick_below _ _ _ _ _ Hi Hst Hvx).
    exists i, v1, w. repeat split; try done; [lia|unfold diag in *; lia|lia].
Qed.

(** Steps past the last row or column are edits a path inside the grid
    does without. *)
Lemma reaches_clamp (d : nat) x y :
  reaches d x y →
  ∃ d' : nat, reaches_in d' (Z.min x n) (Z.min y m) ∧
              Z.of_nat d' + Z.max (x - n) 0 + Z.max (y - m) 0 ≤ Z.of_nat d.
Proof.
  intros Hr.
  induction Hr as [|d x y c Hr IH Hx Hy Ha Hb|d x y Hr IH|d x y Hr IH].
  - exists 0%nat. rewrite !Z.min_l by lia. split; [constructor|lia].
  - destruct IH as (d' & Hin & Hle).
    pose proof (lookup_lt_Some _ _ _ Ha). pose proof (lookup_lt_Some _ _ _ Hb).
    rewrite !Z.min_l in * by lia.
    exists d'. split; [by eapply in_diagonal|lia].
  - destruct IH as (d' & Hin & Hle).
    destruct (decide (x < n)).
    + rewrite (Z.min_l x) in Hin by lia. rewrite (Z.min_l (x + 1)) by lia.
      exists (S d'). split; [by apply in_delete|lia].
    + rewrite (Z.min_r x) in Hin by lia. rewrite (Z.min_r (x + 1)) by lia.
      exists d'. split; [done|lia].
  - destruct IH as (d' & Hin & Hle).
    destruct (decide (y < m)).
    + rewrite (Z.min_l y) in Hin by lia. rewrite (Z.min_l (y + 1)) by lia.
      exists (S d'). split; [by apply in_insert|lia].
    + rewrite (Z.min_r y) in Hin by lia. rewrite (Z.min_r (y + 1)) by lia.
      exists d'. split; [done|lia].
Qed.

(** No path inside the grid reaches [(n, m)] with fewer edits than the
    search recorded levels. *)
Lemma search_minimal H :
  history_ok a b H → ∀ d : nat, reaches_in d n m → (length H ≤ d)%nat.
Proof.
  intros Hok d. induction d as [d IH] using lt_wf_ind. intros Hr.
  destruct (decide (length H ≤ d)%nat) as [|Hlt]; [done|exfalso].
  destruct (furthest_reaching H Hok d _ _ Hr ltac:(lia))
    as (i & v & vx & Hi & Hk & Hv & Hvx & Hle).
  destruct (Hok _ _ Hv) as (_ & _ & Hre & Hne).
  assert (n < vx) as Hfar.
  { destruct (decide (vx = n)) as [->|]; [|lia].
    exfalso. apply (Hne _ _ Hvx). split; [done|lia]. }
  destruct (reaches_clamp _ _ _ (reach_reaches H Hok _ _ _ Hi (Hre _ _ Hvx)))
    as (d' & Hin & Hd').
  rewrite Z.min_r in Hin by lia. rewrite Z.min_r in Hin by lia.
  pose proof (IH d' ltac:(lia) Hin). lia.
Qed.

(** A search that reached [(n, m)] did so along a path inside the grid. *)
Lemma search_reaches H :
  history_ok a b H → terminal a b H → reaches_in (length H) n m.
Proof.
  intros Hok (i & Hi & Hreach & Hk).
  destruct (reaches_clamp _ _ _ (reach_reaches H Hok _ _ _ Hi Hreach))
    as (d' & Hin & Hd').
  rewrite Z.min_l in Hin by lia. rewrite Z.min_r in Hin by lia.
  pose proof (search_minimal H Hok d' Hin).
  by replace (length H) with d' by lia.
Qed.

(** Alignments of the two sequences are paths from the origin to
    [(n, m)]. *)
Lemma edits_reaches_in la lb (d : nat) :
  edits la lb d → ∀ (x y d0 : nat),
    la = drop x a → lb = drop y b → (x ≤ length a)%nat → (y ≤ length b)%nat →
    reaches_in d0 (Z.of_nat x) (Z.of_nat y) → reaches_in (d0 + d) n m.
Proof.
  intros He.
  induction He as [|c la lb d He IH|c la lb d He IH|c la lb d He IH];
    intros x y d0 Ha Hb Hx Hy Hr.
  - apply (f_equal length) in Ha, Hb. rewrite length_drop in Ha, Hb. simpl in *.
    rewrite Nat.add_0_r.
    by replace (length a) with x by lia; replace (length b) with y by lia.
  - assert (a !! x = Some c) as Hax
      by (rewrite <- (Nat.add_0_r x), <- lookup_drop, <- Ha; done).
    assert (b !! y = Some c) as Hby
      by (rewrite <- (Nat.add_0_r y), <- lookup_drop, <- Hb; done).
    rewrite (drop_S _ _ _ Hax) in Ha. rewrite (drop_S _ _ _ Hby) in Hb.
    injection Ha as ->. injection Hb as ->.
    apply lookup_lt_Some in Hax as Hxl. apply lookup_lt_Some in Hby as Hyl.
    apply (IH (S x) (S y)); try done; try lia.
    rewrite !Nat2Z.inj_succ, <- !Z.add_1_r.
    eapply in_diagonal; try done; try lia; by rewrite Nat2Z.id.
  - assert (a !! x = Some c) as Hax
      by (rewrite <- (Nat.add_0_r x), <- lookup_drop, <- Ha; done).
    rewrite (drop_S _ _ _ Hax) in Ha. injection Ha as ->.
    apply lookup_lt_Some in Hax as Hxl.
    replace (d0 + S d)%nat with (S d0 + d)%nat by lia.
    apply (IH (S x) y); try done; try lia.
    rewrite Nat2Z.inj_succ, <- Z.add_1_r. apply in_delete; [done|lia].
  - assert (b !! y = Some c) as Hby
      by (rewrite <- (Nat.add_0_r y), <- lookup_drop, <- Hb; done).
    rewrite (drop_S _ _ _ Hby) in Hb. injection Hb as ->.
    apply lookup_lt_Some in Hby as Hyl.
    replace (d0 + S d)%nat with (S d0 + d)%nat by lia.
    apply (IH x (S y)); try done; try lia.
    rewrite Nat2Z.inj_succ, <- Z.add_1_r. apply in_insert; [done|lia].
Qed.

Lemma reaches_in_edits (d : nat) x y :
  reaches_in d x y →
  0 ≤ x ∧ 0 ≤ y ∧
  ∀ d2, edits (drop (Z.to_nat x) a) (drop (Z.to_nat y) b) d2 → edits a b (d + d2).
Proof.
  intros Hr.
  induction Hr as [|d x y c Hr IH Hx Hy Ha Hb|d x y Hr IH Hxn|d x y Hr IH Hym].
  - split; [lia|]. split; [lia|]. intros d2 He. done.
  - destruct IH as (_ & _ & IH). split; [lia|]. split; [lia|]. intros d2 He.
    apply IH. rewrite (drop_S _ _ _ Ha), (drop_S _ _ _ Hb).
    replace (Z.to_nat (x + 1)) with (S (Z.to_nat x)) in He by lia.
    replace (Z.to_nat (y + 1)) with (S (Z.to_nat y)) in He by lia.
    by constructor.
  - destruct IH as (Hx & Hy & IH). split; [lia|]. split; [lia|]. intros d2 He.
    destruct (lookup_lt_is_Some_2 a (Z.to_nat x)) as [c Hc]; [lia|].
    replace (S d + d2)%nat with (d + S d2)%nat by lia.
    apply IH. rewrite (drop_S _ _ _ Hc).
    replace (Z.to_nat (x + 1)) with (S (Z.to_nat x)) in He by lia.
    by constructor.
  - destruct IH as (Hx & Hy & IH). split; [lia|]. split; [lia|]. intros d2 He.
    destruct (lookup_lt_is_Some_2 b (Z.to_nat y)) as [c Hc]; [lia|].
    replace (S d + d2)%nat with (d + S d2)%nat by lia.
    apply IH. rewrite (drop_S _ _ _ Hc).
    replace (Z.to_nat (y + 1)) with (S (Z.to_nat y)) in He by lia.
    by constructor.
Qed.

(** The search records no more levels than an alignment has edits. *)
Lemma search_lower_bound H :
  history_ok a b H → ∀ d, edits a b d → (length H ≤ d)%nat.
Proof.
  intros Hok d He. apply (search_minimal H Hok).
  apply (edits_reaches_in a b d He 0%nat 0%nat 0%nat); try done; try lia.
  constructor.
Qed.

(** The number of levels recorded by a search that reached [(n, m)] is
    the edit distance of [a] and [b]. *)
Lemma search_finds_distance H :
  find_shortest_path a b = Done H → Z.of_nat (length H) < max_diff →
  edits a b (length H) ∧ ∀ d, edits a b d → (length H ≤ d)%nat.
Proof.
  intros Hfind Hlen.
  destruct (find_shortest_path_total a b) as (H' & Hfind' & Hok & Hend).
  assert (H' = H) as -> by congruence.
  destruct Hend as [[Hterm _] | Hfull]; [|lia].
  split.
  - destruct (reaches_in_edits _ _ _ (search_reaches H Hok Hterm)) as (_ & _ & He).
    rewrite <- (Nat.add_0_r (length H)). apply He.
    rewrite !Nat2Z.id, !drop_all. constructor.
  - by apply search_lower_bound.
Qed.
End distance.

(** ** An empty first sequence

    With [a] empty every path runs down the column [x = 0]; the backward
    loop stays on the lowest diagonal, where it reads only index 0. *)

Section empty_first.
Context {A : Type} `{EqDecision A}.
Variable b : list A.

Local Abbreviation m := (Z.of_nat (length b)).

Lemma snake_nil x y : 0 ≤ x → snake (@nil A) b x y = Done x.
Proof.
  intros Hx. unfold snake. simpl length.
  by replace (Z.to_nat (Z.of_nat 0 - x)) with 0%nat by lia.
Qed.

Lemma history_heads H :
  history_ok [] b H → ∀ (d : nat) v, H !! d = Some v → v !! 0%nat = Some 0.
Proof.
  intros Hok d. induction d as [|d' IH]; intros v Hv.
  - destruct (Hok _ _ Hv) as (Hlen & _ & Hre & _).
    destruct (lookup_lt_is_Some_2 v 0%nat) as [x Hx]; [lia|].
    destruct (Hre _ _ Hx) as (x0 & Hst & Hsn & _).
    simpl in Hst. injection Hst as <-.
    rewrite snake_nil in Hsn by lia. congruence.
  - destruct (Hok _ _ Hv) as (Hlen & _ & Hre & _).
    destruct (lookup_lt_is_Some_2 v 0%nat) as [x Hx]; [lia|].
    destruct (Hre _ _ Hx) as (x0 & Hst & Hsn & _).
    simpl in Hst. destruct (H !! d') as [prev|] eqn:Hprev; [|done].
    simpl in Hst. unfold pick in Hst. rewrite decide_True in Hst by done.
    rewrite (IH prev eq_refl) in Hst. injection Hst as <-.
    rewrite snake_nil in Hsn by lia. congruence.
Qed.

Lemma history_nil_length H :
  history_ok [] b H → (length H ≤ length b)%nat.
Proof.
  intros Hok. destruct (decide (length H ≤ length b)%nat) as [|Hgt]; [done|].
  destruct (lookup_lt_is_Some_2 H (length b)) as [v Hv]; [lia|].
  pose proof (history_heads H Hok _ _ Hv) as Hhead.
  destruct (Hok _ _ Hv) as (_ & _ & _ & Hne).
  exfalso. apply (Hne _ _ Hhead). unfold diag. simpl. lia.
Qed.

(** The search uses as many levels as [b] has elements, up to
    [max_diff]. *)
Lemma find_shortest_path_nil :
  ∃ H, find_shortest_path [] b = Done H ∧ history_ok [] b H ∧
       Z.of_nat (length H) = Z.min m max_diff.
Proof.
  destruct (find_shortest_path_total [] b) as (H & Hfind & Hok & Hend).
  exists H. split; [done|]. split; [done|].
  pose proof (history_nil_length H Hok) as Hle.
  destruct Hend as [[(i & Hi & _ & Hk) Hlt] | Hfull].
  - unfold diag in Hk. simpl in Hk. lia.
  - lia.
Qed.

(** The points the backward loop pushes, and the trace read forward. *)
Fixpoint down (cnt : nat) (delta : Z) : list point :=
  match cnt with
  | O => []
  | S d => (0, Z.of_nat d + delta) :: down d delta
  end.

Fixpoint column (y : Z) (cnt : nat) : list point :=
  match cnt with
  | O => []
  | S c => (0, y) :: column (y + 1) c
  end.

Lemma column_snoc cnt : ∀ y,
  column y (S cnt) = column y cnt ++ [(0, y + Z.of_nat cnt)].
Proof.
  induction cnt as [|cnt IH]; intros y.
  - simpl. by rewrite Z.add_0_r.
  - change (column y (S (S cnt))) with ((0, y) :: column (y + 1) (S cnt)).
    rewrite IH. cbn [column app]. do 2 f_equal.
    replace (y + 1 + Z.of_nat cnt) with (y + Z.of_nat (S cnt)) by lia. done.
Qed.

Lemma reverse_down cnt delta : ∀ tr,
  reverse (tr ++ down cnt delta) = column delta cnt ++ reverse tr.
Proof.
  induction cnt as [|d IH]; intros tr.
  - simpl. by rewrite app_nil_r.
  - simpl down. rewrite (cons_middle _ tr), (assoc_L (++)), IH.
    rewrite reverse_snoc, column_snoc, <- (assoc_L (++)). cbn [app].
    by replace (delta + Z.of_nat d) with (Z.of_nat d + delta) by lia.
Qed.

Lemma back_step_lowest H max_n (d : nat) v delta :
  H !! d = Some v → length v = S d → v !! 0%nat = Some 0 → 0 ≤ max_n →
  delta = 0 ∨ delta = 1 →
  back_step H max_n (Z.of_nat d) (- Z.of_nat (S d) - delta)
  = Done (- Z.of_nat d - delta, (0, Z.of_nat d + delta)).
Proof.
  intros Hv Hlen Hhead Hmax Hdelta. unfold back_step.
  rewrite (vec_get_nat H d v Hv). cbn [mbind result_bind].
  rewrite (bool_decide_true (Z.of_nat (length v) = Z.of_nat d + 1)) by lia.
  cbn [assert mbind result_bind].
  assert (Z.quot (- Z.of_nat (S d) - delta - 1 + Z.of_nat d) 2 = -1) as ->.
  { destruct Hdelta as [-> | ->].
    - by replace (- Z.of_nat (S d) - 0 - 1 + Z.of_nat d) with (-2) by lia.
    - by replace (- Z.of_nat (S d) - 1 - 1 + Z.of_nat d) with (-3) by lia. }
  rewrite (bool_decide_true (-1 < 0)) by lia.
  rewrite (bool_decide_false (-1 > Z.of_nat d)) by lia.
  cbn [mbind result_bind]. change (-1 + 1) with (Z.of_nat 0).
  rewrite (vec_get_nat v 0 0 Hhead). cbn [mbind result_bind].
  rewrite (bool_decide_false (- (max_n + 1) + 1 > 0)) by lia.
  do 2 f_equal; [lia|]. f_equal. lia.
Qed.

Lemma backtrack_lowest H max_n delta :
  history_ok [] b H → 0 ≤ max_n → delta = 0 ∨ delta = 1 →
  ∀ (cnt : nat) trace, (cnt ≤ length H)%nat →
    backtrack H max_n cnt (- Z.of_nat cnt - delta) trace
    = Done (trace ++ down cnt delta).
Proof.
  intros Hok Hmax Hdelta cnt. induction cnt as [|d IH]; intros trace Hcnt.
  - simpl. by rewrite app_nil_r.
  - destruct (lookup_lt_is_Some_2 H d) as [v Hv]; [lia|].
    destruct (Hok _ _ Hv) as (Hlen & _).
    cbn [backtrack].
    rewrite (back_step_lowest H max_n d v delta Hv Hlen
               (history_heads H Hok _ _ Hv) Hmax Hdelta).
    cbn [mbind result_bind]. rewrite IH by lia.
    by rewrite <- (assoc_L (++)).
Qed.

(** Building the script from a column: one Add that grows. *)
Lemma build_step_add_more dq ns len y :
  build_step (mkEdit Add 0 0 ns len :: dq, 0, y, 0 - y) (0, y + 1)
  = Done (mkEdit Add 0 0 ns (len + 1) :: dq, 0, y + 1, 0 - (y + 1)).
Proof.
  unfold build_step.
  rewrite (bool_decide_false (y = y + 1)) by lia. rewrite andb_false_r.
  rewrite (bool_decide_false (0 - y < 0 - (y + 1))) by lia.
  done.
Qed.

Lemma build_loop_column dq ns : ∀ (r : nat) len y,
  build_loop (mkEdit Add 0 0 ns len :: dq, 0, y, 0 - y) (column (y + 1) r)
  = Done (mkEdit Add 0 0 ns (len + Z.of_nat r) :: dq, 0, y + Z.of_nat r,
          0 - (y + Z.of_nat r)).
Proof.
  induction r as [|r IH]; intros len y.
  - simpl. by rewrite !Z.add_0_r.
  - cbn [column build_loop]. rewrite build_step_add_more.
    cbn [mbind result_bind]. rewrite IH.
    replace (len + 1 + Z.of_nat r) with (len + Z.of_nat (S r)) by lia.
    by replace (y + 1 + Z.of_nat r) with (y + Z.of_nat (S r)) by lia.
Qed.

Lemma build_step_skip (dq : list EditInstruction) (x y k : Z) :
  build_step (dq, x, y, k) (x, y) = Done (dq, x, y, k).
Proof. unfold build_step. by rewrite !bool_decide_true by done. Qed.

Lemma build_step_first_add y :
  build_step ([mkEdit Nop 0 0 0 0], 0, y, 0 - y) (0, y + 1)
  = Done ([mkEdit Add 0 0 y 1; mkEdit Nop 0 0 0 0], 0, y + 1, 0 - (y + 1)).
Proof.
  unfold build_step.
  rewrite (bool_decide_false (y = y + 1)) by lia. rewrite andb_false_r.
  rewrite (bool_decide_false (0 - y < 0 - (y + 1))) by lia.
  done.
Qed.

Lemma build_edit_script_column delta (cnt : nat) :
  build_edit_script (column delta (S (S cnt)))
  = Done [mkEdit Nop 0 0 0 0; mkEdit Add 0 0 delta (Z.of_nat (S cnt))].
Proof.
  unfold build_edit_script. cbn [column].
  change (vec_get ((0, delta) :: (0, delta + 1) :: column (delta + 1 + 1) cnt) 0)
    with (@Done point (0, delta)).
  cbn [mbind result_bind build_loop].
  rewrite build_step_skip.
  cbn [mbind result_bind]. rewrite build_step_first_add.
  cbn [mbind result_bind]. rewrite build_loop_column.
  cbn [mbind result_bind]. rewrite reverse_cons. simpl reverse. simpl app.
  by replace (1 + Z.of_nat cnt) with (Z.of_nat (S cnt)) by lia.
Qed.

(** The script for an empty [a]: with [m ≤ max_diff + 1] elements in
    [b], of which the search reached [cnt = min m max_diff], one Add of
    [cnt] elements starting at [m - cnt]. *)
Lemma shortest_edit_script_nil :
  0 < m ≤ max_diff + 1 →
  shortest_edit_script [] b
  = Done [mkEdit Nop 0 0 0 0;
          mkEdit Add 0 0 (m - Z.min m max_diff) (Z.min m max_diff)].
Proof.
  intros Hm. pose proof max_diff_pos as Hpos.
  destruct find_shortest_path_nil as (H & Hfind & Hok & Hlen).
  unfold shortest_edit_script. rewrite Hfind. cbn [mbind result_bind].
  unfold reconstruct_trace.
  set (delta := m - Z.min m max_diff).
  assert (delta = 0 ∨ delta = 1) as Hdelta by (unfold delta; lia).
  replace (Z.of_nat (length (@nil A)) - m)
    with (- Z.of_nat (length H) - delta) by (unfold delta; simpl; lia).
  rewrite (backtrack_lowest H _ delta Hok) by (try case_bool_decide; simpl; lia).
  cbn [mbind result_bind]. rewrite reverse_down.
  change (reverse [(Z.of_nat (length (@nil A)), m)]) with [(0, m)].
  replace (0, m) with (0, delta + Z.of_nat (length H)) by (f_equal; lia).
  rewrite <- column_snoc.
  destruct (length H) as [|cnt] eqn:Hcnt; [lia|].
  rewrite build_edit_script_column. by rewrite Hlen.
Qed.
End empty_first.

(** * The claims *)

Local Open Scope string_scope.
Local Open Scope list_scope.
Local Open Scope Z_scope.

(** ** Round trip *)

(** C1, as amended.  When the search converged within its [max_diff]
    levels and the reconstruction read only inside the history records,
    applying the Delete, Add and Change instructions of the returned
    script to [a], in order, gives [b]. *)
Theorem roundtrip_when_converged {A : Type} `{EqDecision A} (a b : list A)
    (s : list EditInstruction) :
  converged a b → shortest_edit_script a b = Done s →
  apply_script a b s = b.
Proof.
  intros Hconv Hses.
  destruct (script_shape a b s Hconv Hses)
    as (x0 & s' & -> & _ & Hx0 & Hrun & Hch & _ & _).
  unfold apply_script. simpl.
  rewrite (apply_from_chained a b s' x0 x0 0 Hch); [| lia | lia |].
  - by replace (x0 - (x0 - 0)) with 0 by lia.
  - replace (x0 - (x0 - 0)) with 0 by lia. rewrite Z.sub_0_r.
    by apply segment_run_eq.
Qed.

Lemma roundtrip_when_converged_witness :
  converged ["A"; "C"] ["A"; "B"; "C"] ∧
  shortest_edit_script ["A"; "C"] ["A"; "B"; "C"]
    = Done [mkEdit Nop 0 0 0 0; mkEdit Add 1 0 1 1; mkEdit Nop 1 1 2 1] ∧
  apply_script ["A"; "C"] ["A"; "B"; "C"]
    [mkEdit Nop 0 0 0 0; mkEdit Add 1 0 1 1; mkEdit Nop 1 1 2 1]
    = ["A"; "B"; "C"].
Proof.
  assert (converged ["A"; "C"] ["A"; "B"; "C"]) as Hc.
  { exists [[1]]. split; vm_compute; reflexivity. }
  assert (shortest_edit_script ["A"; "C"] ["A"; "B"; "C"]
    = Done [mkEdit Nop 0 0 0 0; mkEdit Add 1 0 1 1; mkEdit Nop 1 1 2 1]) as Hs.
  { vm_compute. reflexivity. }
  split; [exact Hc|]. split; [exact Hs|].
  exact (roundtrip_when_converged _ _ _ Hc Hs).
Defined.

(** ** Invariants of the script *)

(** The instructions of [s], read in order, cover [x, xe) and [y, ye)
    without gap or overlap. *)
Fixpoint covers (x y : Z) (s : list EditInstruction) (xe ye : Z) : Prop :=
  match s with
  | [] => x = xe ∧ y = ye
  | es :: s' =>
      orig_start es = x ∧ new_start es = y ∧
      covers (x + orig_length es) (y + new_length es) s' xe ye
  end.

Lemma chained_covers {A : Type} (a b : list A) s : ∀ x y xe ye,
  chained a b x y s xe ye → covers x y s xe ye ∧ Forall (kind_ok a b) s.
Proof.
  induction s as [|es s IH]; intros x y xe ye Hc; simpl in *; [done|].
  destruct Hc as (? & ? & ? & Hc). apply IH in Hc as [? ?].
  repeat split; try done. by constructor.
Qed.

(** C9, as stated, fails: the equal lines at the start of both sequences
    are covered by no instruction, and the first instruction is a Nop of
    length zero on both sides. *)
Lemma script_leaves_prefix_uncovered :
  ∃ s, shortest_edit_script ["A"; "C"] ["A"; "B"; "C"] = Done s ∧
       ¬ covers 0 0 s 2 3 ∧
       head s = Some (mkEdit Nop 0 0 0 0).
Proof.
  exists [mkEdit Nop 0 0 0 0; mkEdit Add 1 0 1 1; mkEdit Nop 1 1 2 1].
  split; [vm_compute; reflexivity|]. split; [|done].
  simpl. intros (_ & _ & H & _). discriminate.
Qed.

(** C9, as amended.  When the search converged and the reconstruction
    read only inside the history records, the script is the initial
    [{Nop,0,0,0,0}] followed by instructions that cover [x0, n) and
    [x0, m) in order without gap or overlap, [x0] being the end of the
    first snake; a Delete has a positive [orig_length] and [new_length]
    zero, an Add has [orig_length] zero and a positive [new_length], a
    Change has both positive, a later Nop has equal positive lengths over
    equal elements; Nop and other instructions take turns, so no two
    adjacent instructions have the same kind. *)
Theorem script_invariants {A : Type} `{EqDecision A} (a b : list A)
    (s : list EditInstruction) :
  converged a b → shortest_edit_script a b = Done s →
  ∃ x0 s',
    s = mkEdit Nop 0 0 0 0 :: s' ∧
    snake a b 0 0 = Done x0 ∧
    covers x0 x0 s' (Z.of_nat (length a)) (Z.of_nat (length b)) ∧
    Forall (kind_ok a b) s' ∧
    alternating (mkEdit Nop 0 0 0 0) s'.
Proof.
  intros Hconv Hses.
  destruct (script_shape a b s Hconv Hses)
    as (x0 & s' & -> & Hsn & _ & _ & Hch & Halt & _).
  apply chained_covers in Hch as [Hcov Hkind].
  exists x0, s'. done.
Qed.

Lemma script_invariants_witness :
  converged ["A"; "C"] ["A"; "B"; "C"] ∧
  shortest_edit_script ["A"; "C"] ["A"; "B"; "C"]
    = Done [mkEdit Nop 0 0 0 0; mkEdit Add 1 0 1 1; mkEdit Nop 1 1 2 1] ∧
  ∃ x0 s',
    [mkEdit Nop 0 0 0 0; mkEdit Add 1 0 1 1; mkEdit Nop 1 1 2 1]
      = mkEdit Nop 0 0 0 0 :: s' ∧
    snake ["A"; "C"] ["A"; "B"; "C"] 0 0 = Done x0 ∧
    covers x0 x0 s' 2 3 ∧
    Forall (kind_ok ["A"; "C"] ["A"; "B"; "C"]) s' ∧
    alternating (mkEdit Nop 0 0 0 0) s'.
Proof.
  assert (converged ["A"; "C"] ["A"; "B"; "C"]) as Hc.
  { exists [[1]]. split; vm_compute; reflexivity. }
  assert (shortest_edit_script ["A"; "C"] ["A"; "B"; "C"]
    = Done [mkEdit Nop 0 0 0 0; mkEdit Add 1 0 1 1; mkEdit Nop 1 1 2 1]) as Hs.
  { vm_compute. reflexivity. }
  split; [exact Hc|]. split; [exact Hs|].
  exact (script_invariants _ _ _ Hc Hs).
Defined.

(** ** Identical sequences *)

Lemma snake_loop_same {A : Type} `{EqDecision A} (a : list A) (steps : nat) :
  ∀ x, 0 ≤ x → steps = Z.to_nat (Z.of_nat (length a) - x) →
       x ≤ Z.of_nat (length a) →
       snake_loop a a steps x x = Done (Z.of_nat (length a)).
Proof.
  induction steps as [|steps IH]; intros x Hx Hsteps Hle; simpl.
  - f_equal. lia.
  - assert (x < Z.of_nat (length a)) as Hlt by lia.
    rewrite (proj2 (Z.ltb_lt _ _) Hlt). simpl.
    destruct (lookup_lt_is_Some_2 a (Z.to_nat x)) as [c Hc]; [lia|].
    rewrite (proj2 (vec_get_Done a x c)) by done. simpl.
    rewrite decide_True by done. apply IH; lia.
Qed.

Lemma find_shortest_path_same {A : Type} `{EqDecision A} (a : list A) :
  find_shortest_path a a = Done [].
Proof.
  unfold find_shortest_path, buf_set. pose proof max_diff_pos.
  rewrite bool_decide_true by lia. cbn [mbind result_bind].
  rewrite max_diff_levels. cbn [levels diagonals Z.to_nat].
  change (- 0) with (diag 0 0). change 0 with (Z.of_nat 0) at 1.
  rewrite select_start_origin by apply lookup_insert_eq.
  cbn [mbind result_bind]. change (diag 0 0) with 0. rewrite Z.sub_0_r.
  unfold snake. rewrite snake_loop_same by lia. cbn [mbind result_bind].
  unfold buf_set. rewrite bool_decide_true by lia. cbn [mbind result_bind].
  rewrite !bool_decide_true by lia. done.
Qed.

Lemma shortest_edit_script_same {A : Type} `{EqDecision A} (a : list A) :
  shortest_edit_script a a = Done [mkEdit Nop 0 0 0 0].
Proof.
  unfold shortest_edit_script. rewrite find_shortest_path_same.
  cbn [mbind result_bind]. unfold reconstruct_trace. cbn [length backtrack].
  cbn [mbind result_bind]. unfold build_edit_script.
  change (reverse [(Z.of_nat (length a), Z.of_nat (length a))])
    with [(Z.of_nat (length a), Z.of_nat (length a))].
  unfold vec_get at 1. simpl.
  rewrite !bool_decide_true by done. done.
Qed.

(** C3, as stated, fails: for a one-line file compared with itself the
    script is not a Nop of length 1. *)
Lemma identity_nop_is_empty :
  shortest_edit_script ["A"] ["A"] ≠ Done [mkEdit Nop 0 1 0 1].
Proof. vm_compute. discriminate. Qed.

(** C3, as amended.  For every sequence [a], [shortest_edit_script a a]
    is the single instruction [{Nop,0,0,0,0}], whatever the length of
    [a], and [normal_print] writes nothing for it. *)
Theorem identity_script (a : list string) :
  shortest_edit_script a a = Done [mkEdit Nop 0 0 0 0] ∧
  normal_print a a [mkEdit Nop 0 0 0 0] = Done [].
Proof. split; [apply shortest_edit_script_same | done]. Qed.

(** ** Empty inputs *)

(** C10.  For two empty sequences the script is exactly [{Nop,0,0,0,0}],
    and neither printer writes anything. *)
Theorem empty_inputs :
  shortest_edit_script (@nil string) [] = Done [mkEdit Nop 0 0 0 0] ∧
  normal_print [] [] [mkEdit Nop 0 0 0 0] = Done [] ∧
  unified_print [] [] [mkEdit Nop 0 0 0 0] = Done [].
Proof. split; [apply shortest_edit_script_same | done]. Qed.

(** ** Reads of the history records *)

(** On the top diagonal [k = d + 1] the guard [idx > d] lets the read
    [v[idx+1]] through, one past the end of the record. *)
Lemma back_step_top_diagonal (H : list max_pos_vec) (max_n : Z) (d : nat) v :
  H !! d = Some v → length v = S d →
  back_step H max_n (Z.of_nat d) (Z.of_nat d + 1) = Fault OutOfBounds.
Proof.
  intros Hv Hlen. unfold back_step.
  rewrite (vec_get_nat H d v Hv). cbn [mbind result_bind].
  rewrite (bool_decide_true (Z.of_nat (length v) = Z.of_nat d + 1)) by lia.
  cbn [assert mbind result_bind].
  replace (Z.of_nat d + 1 - 1 + Z.of_nat d) with (Z.of_nat d * 2) by lia.
  rewrite Z.quot_mul by lia.
  rewrite (bool_decide_false (Z.of_nat d < 0)) by lia.
  destruct (lookup_lt_is_Some_2 v d) as [x1 Hx1]; [lia|].
  rewrite (vec_get_nat v d x1 Hx1). cbn [mbind result_bind].
  rewrite (bool_decide_false (Z.of_nat d > Z.of_nat d)) by lia.
  rewrite vec_get_past_end by lia. done.
Qed.

(** C6: the code reads outside a history record.  For [a = ["x"]] and
    [b = []] the search leaves the single record [[0]]; the backward loop
    at [d = 0], [k = 1] computes [idx = 0] and reads [v[1]]. *)
Theorem history_read_out_of_bounds :
  find_shortest_path ["x"] (@nil string) = Done [[0]] ∧
  Z.quot ((1 - 1) + 0) 2 + 1 = 1 ∧
  vec_get [0] (Z.quot ((1 - 1) + 0) 2 + 1) = Fault OutOfBounds ∧
  reconstruct_trace [[0]] 1 0 = Fault OutOfBounds ∧
  shortest_edit_script ["x"] (@nil string) = Fault OutOfBounds.
Proof. repeat split; vm_compute; reflexivity. Qed.

(** ** Minimality *)

(** Where the search converged and the reconstruction read only inside
    the history records, the script deletes and inserts as many elements
    as the search counted levels, and no alignment of [a] and [b] does
    with fewer. *)
Lemma script_count_is_distance {A : Type} `{EqDecision A} (a b : list A)
    (s : list EditInstruction) :
  converged a b → shortest_edit_script a b = Done s →
  ∃ H, find_shortest_path a b = Done H ∧
       edit_count s = Z.of_nat (length H) ∧
       edits a b (length H) ∧
       ∀ d, edits a b d → (length H ≤ d)%nat.
Proof.
  intros Hconv Hses.
  destruct (script_shape a b s Hconv Hses) as (_ & _ & _ & _ & _ & _ & _ & _ & Hcount).
  destruct Hcount as (H & Hfind & Hcount).
  destruct Hconv as (H' & Hfind' & Hlen).
  assert (H' = H) as -> by congruence.
  exists H. split; [done|]. split; [done|].
  by apply search_finds_distance.
Qed.

(** C2: for [a = ["A"; "B"]] and [b = ["A"]], at distance 1, the search
    converges and the reconstruction reads outside the record of level
    0, so no script is returned. *)
Theorem no_script_for_trailing_delete :
  converged ["A"; "B"] ["A"] ∧
  find_shortest_path ["A"; "B"] ["A"] = Done [[1]] ∧
  shortest_edit_script ["A"; "B"] ["A"] = Fault OutOfBounds.
Proof.
  split; [exists [[1]]; split; vm_compute; reflexivity|].
  split; vm_compute; reflexivity.
Qed.

(** ** The worked example *)

(** C8.  For [a = ["A";"B";"C"]] and [b = ["A";"X";"C"]] the search
    converges at distance 2 with the records [[1]] and [[1;2]].  The
    backward loop goes from [(3,3)] on diagonal 0 to [(2,1)] on diagonal
    1 at [d = 1]; at [d = 0], on the top diagonal [k = d + 1], [idx] is 0,
    the guard [idx > d] is false and [v[idx+1] = v[1]] is read from the
    record [[1]], which has one entry: no script is returned, and so not
    the one of the example. *)
Theorem example_reads_out_of_bounds :
  let a := ["A"; "B"; "C"] in
  let b := ["A"; "X"; "C"] in
  find_shortest_path a b = Done [[1]; [1; 2]] ∧
  back_step [[1]; [1; 2]] 3 1 0 = Done (1, (2, 1)) ∧
  Z.quot ((1 - 1) + 0) 2 = 0 ∧
  vec_get [1] (0 + 1) = Fault OutOfBounds ∧
  back_step [[1]; [1; 2]] 3 0 1 = Fault OutOfBounds ∧
  reconstruct_trace [[1]; [1; 2]] 3 3 = Fault OutOfBounds ∧
  shortest_edit_script a b = Fault OutOfBounds.
Proof. repeat split; vm_compute; reflexivity. Qed.

(** ** Hunks *)

Lemma hunk_step_nops (hunks : list Hunk) (nops : list EditInstruction) :
  Forall (λ es, type es = Nop) nops → foldl hunk_step hunks nops = hunks.
Proof.
  intros Hn. revert hunks. induction Hn as [|es nops Hes _ IH]; intros hunks.
  - done.
  - simpl. unfold hunk_step at 2. rewrite decide_True by done. apply IH.
Qed.

(** After a non-Nop instruction the open hunk ends three lines after it. *)
Lemma hunk_step_edit (hunks : list Hunk) (es : EditInstruction) :
  type es ≠ Nop →
  ∃ h others, hunk_step hunks es = h :: others ∧
              last (edit_scripts_ h) = Some es ∧
              orig_end_ h = orig_start es + orig_length es + 3.
Proof.
  intros Hne. unfold hunk_step. rewrite decide_False by done.
  destruct hunks as [|hunk others].
  - by exists (Hunk_of es), [].
  - destruct (mergeable hunk es).
    + exists (add_edit_script hunk es), others.
      split; [done|]. split; [|done]. simpl. apply last_snoc.
    + by exists (Hunk_of es), (hunk :: others).
Qed.

(** C7, as stated, fails: the insertions before lines 1 and 5 of an
    eight-line file have [orig_start] 0 and 4, which differ by less than
    6, and land in two hunks. *)
Lemma nearby_edits_in_separate_hunks :
  let a := ["A"; "B"; "C"; "D"; "E"; "F"; "G"; "H"] in
  let b := ["X"; "A"; "B"; "C"; "D"; "Y"; "E"; "F"; "G"; "H"] in
  let e1 := mkEdit Add 0 0 0 1 in
  let e2 := mkEdit Add 4 0 5 1 in
  shortest_edit_script a b
    = Done [mkEdit Nop 0 0 0 0; e1; mkEdit Nop 0 4 1 4; e2; mkEdit Nop 4 4 6 4] ∧
  orig_start e2 - orig_start e1 ≤ 6 ∧
  collect_hunks [mkEdit Nop 0 0 0 0; e1; mkEdit Nop 0 4 1 4; e2; mkEdit Nop 4 4 6 4]
    = [Hunk_of e1; Hunk_of e2].
Proof. repeat split; vm_compute; try reflexivity. discriminate. Qed.

(** The sums a hunk takes of the fields of an instruction fit in an
    [int]. *)
Definition window_fits (es : EditInstruction) : Prop :=
  int_fits (orig_start es) ∧ int_fits (orig_length es) ∧
  int_fits (new_start es) ∧ int_fits (new_length es) ∧
  int_fits (orig_start es - 3) ∧ int_fits (orig_start es + orig_length es) ∧
  int_fits (orig_start es + orig_length es + 3) ∧
  int_fits (new_start es - 3) ∧ int_fits (new_start es + new_length es) ∧
  int_fits (new_start es + new_length es + 3).

(** C7, as amended.  In a script whose instructions keep the sums of a
    hunk within [int], a non-Nop instruction [e2] joins the hunk of the
    non-Nop instruction [e1] before it exactly when
    [orig_start e2 ≤ orig_start e1 + orig_length e1 + 3]; otherwise it
    opens a new hunk.  Before a hunk is rendered its window is clamped:
    its start becomes [max start 0] and its end [min end n] on the side
    of [a], and likewise with [m] on the side of [b]; the header is made
    from the clamped window and the body runs from its start to its
    end. *)
Theorem hunk_merge_rule (s : list EditInstruction) (e1 : EditInstruction)
    (nops : list EditInstruction) (e2 : EditInstruction) :
  type e1 ≠ Nop → type e2 ≠ Nop → Forall (λ es, type es = Nop) nops →
  Forall window_fits (s ++ [e1; e2]) →
  (∃ hs h,
     collect_hunks (s ++ [e1]) = hs ++ [h] ∧
     last (edit_scripts_ h) = Some e1 ∧
     collect_hunks (s ++ e1 :: nops ++ [e2])
     = if bool_decide (orig_start e2 ≤ orig_start e1 + orig_length e1 + 3)
       then hs ++ [add_edit_script h e2]
       else hs ++ [h; Hunk_of e2]) ∧
  (∀ (h : Hunk) (a b : list string),
     let n := Z.of_nat (length a) in
     let m := Z.of_nat (length b) in
     let clamped :=
       mkHunk (edit_scripts_ h)
         (Z.max (orig_start_ h) 0) (Z.min (orig_end_ h) n)
         (Z.max (new_start_ h) 0) (Z.min (new_end_ h) m) in
     normalize_range h n m = clamped ∧
     hunk_print_modifications h a b
       = (body ← hunk_body (mkPrinter default_signs default_colors) a b
                   (Z.min (orig_end_ h) n) (Z.max (orig_start_ h) 0)
                   (edit_scripts_ h);
          Done (Colored Cyan (make_header clamped) :: body)) ∧
     0 ≤ orig_start_ clamped ∧ orig_end_ clamped ≤ n ∧
     0 ≤ new_start_ clamped ∧ new_end_ clamped ≤ m).
Proof.
  intros H1 H2 Hnops _. split.
  - unfold collect_hunks.
    rewrite !foldl_app. simpl. rewrite !foldl_app. simpl.
    destruct (hunk_step_edit (foldl hunk_step [] s) e1 H1)
      as (h & others & -> & Hlast & Hend).
    rewrite hunk_step_nops by done.
    exists (reverse others), h. rewrite reverse_cons.
    split; [done|]. split; [done|].
    unfold hunk_step. rewrite decide_False by done.
    unfold mergeable. rewrite Hend.
    case_bool_decide; rewrite !reverse_cons; [done|].
    by rewrite <- (assoc_L (++)).
  - intros h a b n m clamped. split; [done|]. split; [done|].
    unfold clamped. simpl. lia.
Qed.

Lemma hunk_merge_rule_witness :
  let e1 := mkEdit Add 0 0 0 1 in
  let e2 := mkEdit Add 4 0 5 1 in
  let nops := [mkEdit Nop 0 4 1 4] in
  type e1 ≠ Nop ∧ type e2 ≠ Nop ∧ Forall (λ es, type es = Nop) nops ∧
  Forall window_fits ([mkEdit Nop 0 0 0 0] ++ [e1; e2]) ∧
  ∃ hs h,
    collect_hunks ([mkEdit Nop 0 0 0 0] ++ [e1]) = hs ++ [h] ∧
    last (edit_scripts_ h) = Some e1 ∧
    collect_hunks ([mkEdit Nop 0 0 0 0] ++ e1 :: nops ++ [e2])
    = if bool_decide (orig_start e2 ≤ orig_start e1 + orig_length e1 + 3)
      then hs ++ [add_edit_script h e2]
      else hs ++ [h; Hunk_of e2].
Proof.
  intros e1 e2 nops.
  assert (type e1 ≠ Nop) as H1 by discriminate.
  assert (type e2 ≠ Nop) as H2 by discriminate.
  assert (Forall (λ es, type es = Nop) nops) as H3
    by (repeat constructor).
  assert (Forall window_fits ([mkEdit Nop 0 0 0 0] ++ [e1; e2])) as H4
    by (repeat constructor; simpl; lia).
  split; [exact H1|]. split; [exact H2|]. split; [exact H3|].
  split; [exact H4|].
  exact (proj1 (hunk_merge_rule [mkEdit Nop 0 0 0 0] e1 nops e2 H1 H2 H3 H4)).
Defined.

(** ** The search bound *)

Lemma script_beyond_bound (c : string) :
  let b := replicate (Z.to_nat 10001) c in
  Z.of_nat (length b) = max_diff + 1 ∧
  shortest_edit_script [] b
    = Done [mkEdit Nop 0 0 0 0; mkEdit Add 0 0 1 10000] ∧
  apply_script [] b [mkEdit Nop 0 0 0 0; mkEdit Add 0 0 1 10000] ≠ b.
Proof.
  intros b.
  assert (Z.of_nat (length b) = max_diff + 1) as Hlen.
  { unfold b. rewrite length_replicate, max_diff_value. lia. }
  split; [done|]. split.
  - rewrite shortest_edit_script_nil by (rewrite Hlen, max_diff_value; lia).
    rewrite Hlen, max_diff_value. reflexivity.
  - intros Heq. apply (f_equal (λ l, Z.of_nat (length l))) in Heq.
    vm_compute in Heq. discriminate.
Qed.

(** C5, as stated, fails: for an empty [a] and 10001 lines in [b] the
    edit distance, 10001, is above the ceiling of 10000; the solver
    returns a script, which inserts only the last 10000 lines of [b]. *)
Lemma bound_exceeded_returns_script :
  let b := replicate (Z.to_nat 10001) "x" in
  Z.of_nat (length b) = max_diff + 1 ∧
  shortest_edit_script [] b
    = Done [mkEdit Nop 0 0 0 0; mkEdit Add 0 0 1 10000] ∧
  apply_script [] b [mkEdit Nop 0 0 0 0; mkEdit Add 0 0 1 10000] ≠ b.
Proof. apply script_beyond_bound. Qed.

(** C5, as amended.  The search has no failure to report: for every pair
    of sequences [find_shortest_path] returns its history.  The history
    never has more records than an alignment of [a] and [b] has deletions
    and insertions; it has [max_diff] records when the search used up all
    its levels, and otherwise as many records as the edit distance.
    [shortest_edit_script] hands the history to [reconstruct_trace] and
    [build_edit_script] as it is, whether or not the search reached
    [(n, m)]: nothing checks the bound. *)
Theorem search_always_returns {A : Type} `{EqDecision A} (a b : list A) :
  ∃ H, find_shortest_path a b = Done H ∧
       (∀ d, edits a b d → (length H ≤ d)%nat) ∧
       (Z.of_nat (length H) = max_diff
        ∨ Z.of_nat (length H) < max_diff ∧ edits a b (length H)) ∧
       shortest_edit_script a b
       = (trace ← reconstruct_trace H (Z.of_nat (length a)) (Z.of_nat (length b));
          build_edit_script trace).
Proof.
  destruct (find_shortest_path_total a b) as (H & Hfind & Hok & Hend).
  exists H. split; [done|]. split; [by apply search_lower_bound|]. split.
  - destruct Hend as [[_ Hlt] | Hfull]; [right|by left].
    split; [done|]. by apply search_finds_distance.
  - unfold shortest_edit_script. by rewrite Hfind.
Qed.

(** C1, as stated, fails: for an empty [a] and 10001 lines in [b] the
    returned script does not rebuild [b]. *)
Lemma roundtrip_fails_beyond_bound :
  let b := replicate (Z.to_nat 10001) "y" in
  ∃ s, shortest_edit_script [] b = Done s ∧ apply_script [] b s ≠ b.
Proof.
  intros b. exists [mkEdit Nop 0 0 0 0; mkEdit Add 0 0 1 10000].
  apply (script_beyond_bound "y").
Qed.

(** ** An empty first sequence *)

(** For an empty [a] and a non-empty [b] of at most [max_diff] elements
    the script is the initial [{Nop,0,0,0,0}] followed by a single Add
    covering all of [b]. *)
Lemma empty_against_nonempty {A : Type} `{EqDecision A} (b : list A) :
  b ≠ [] → Z.of_nat (length b) ≤ max_diff →
  shortest_edit_script [] b
  = Done [mkEdit Nop 0 0 0 0; mkEdit Add 0 0 0 (Z.of_nat (length b))].
Proof.
  intros Hb Hlen.
  assert (0 < Z.of_nat (length b)) as Hpos by (destruct b; [done|simpl; lia]).
  rewrite shortest_edit_script_nil by lia.
  rewrite Z.min_l by done. by rewrite Z.sub_diag.
Qed.

Lemma empty_against_nonempty_witness :
  ["B"] ≠ @nil string ∧ Z.of_nat (length ["B"]) ≤ max_diff ∧
  shortest_edit_script [] ["B"]
  = Done [mkEdit Nop 0 0 0 0; mkEdit Add 0 0 0 (Z.of_nat (length ["B"]))].
Proof.
  assert (["B"] ≠ @nil string) as Hb by discriminate.
  assert (Z.of_nat (length ["B"]) ≤ max_diff) as Hlen
    by (vm_compute; discriminate).
  split; [exact Hb|]. split; [exact Hlen|].
  exact (empty_against_nonempty ["B"] Hb Hlen).
Defined.

(** * Further properties of the code *)

(** ** The forward search *)

(** X1.  [find_shortest_path] never reads a cell of [buf] it has not
    written, nor an element outside [a], [b] or [buf].  Record [d] of the
    history has [d + 1] entries, and the entry [x] of diagonal [k] is a
    point [(x, x - k)] with [0 ≤ x ≤ n + d] and [0 ≤ x - k ≤ m + d]. *)
Theorem search_records_in_range {A : Type} `{EqDecision A} (a b : list A) :
  ∃ H, find_shortest_path a b = Done H ∧
       Z.of_nat (length H) ≤ max_diff ∧
       ∀ (d : nat) v, H !! d = Some v →
         length v = S d ∧
         ∀ (i : nat) x, v !! i = Some x →
           0 ≤ x ≤ Z.of_nat (length a) + Z.of_nat d ∧
           0 ≤ x - diag d i ≤ Z.of_nat (length b) + Z.of_nat d.
Proof.
  destruct (find_shortest_path_total a b) as (H & Hfind & Hok & Hend).
  exists H. split; [done|]. split; [lia|].
  intros d v Hv. destruct (Hok _ _ Hv) as (Hlen & Hax & Hre & _).
  split; [done|]. intros i x Hx.
  destruct (Hax _ _ Hx) as [Hx0 Hxk].
  assert (i ≤ d)%nat as Hi by (apply lookup_lt_Some in Hx; lia).
  destruct (reaches_clamp a b _ _ _ (reach_reaches a b H Hok _ _ _ Hi (Hre _ _ Hx)))
    as (d' & _ & Hd').
  lia.
Qed.

(** X2.  The search reaches [(n, m)] before its levels are used up exactly
    when [a] can be turned into [b] with fewer than [max_diff] deletions
    and insertions. *)
Theorem converged_iff_distance_below_bound {A : Type} `{EqDecision A}
    (a b : list A) :
  converged a b ↔ ∃ d : nat, edits a b d ∧ Z.of_nat d < max_diff.
Proof.
  split.
  - intros (H & Hfind & Hlen). exists (length H).
    split; [|done]. by apply (search_finds_distance a b H).
  - intros (d & He & Hd).
    destruct (find_shortest_path_total a b) as (H & Hfind & Hok & _).
    exists H. split; [done|].
    pose proof (search_lower_bound a b H Hok d He). lia.
Qed.

(** X3.  The script of a converged search is a shortest one: applied to
    [a] it gives [b], the elements it deletes and inserts are as many as
    some alignment of [a] with [b] deletes and inserts, and no alignment
    of [a] with [b] deletes and inserts fewer. *)
Theorem script_is_shortest {A : Type} `{EqDecision A} (a b : list A)
    (s : list EditInstruction) :
  converged a b → shortest_edit_script a b = Done s →
  apply_script a b s = b ∧
  0 ≤ edit_count s ∧
  edits a b (Z.to_nat (edit_count s)) ∧
  ∀ d : nat, edits a b d → edit_count s ≤ Z.of_nat d.
Proof.
  intros Hconv Hses.
  destruct (script_shape a b s Hconv Hses)
    as (x0 & s' & Hs & _ & Hx0 & Hrun & Hch & _ & H & Hfind & Hcount).
  split.
  { subst s. unfold apply_script. cbn [apply_from type].
    rewrite (apply_from_chained a b s' x0 x0 0 Hch); [|lia|lia|].
    - by replace (x0 - (x0 - 0)) with 0 by lia.
    - replace (x0 - (x0 - 0)) with 0 by lia. rewrite Z.sub_0_r.
      by apply segment_run_eq. }
  destruct Hconv as (H' & Hfind' & Hlen).
  assert (H' = H) as -> by congruence.
  destruct (search_finds_distance a b H Hfind Hlen) as [He Hmin].
  rewrite Hcount, Nat2Z.id. split; [lia|]. split; [done|].
  intros d Hd. apply Hmin in Hd. lia.
Qed.

Lemma script_is_shortest_witness :
  converged ["A"; "C"] ["A"; "B"; "C"] ∧
  shortest_edit_script ["A"; "C"] ["A"; "B"; "C"]
    = Done [mkEdit Nop 0 0 0 0; mkEdit Add 1 0 1 1; mkEdit Nop 1 1 2 1] ∧
  apply_script ["A"; "C"] ["A"; "B"; "C"]
    [mkEdit Nop 0 0 0 0; mkEdit Add 1 0 1 1; mkEdit Nop 1 1 2 1]
    = ["A"; "B"; "C"] ∧
  0 ≤ edit_count [mkEdit Nop 0 0 0 0; mkEdit Add 1 0 1 1; mkEdit Nop 1 1 2 1] ∧
  edits ["A"; "C"] ["A"; "B"; "C"]
    (Z.to_nat
       (edit_count [mkEdit Nop 0 0 0 0; mkEdit Add 1 0 1 1; mkEdit Nop 1 1 2 1])) ∧
  ∀ d : nat, edits ["A"; "C"] ["A"; "B"; "C"] d →
    edit_count [mkEdit Nop 0 0 0 0; mkEdit Add 1 0 1 1; mkEdit Nop 1 1 2 1]
    ≤ Z.of_nat d.
Proof.
  assert (converged ["A"; "C"] ["A"; "B"; "C"]) as Hc.
  { exists [[1]]. split; vm_compute; reflexivity. }
  assert (shortest_edit_script ["A"; "C"] ["A"; "B"; "C"]
    = Done [mkEdit Nop 0 0 0 0; mkEdit Add 1 0 1 1; mkEdit Nop 1 1 2 1]) as Hs.
  { vm_compute. reflexivity. }
  split; [exact Hc|]. split; [exact Hs|].
  exact (script_is_shortest _ _ _ Hc Hs).
Defined.

(** ** Pure deletions and pure insertions *)

Lemma sublist_edits_delete {A : Type} (a b : list A) :
  sublist b a → edits a b (length a - length b).
Proof.
  induction 1 as [|c b a Hs IH|c b a Hs IH]; simpl.
  - constructor.
  - by constructor.
  - pose proof (sublist_length _ _ Hs).
    replace (S (length a) - length b)%nat with (S (length a - length b)) by lia.
    by constructor.
Qed.

Lemma sublist_edits_insert {A : Type} (a b : list A) :
  sublist a b → edits a b (length b - length a).
Proof.
  induction 1 as [|c a b Hs IH|c a b Hs IH]; simpl.
  - constructor.
  - by constructor.
  - pose proof (sublist_length _ _ Hs).
    replace (S (length b) - length a)%nat with (S (length b - length a)) by lia.
    by constructor.
Qed.

(** On or above the top diagonal of the level the backward loop reads
    outside the record: [v[idx]] when [idx > d], else [v[idx+1]] with
    [idx = d]. *)
Lemma back_step_high (H : list max_pos_vec) (max_n : Z) (d : nat) v k :
  H !! d = Some v → length v = S d → Z.of_nat d + 1 ≤ k →
  back_step H max_n (Z.of_nat d) k = Fault OutOfBounds.
Proof.
  intros Hv Hlen Hk. unfold back_step.
  rewrite (vec_get_nat H d v Hv). cbn [mbind result_bind].
  rewrite (bool_decide_true (Z.of_nat (length v) = Z.of_nat d + 1)) by lia.
  cbn [assert mbind result_bind].
  set (idx := Z.quot (k - 1 + Z.of_nat d) 2).
  assert (Z.of_nat d ≤ idx) as Hidx.
  { unfold idx. rewrite Z.quot_div_nonneg by lia.
    apply Z.div_le_lower_bound; lia. }
  rewrite (bool_decide_false (idx < 0)) by lia.
  destruct (decide (idx = Z.of_nat d)) as [->|Hne].
  - destruct (lookup_lt_is_Some_2 v d) as [x1 Hx1]; [lia|].
    rewrite (vec_get_nat v d x1 Hx1). cbn [mbind result_bind].
    rewrite (bool_decide_false (Z.of_nat d > Z.of_nat d)) by lia.
    rewrite vec_get_past_end by lia. done.
  - rewrite (vec_get_past_end v idx) by lia. done.
Qed.

(** X4.  When [b] is [a] with one or more elements left out, so that only
    deletions are needed, the reconstruction reads outside a history
    record: no script is defined. *)
Theorem pure_deletion_reads_out_of_bounds {A : Type} `{EqDecision A}
    (a b : list A) :
  sublist b a → (length b < length a)%nat →
  shortest_edit_script a b = Fault OutOfBounds.
Proof.
  intros Hsub Hlt.
  destruct (find_shortest_path_total a b) as (H & Hfind & Hok & Hend).
  pose proof (search_lower_bound a b H Hok _ (sublist_edits_delete a b Hsub)) as Hle.
  pose proof max_diff_pos as Hpos.
  assert (1 ≤ length H)%nat as Hnz.
  { destruct Hend as [[(i & Hi & _ & Hk) _] | Hfull]; [|lia].
    unfold diag in Hk. lia. }
  unfold shortest_edit_script. rewrite Hfind. cbn [mbind result_bind].
  unfold reconstruct_trace.
  destruct (length H) as [|d] eqn:HlenH; [lia|].
  destruct (lookup_lt_is_Some_2 H d) as [v Hv]; [lia|].
  destruct (Hok _ _ Hv) as (Hlen & _).
  cbn [backtrack].
  rewrite (back_step_high H _ d v _ Hv Hlen) by lia.
  done.
Qed.

Lemma pure_deletion_reads_out_of_bounds_witness :
  sublist ["A"; "C"] ["A"; "B"; "C"] ∧
  (length ["A"; "C"] < length ["A"; "B"; "C"])%nat ∧
  shortest_edit_script ["A"; "B"; "C"] ["A"; "C"] = Fault OutOfBounds.
Proof.
  assert (sublist ["A"; "C"] ["A"; "B"; "C"]) as Hs
    by (apply sublist_skip, sublist_cons, sublist_skip, sublist_nil).
  assert (length ["A"; "C"] < length ["A"; "B"; "C"])%nat as Hl by (simpl; lia).
  split; [exact Hs|]. split; [exact Hl|].
  exact (pure_deletion_reads_out_of_bounds _ _ Hs Hl).
Defined.

(** ** Sequences without a common element *)

(** Deleting all of [a] and inserting all of [b] is an alignment. *)
Lemma edits_all {A : Type} (a b : list A) : edits a b (length a + length b).
Proof.
  induction a as [|c a IH]; simpl.
  - induction b as [|c b IH]; simpl; by constructor.
  - by constructor.
Qed.

Section disjoint.
Context {A : Type} `{EqDecision A}.
Variables a b : list A.
Hypothesis Hdis : ∀ c, c ∈ a → c ∉ b.

Local Abbreviation n := (Z.of_nat (length a)).
Local Abbreviation m := (Z.of_nat (length b)).

(** Without a common element no snake moves. *)
Lemma reach_disjoint H (d i : nat) x :
  reach a b H d i x → start_at H d i = Some x.
Proof.
  intros (x0 & Hst & _ & Hle & Hrun).
  destruct (decide (x = x0)) as [->|Hne]; [done|].
  destruct (Hrun 0) as (_ & _ & c & Ha & Hb); [lia|].
  apply list_elem_of_lookup_2 in Ha, Hb. by destruct (Hdis c).
Qed.

Lemma pick_disjoint prev (d i : nat) x :
  (∀ (j : nat) y, prev !! j = Some y → y = Z.of_nat j) →
  pick prev d i = Some x → x = Z.of_nat i.
Proof.
  intros Hprev. unfold pick.
  destruct (decide (i = 0)%nat) as [->|Hi].
  { apply Hprev. }
  destruct (decide (i ≠ d)).
  - destruct (prev !! (i - 1)%nat) as [l|] eqn:Hl; [|done].
    destruct (prev !! i) as [r|] eqn:Hr; [|done].
    apply Hprev in Hl, Hr. simpl. intros [= <-].
    rewrite bool_decide_true by lia. done.
  - destruct (prev !! (i - 1)%nat) as [l|] eqn:Hl; [|done].
    apply Hprev in Hl. simpl. intros [= <-]. lia.
Qed.

(** The record of level [d] is [0, 1, ..., d]. *)
Lemma records_disjoint H :
  history_ok a b H →
  ∀ (d : nat) v, H !! d = Some v →
    ∀ (i : nat) x, v !! i = Some x → x = Z.of_nat i.
Proof.
  intros Hok d. induction d as [|d IH]; intros v Hv i x Hx.
  - destruct (Hok _ _ Hv) as (Hlen & _ & Hre & _).
    pose proof (lookup_lt_Some _ _ _ Hx) as Hi.
    apply Hre, reach_disjoint in Hx. simpl in Hx.
    injection Hx as <-. lia.
  - destruct (Hok _ _ Hv) as (_ & _ & Hre & _).
    pose proof (reach_disjoint _ _ _ _ (Hre _ _ Hx)) as Hst.
    cbn [start_at] in Hst.
    destruct (H !! d) as [prev|] eqn:Hprev; [|done]. simpl in Hst.
    apply (pick_disjoint prev (S d) i x); [|done].
    by apply IH.
Qed.
End disjoint.

Section disjoint_back.
Context {A : Type} `{EqDecision A}.
Variables a b : list A.
Hypothesis Hdis : ∀ c, c ∈ a → c ∉ b.
Hypothesis Hne : a ≠ [].

Local Abbreviation n := (Z.of_nat (length a)).
Local Abbreviation m := (Z.of_nat (length b)).

(** The search stops at level [n + m]. *)
Lemma terminal_disjoint H :
  history_ok a b H → terminal a b H → Z.of_nat (length H) = n + m.
Proof.
  intros Hok (i & Hi & Hre & Hk).
  apply (reach_disjoint a b Hdis) in Hre.
  assert (0 < n) as Hn by (destruct a; [done|simpl; lia]).
  destruct (length H) as [|d] eqn:Hlen.
  - simpl in Hre. injection Hre as Hre. lia.
  - cbn [start_at] in Hre.
    destruct (H !! d) as [prev|] eqn:Hprev; [|done]. simpl in Hre.
    apply (pick_disjoint prev (S d) i) in Hre;
      [|by apply (records_disjoint a b Hdis H Hok d)].
    unfold diag in Hk. lia.
Qed.

(** The backward loop walks up the diagonals and reads past the record of
    level [n - 1]. *)
Lemma backtrack_disjoint H max_n :
  history_ok a b H →
  ∀ cnt : nat, n ≤ Z.of_nat cnt → (cnt ≤ length H)%nat →
    ∀ trace, backtrack H max_n cnt (2 * n - Z.of_nat cnt) trace
             = Fault OutOfBounds.
Proof.
  intros Hok.
  assert (0 < n) as Hn by (destruct a; [done|simpl; lia]).
  induction cnt as [|d IH]; intros Hcnt Hle trace; [lia|].
  cbn [backtrack].
  destruct (lookup_lt_is_Some_2 H d) as [v Hv]; [lia|].
  destruct (Hok _ _ Hv) as (Hlen & _).
  destruct (decide (Z.of_nat d < n)) as [Hd|Hd].
  - rewrite (back_step_high H max_n d v _ Hv Hlen) by lia. done.
  - unfold back_step. rewrite (vec_get_nat H d v Hv). cbn [mbind result_bind].
    rewrite (bool_decide_true (Z.of_nat (length v) = Z.of_nat d + 1)) by lia.
    cbn [assert mbind result_bind].
    replace (2 * n - Z.of_nat (S d) - 1 + Z.of_nat d) with (2 * (n - 1)) by lia.
    rewrite (Z.mul_comm 2 (n - 1)), Z.quot_mul by lia.
    rewrite (bool_decide_false (n - 1 < 0)) by lia.
    rewrite (bool_decide_false (n - 1 > Z.of_nat d)) by lia.
    destruct (lookup_lt_is_Some_2 v (Z.to_nat (n - 1))) as [x1 Hx1]; [lia|].
    destruct (lookup_lt_is_Some_2 v (Z.to_nat n)) as [x2 Hx2]; [lia|].
    rewrite (proj2 (vec_get_Done v (n - 1) x1)) by (split; [lia|done]).
    cbn [mbind result_bind]. replace (n - 1 + 1) with n by lia.
    rewrite (proj2 (vec_get_Done v n x2)) by (split; [lia|done]).
    cbn [mbind result_bind].
    apply (records_disjoint a b Hdis H Hok d v Hv) in Hx1, Hx2.
    rewrite (bool_decide_false (x1 + 1 > x2)) by lia.
    cbn [mbind result_bind].
    replace (2 * n - Z.of_nat (S d) + 1) with (2 * n - Z.of_nat d) by lia.
    apply IH; lia.
Qed.
End disjoint_back.

(** C4.  For every non-empty [a] that shares no element with [b], with
    [n + m] below [max_diff], no script is returned, and so no single
    Change: no snake moves, record [d] of the history is [0, 1, ..., d],
    the search stops at level [n + m], and the backward loop, which goes
    up one diagonal at every level, reaches the top diagonal at level
    [n - 1], where the guard [idx > d] lets the read of [v[idx+1]]
    through, one past the end of the record. *)
Theorem disjoint_reads_out_of_bounds {A : Type} `{EqDecision A}
    (a b : list A) :
  a ≠ [] → (∀ c, c ∈ a → c ∉ b) →
  Z.of_nat (length a) + Z.of_nat (length b) < max_diff →
  shortest_edit_script a b = Fault OutOfBounds.
Proof.
  intros Hne Hdis Hlt.
  destruct (find_shortest_path_total a b) as (H & Hfind & Hok & Hend).
  pose proof (search_lower_bound a b H Hok _ (edits_all a b)) as Hle.
  destruct Hend as [[Hterm _] | Hfull]; [|lia].
  pose proof (terminal_disjoint a b Hdis Hne H Hok Hterm) as HlenH.
  unfold shortest_edit_script. rewrite Hfind. cbn [mbind result_bind].
  unfold reconstruct_trace.
  replace (Z.of_nat (length a) - Z.of_nat (length b))
    with (2 * Z.of_nat (length a) - Z.of_nat (length H)) by lia.
  rewrite (backtrack_disjoint a b Hdis Hne H _ Hok); [done|lia|lia].
Qed.

Lemma disjoint_reads_out_of_bounds_witness :
  ["A"] ≠ @nil string ∧ (∀ c : string, c ∈ ["A"] → c ∉ ["B"]) ∧
  Z.of_nat (length ["A"]) + Z.of_nat (length ["B"]) < max_diff ∧
  shortest_edit_script ["A"] ["B"] = Fault OutOfBounds.
Proof.
  assert (["A"] ≠ @nil string) as Hne by discriminate.
  assert (∀ c : string, c ∈ ["A"] → c ∉ ["B"]) as Hdis.
  { intros c Hc%list_elem_of_singleton Hb%list_elem_of_singleton. congruence. }
  assert (Z.of_nat (length ["A"]) + Z.of_nat (length ["B"]) < max_diff) as Hlt
    by (vm_compute; reflexivity).
  split; [exact Hne|]. split; [exact Hdis|]. split; [exact Hlt|].
  exact (disjoint_reads_out_of_bounds ["A"] ["B"] Hne Hdis Hlt).
Defined.


Section lowest_diagonal.
Context {A : Type} `{EqDecision A}.
Variables a b : list A.

(** On the lowest diagonal the backward loop reads index 0 only. *)
Lemma back_step_lowest_diagonal H max_n (d : nat) v :
  history_ok a b H → H !! d = Some v → 0 ≤ max_n →
  ∃ x2, back_step H max_n (Z.of_nat d) (diag (S d) 0)
        = Done (diag d 0, (x2, x2 - diag d 0)).
Proof.
  intros Hok Hv Hmax. destruct (Hok _ _ Hv) as (Hlen & Hax & _).
  destruct (lookup_lt_is_Some_2 v 0%nat) as [x2 Hx2]; [lia|].
  destruct (Hax _ _ Hx2) as [Hx2a _].
  exists x2. unfold back_step.
  rewrite (vec_get_nat H d v Hv). cbn [mbind result_bind].
  rewrite (bool_decide_true (Z.of_nat (length v) = Z.of_nat d + 1)) by lia.
  cbn [assert mbind result_bind]. rewrite quot_diag.
  rewrite (bool_decide_true (Z.of_nat 0 - 1 < 0)) by lia.
  rewrite (bool_decide_false (Z.of_nat 0 - 1 > Z.of_nat d)) by lia.
  cbn [mbind result_bind]. change (Z.of_nat 0 - 1 + 1) with (Z.of_nat 0).
  rewrite (vec_get_nat v 0 x2 Hx2). cbn [mbind result_bind].
  rewrite (bool_decide_false (- (max_n + 1) + 1 > x2)) by lia.
  replace (diag (S d) 0 + 1) with (diag d 0) by (unfold diag; lia). done.
Qed.

Lemma backtrack_lowest_diagonal H max_n :
  history_ok a b H → 0 ≤ max_n →
  ∀ (cnt : nat) trace, (cnt ≤ length H)%nat →
    ∃ trace', backtrack H max_n cnt (diag cnt 0) trace = Done trace'.
Proof.
  intros Hok Hmax cnt. induction cnt as [|d IH]; intros trace Hcnt.
  - by exists trace.
  - destruct (lookup_lt_is_Some_2 H d) as [v Hv]; [lia|].
    destruct (back_step_lowest_diagonal H max_n d v Hok Hv Hmax) as (x2 & Hstep).
    cbn [backtrack]. rewrite Hstep. cbn [mbind result_bind]. apply IH. lia.
Qed.
End lowest_diagonal.

(** A script that deletes and inserts only as many elements as [b] is
    longer than [a] has no Delete and no Change. *)
Lemma chained_only_adds {A : Type} (a b : list A) s : ∀ x y xe ye,
  chained a b x y s xe ye →
  (ye - y) - (xe - x) ≤ edit_count s ∧
  (edit_count s = (ye - y) - (xe - x) →
   Forall (λ es, type es = Nop ∨ type es = Add) s).
Proof.
  induction s as [|es s IH]; intros x y xe ye Hc; simpl in Hc.
  - destruct Hc as [-> ->]. unfold edit_count. simpl. split; [lia|done].
  - destruct Hc as (_ & _ & Hk & Hc). destruct (IH _ _ _ _ Hc) as [Hle Hall].
    unfold edit_count in *. simpl. unfold removed, added, kind_ok in *.
    destruct (type es) eqn:Ht; (split; [lia|]); intros Heq.
    + lia.
    + constructor; [by right|]. apply Hall. lia.
    + lia.
    + constructor; [by left|]. apply Hall. lia.
Qed.

(** X5.  When [a] is [b] with elements left out, fewer than [max_diff],
    so that only insertions are needed, the solver returns a script: it
    rebuilds [b], inserts exactly [m - n] elements, and has no Delete and
    no Change. *)
Theorem pure_insertion_script {A : Type} `{EqDecision A} (a b : list A) :
  sublist a b → Z.of_nat (length b) - Z.of_nat (length a) < max_diff →
  ∃ s, shortest_edit_script a b = Done s ∧
       apply_script a b s = b ∧
       edit_count s = Z.of_nat (length b) - Z.of_nat (length a) ∧
       Forall (λ es, type es = Nop ∨ type es = Add) s.
Proof.
  intros Hsub Hlt. pose proof (sublist_length _ _ Hsub) as Hlen.
  destruct (find_shortest_path_total a b) as (H & Hfind & Hok & Hend).
  pose proof (search_lower_bound a b H Hok _ (sublist_edits_insert a b Hsub)) as Hle.
  destruct Hend as [[Hterm HltH] | Hfull]; [|lia].
  assert (converged a b) as Hconv by (by exists H).
  assert (Z.of_nat (length a) - Z.of_nat (length b) = diag (length H) 0) as Hk.
  { destruct Hterm as (i & Hi & _ & Hk). unfold diag in *. lia. }
  assert (∃ tr, reconstruct_trace H (Z.of_nat (length a)) (Z.of_nat (length b))
                = Done tr) as [tr Hrec].
  { unfold reconstruct_trace. rewrite Hk.
    set (max_n := if bool_decide (Z.of_nat (length a) > Z.of_nat (length b))
                  then Z.of_nat (length a) else Z.of_nat (length b)).
    assert (0 ≤ max_n) as Hmax by (unfold max_n; case_bool_decide; lia).
    destruct (backtrack_lowest_diagonal a b H max_n Hok Hmax (length H)
                [(Z.of_nat (length a), Z.of_nat (length b))] ltac:(lia))
      as (tr & Htr).
    rewrite Htr. by eexists. }
  assert (∃ s, shortest_edit_script a b = Done s) as [s Hses].
  { unfold shortest_edit_script. rewrite Hfind. cbn [mbind result_bind].
    rewrite Hrec. cbn [mbind result_bind].
    destruct (reconstruct_trace_ok a b H _ Hok Hterm Hrec) as [Hok' _].
    destruct (build_edit_script_ok a b _ Hok') as (x0 & dq & -> & _).
    by eexists. }
  exists s. split; [done|].
  destruct (script_shape a b s Hconv Hses)
    as (x0 & s' & -> & _ & Hx0 & Hrun & Hch & _ & H' & Hfind' & Hcount).
  assert (H' = H) as -> by congruence.
  assert (Z.of_nat (length H) = Z.of_nat (length b) - Z.of_nat (length a)) as HlenH
    by (unfold diag in Hk; lia).
  split; [|split; [lia|]].
  - unfold apply_script. simpl.
    rewrite (apply_from_chained a b s' x0 x0 0 Hch); [| lia | lia |].
    + by replace (x0 - (x0 - 0)) with 0 by lia.
    + replace (x0 - (x0 - 0)) with 0 by lia. rewrite Z.sub_0_r.
      by apply segment_run_eq.
  - constructor; [by left|].
    apply (chained_only_adds a b s' _ _ _ _ Hch).
    change (edit_count (mkEdit Nop 0 0 0 0 :: s')) with (0 + 0 + edit_count s')
      in Hcount.
    lia.
Qed.

Lemma pure_insertion_script_witness :
  sublist ["A"; "C"] ["A"; "B"; "C"] ∧
  Z.of_nat (length ["A"; "B"; "C"]) - Z.of_nat (length ["A"; "C"]) < max_diff ∧
  ∃ s, shortest_edit_script ["A"; "C"] ["A"; "B"; "C"] = Done s ∧
       apply_script ["A"; "C"] ["A"; "B"; "C"] s = ["A"; "B"; "C"] ∧
       edit_count s
         = Z.of_nat (length ["A"; "B"; "C"]) - Z.of_nat (length ["A"; "C"]) ∧
       Forall (λ es, type es = Nop ∨ type es = Add) s.
Proof.
  assert (sublist ["A"; "C"] ["A"; "B"; "C"]) as Hs
    by (apply sublist_skip, sublist_cons, sublist_skip, sublist_nil).
  assert (Z.of_nat (length ["A"; "B"; "C"]) - Z.of_nat (length ["A"; "C"])
          < max_diff) as Hl by (vm_compute; reflexivity).
  split; [exact Hs|]. split; [exact Hl|].
  exact (pure_insertion_script _ _ Hs Hl).
Defined.

(** ** Hunks *)

(** A hunk as [unified_print] builds it: its window starts three lines
    before its first instruction and ends three lines after its last, on
    both sides. *)
Definition hunk_window_ok (h : Hunk) : Prop :=
  ∃ first back,
    head (edit_scripts_ h) = Some first ∧ last (edit_scripts_ h) = Some back ∧
    orig_start_ h = orig_start first - 3 ∧
    orig_end_ h = orig_start back + orig_length back + 3 ∧
    new_start_ h = new_start first - 3 ∧
    new_end_ h = new_start back + new_length back + 3.

Lemma hunk_window_of (es : EditInstruction) : hunk_window_ok (Hunk_of es).
Proof. exists es, es. done. Qed.

Lemma hunk_window_add (h : Hunk) (es : EditInstruction) :
  hunk_window_ok h → hunk_window_ok (add_edit_script h es).
Proof.
  intros (first & back & Hh & Hl & Hos & _ & Hns & _).
  exists first, es. simpl. rewrite last_snoc.
  destruct (edit_scripts_ h); [done|]. done.
Qed.

Lemma hunk_step_partition (hunks : list Hunk) (es : EditInstruction) :
  concat (map edit_scripts_ (reverse (hunk_step hunks es)))
  = concat (map edit_scripts_ (reverse hunks))
      ++ filter (λ e, type e ≠ Nop) [es].
Proof.
  unfold hunk_step. destruct (decide (type es = Nop)) as [Hn|Hn].
  - rewrite filter_cons_False by (by intros ?). simpl. by rewrite app_nil_r.
  - rewrite filter_cons_True by done. simpl.
    destruct hunks as [|hunk others]; [done|].
    destruct (mergeable hunk es).
    + rewrite !reverse_cons, !map_app, !concat_app. simpl.
      by rewrite !app_nil_r, (assoc_L (++)).
    + rewrite (reverse_cons (hunk :: others)), map_app, concat_app. simpl.
      done.
Qed.

Lemma hunk_step_windows (hunks : list Hunk) (es : EditInstruction) :
  Forall hunk_window_ok hunks → Forall hunk_window_ok (hunk_step hunks es).
Proof.
  intros Hall. unfold hunk_step. destruct (decide (type es = Nop)); [done|].
  destruct hunks as [|hunk others].
  - repeat constructor. apply hunk_window_of.
  - apply Forall_cons in Hall as [Hh Ho]. destruct (mergeable hunk es).
    + constructor; [by apply hunk_window_add|done].
    + constructor; [apply hunk_window_of|by constructor].
Qed.

(** X6.  The hunks of [unified_print] hold the non-Nop instructions of the
    script, each once and in the order of the script, and no hunk is
    empty: the window of a hunk runs from three lines before its first
    instruction to three lines after its last. *)
Theorem collect_hunks_partition (s : list EditInstruction) :
  concat (map edit_scripts_ (collect_hunks s)) = filter (λ e, type e ≠ Nop) s ∧
  Forall hunk_window_ok (collect_hunks s).
Proof.
  unfold collect_hunks.
  induction s as [|es s IH] using rev_ind; [by split; [|constructor]|].
  destruct IH as [IH1 IH2]. rewrite foldl_app. cbn [foldl]. split.
  - rewrite hunk_step_partition, IH1, filter_app. done.
  - rewrite Forall_reverse in IH2. rewrite Forall_reverse.
    by apply hunk_step_windows.
Qed.

(** ** The printers *)

(** The lines of [seq] from [start], [len] of them, each behind [sign] and
    in [color]. *)
Definition signed_lines (seq : list string) (sign : string) (color : Color)
    (start len : Z) : list chunk :=
  map (λ l, Colored color (sign +:+ l +:+ nl)) (segment seq start len).

(** The range of [len] elements from [start] is empty or lies inside a
    sequence of [size] elements. *)
Definition range_ok (size start len : Z) : Prop :=
  len ≤ 0 ∨ (0 ≤ start ∧ start + len ≤ size).

Global Instance range_ok_dec size start len : Decision (range_ok size start len).
Proof. unfold range_ok. apply _. Defined.

(** The ranges an instruction makes the printers read. *)
Definition readable (n m : Z) (es : EditInstruction) : Prop :=
  match type es with
  | Delete => range_ok n (orig_start es) (orig_length es)
  | Add => range_ok m (new_start es) (new_length es)
  | Change =>
      range_ok n (orig_start es) (orig_length es) ∧
      range_ok m (new_start es) (new_length es)
  | Nop => True
  end.

Global Instance readable_dec n m es : Decision (readable n m es).
Proof. unfold readable. destruct (type es); apply _. Defined.

(** What the normal format shows for one instruction. *)
Definition normal_block (a b : list string) (es : EditInstruction) : list chunk :=
  print_header es ++
  match type es with
  | Delete => signed_lines a "< " Red (orig_start es) (orig_length es)
  | Add => signed_lines b "> " Green (new_start es) (new_length es)
  | Change =>
      signed_lines a "< " Red (orig_start es) (orig_length es)
        ++ [Plain ("---" +:+ nl)]
        ++ signed_lines b "> " Green (new_start es) (new_length es)
  | Nop => []
  end.

Lemma segment_cons {T : Type} (l : list T) (i : Z) (t : T) (cnt : nat) :
  0 ≤ i → l !! Z.to_nat i = Some t →
  segment l i (Z.of_nat (S cnt)) = t :: segment l (i + 1) (Z.of_nat cnt).
Proof.
  intros Hi Hl. unfold segment. rewrite !Nat2Z.id.
  replace (Z.to_nat (i + 1)) with (S (Z.to_nat i)) by lia.
  by rewrite (drop_S _ _ _ Hl).
Qed.

Lemma segment_length {T : Type} (l : list T) (start len : Z) :
  0 ≤ start → 0 ≤ len → start + len ≤ Z.of_nat (length l) →
  Z.of_nat (length (segment l start len)) = len.
Proof.
  intros. unfold segment. rewrite length_take, length_drop. lia.
Qed.

Lemma range_lines_Done seq sign color cnt : ∀ i,
  0 ≤ i → i + Z.of_nat cnt ≤ Z.of_nat (length seq) →
  range_lines seq sign color cnt i
  = Done (signed_lines seq sign color i (Z.of_nat cnt)).
Proof.
  induction cnt as [|cnt IH]; intros i Hi Hlen.
  - done.
  - destruct (lookup_lt_is_Some_2 seq (Z.to_nat i)) as [l Hl]; [lia|].
    cbn [range_lines].
    rewrite (proj2 (vec_get_Done seq i l)) by done.
    cbn [mbind result_bind]. rewrite IH by lia. cbn [mbind result_bind].
    unfold signed_lines. by rewrite (segment_cons _ _ l) by done.
Qed.

Lemma range_lines_Fault seq sign color cnt : ∀ i,
  (0 < cnt)%nat → i < 0 ∨ Z.of_nat (length seq) < i + Z.of_nat cnt →
  range_lines seq sign color cnt i = Fault OutOfBounds.
Proof.
  induction cnt as [|cnt IH]; intros i Hcnt Hout; [lia|].
  cbn [range_lines]. unfold vec_get. case_bool_decide; [|done].
  destruct (seq !! Z.to_nat i) as [l|] eqn:Hl; [|done].
  apply lookup_lt_Some in Hl. cbn [mbind result_bind].
  rewrite IH; [done|lia|lia].
Qed.

Lemma range_print_modifications_spec seq sign color start len :
  range_print_modifications (ModifiedRange start len) seq sign color
  = if decide (range_ok (Z.of_nat (length seq)) start len)
    then Done (signed_lines seq sign color start len)
    else Fault OutOfBounds.
Proof.
  unfold range_print_modifications, ModifiedRange.
  replace (start + 1 - 1) with start by lia.
  replace (start + len - start) with len by lia.
  destruct (decide (range_ok _ start len)) as [Hok|Hbad].
  - destruct Hok as [Hlen|[Hs He]].
    + replace (Z.to_nat len) with 0%nat by lia.
      unfold signed_lines. by rewrite segment_nil.
    + destruct (decide (len ≤ 0)) as [Hlen|Hlen].
      * replace (Z.to_nat len) with 0%nat by lia.
        unfold signed_lines. by rewrite segment_nil.
      * rewrite range_lines_Done by lia. by rewrite Z2Nat.id by lia.
  - unfold range_ok in Hbad. apply range_lines_Fault; lia.
Qed.

Lemma normal_print_modifications_spec (a b : list string) (es : EditInstruction) :
  type es ≠ Nop →
  print_modifications
    (mkPrinter (mkSigns " " "< " "> " ("---" +:+ nl)) default_colors) a b es
    ≫= (λ mods, Done (print_header es ++ mods))
  = if decide (readable (Z.of_nat (length a)) (Z.of_nat (length b)) es)
    then Done (normal_block a b es) else Fault OutOfBounds.
Proof.
  intros Hne. unfold print_modifications, normal_block.
  destruct (decide (readable _ _ es)) as [Hr|Hr]; unfold readable in Hr;
    destruct (type es); [| | |done| | | |done];
    rewrite ?range_print_modifications_spec; cbn [get_color color_config_
      default_colors color_deleted color_inserted edit_signs_ deleted inserted
      sep_changes];
    repeat case_decide; try done; cbn [mbind result_bind]; try done;
    try (exfalso; tauto).
Qed.

(** A script whose instructions have their ranges inside [a] and [b] is
    printed without a read outside them. *)
Lemma normal_print_readable (a b : list string) (s : list EditInstruction) :
  Forall (readable (Z.of_nat (length a)) (Z.of_nat (length b))) s →
  normal_print a b s
  = Done (concat (map (normal_block a b) (filter (λ e, type e ≠ Nop) s))).
Proof.
  induction 1 as [|es s Hr _ IH]; [done|].
  cbn [normal_print]. destruct (decide (type es = Nop)) as [Hn|Hn].
  - by rewrite filter_cons_False by (by intros ?).
  - rewrite filter_cons_True by done.
    pose proof (normal_print_modifications_spec a b es Hn) as Hm.
    rewrite decide_True in Hm by done.
    destruct (print_modifications _ a b es) as [mods|f];
      cbn [mbind result_bind] in *; [|done].
    assert (print_header es ++ mods = normal_block a b es) as Hb
      by congruence.
    rewrite IH. cbn [mbind result_bind map concat].
    by rewrite <- Hb, <- (assoc_L (++)).
Qed.

(** The fields of an instruction, and the sums [ModifiedRange] takes of
    them for the ranges the instruction makes it print, fit in an [int]. *)
Definition range_fits (start len : Z) : Prop :=
  int_fits (start + 1) ∧ int_fits (start + len).

Definition printable (es : EditInstruction) : Prop :=
  int_fits (orig_start es) ∧ int_fits (orig_length es) ∧
  int_fits (new_start es) ∧ int_fits (new_length es) ∧
  match type es with
  | Delete => range_fits (orig_start es) (orig_length es)
  | Add => range_fits (new_start es) (new_length es)
  | Change =>
      range_fits (orig_start es) (orig_length es) ∧
      range_fits (new_start es) (new_length es)
  | Nop => True
  end.

(** X7.  For a script whose instructions have fields, and range sums
    [start + 1] and [start + length], that fit in an [int]: [normal_print]
    reads outside [a] or [b] exactly when some instruction of the script
    has a non-empty range that does not lie inside the sequence it is read
    from; otherwise it writes, for each non-Nop instruction in order, the
    header line, then the deleted lines of [a] behind ["< "] in red and
    the inserted lines of [b] behind ["> "] in green, with the line [---]
    between the two for a Change. *)
Theorem normal_print_spec (a b : list string) (s : list EditInstruction) :
  Forall printable s →
  normal_print a b s
  = if decide (Forall (readable (Z.of_nat (length a)) (Z.of_nat (length b))) s)
    then Done (concat (map (normal_block a b) (filter (λ e, type e ≠ Nop) s)))
    else Fault OutOfBounds.
Proof.
  intros _. induction s as [|es s IH].
  - by rewrite decide_True by constructor.
  - cbn [normal_print]. destruct (decide (type es = Nop)) as [Hn|Hn].
    + rewrite filter_cons_False by (by intros ?). rewrite IH.
      assert (readable (Z.of_nat (length a)) (Z.of_nat (length b)) es) as Hr
        by (unfold readable; by rewrite Hn).
      destruct (decide (Forall _ s)) as [Hs|Hs].
      * by rewrite decide_True by (by constructor).
      * rewrite decide_False; [done|]. by intros [? ?]%Forall_cons.
    + rewrite filter_cons_True by done.
      pose proof (normal_print_modifications_spec a b es Hn) as Hm.
      destruct (print_modifications _ a b es) as [mods|f];
        cbn [mbind result_bind] in *.
      * destruct (decide (readable _ _ es)) as [Hr|Hr]; [|done].
        assert (print_header es ++ mods = normal_block a b es) as Hb
          by congruence.
        clear Hm. rewrite IH.
        destruct (decide (Forall _ s)) as [Hs|Hs]; cbn [mbind result_bind].
        -- rewrite decide_True by (by constructor).
           cbn [map concat]. by rewrite <- Hb, <- (assoc_L (++)).
        -- rewrite decide_False; [done|]. by intros [? ?]%Forall_cons.
      * destruct (decide (readable _ _ es)) as [Hr|Hr]; [done|].
        rewrite decide_False; [done|]. by intros [? ?]%Forall_cons.
Qed.

Lemma normal_print_spec_witness :
  let a := ["A"; "B"] in
  let b := ["A"] in
  let s := [mkEdit Nop 0 0 0 0; mkEdit Delete 1 1 1 0] in
  Forall printable s ∧
  normal_print a b s
  = Done [Plain ("2d1" +:+ nl); Colored Red ("< B" +:+ nl)].
Proof.
  intros a b s.
  assert (Forall printable s) as Hp
    by (repeat constructor; simpl; lia).
  split; [exact Hp|].
  exact (normal_print_spec a b s Hp).
Defined.

(** ** Strings *)

Lemma string_app_assoc (s t u : string) : (s +:+ t) +:+ u = s +:+ t +:+ u.
Proof.
  induction s as [|c s IH]; [done|].
  change (String c (s +:+ t) +:+ u = String c (s +:+ t +:+ u)).
  change (String c ((s +:+ t) +:+ u) = String c (s +:+ t +:+ u)).
  by rewrite IH.
Qed.

Lemma string_app_length (s t : string) :
  String.length (s +:+ t) = (String.length s + String.length t)%nat.
Proof.
  induction s as [|c s IH]; [done|].
  change (S (String.length (s +:+ t)) = S (String.length s + String.length t)).
  by rewrite IH.
Qed.

(** ** Hunk headers and bodies *)

Definition first_char (w : chunk) : option ascii :=
  match text_of w with
  | String c _ => Some c
  | EmptyString => None
  end.

(** What a write shows after its first character. *)
Definition line_of (w : chunk) : string :=
  match text_of w with
  | String _ rest => rest
  | EmptyString => EmptyString
  end.

(** A write is a line of the old file (unchanged or deleted), or of the new
    file (unchanged or inserted), by its first character. *)
Definition on_orig (w : chunk) : bool :=
  bool_decide (first_char w = Some " "%char ∨ first_char w = Some "-"%char).

Definition on_new (w : chunk) : bool :=
  bool_decide (first_char w = Some " "%char ∨ first_char w = Some "+"%char).

(** The lines of one side that a hunk body shows, and their number. *)
Definition side (f : chunk → bool) (out : list chunk) : list string :=
  map line_of (filter (λ w, f w = true) out).

Definition count_lines (f : chunk → bool) (out : list chunk) : Z :=
  Z.of_nat (length (side f out)).

(** The lines of [seq] from [start], [len] of them, as they stand in the
    file. *)
Definition file_lines (seq : list string) (start len : Z) : list string :=
  map (λ l, l +:+ nl) (segment seq start len).

Lemma side_app f out1 out2 : side f (out1 ++ out2) = side f out1 ++ side f out2.
Proof. unfold side. by rewrite filter_app, map_app. Qed.

Lemma side_map_all {T : Type} f (g : T → chunk) (ls : list T) :
  (∀ l, f (g l) = true) → side f (map g ls) = map (λ l, line_of (g l)) ls.
Proof.
  intros Hg. unfold side. induction ls as [|l ls IH]; [done|].
  cbn [map]. rewrite filter_cons_True by apply Hg. cbn [map]. by rewrite IH.
Qed.

Lemma side_map_none {T : Type} f (g : T → chunk) (ls : list T) :
  (∀ l, f (g l) = false) → side f (map g ls) = [].
Proof.
  intros Hg. unfold side. induction ls as [|l ls IH]; [done|].
  cbn [map]. rewrite filter_cons_False by (by rewrite Hg). done.
Qed.

Lemma file_lines_nil seq start len : len ≤ 0 → file_lines seq start len = [].
Proof. intros. unfold file_lines. by rewrite segment_nil. Qed.

Lemma file_lines_app seq start len1 len2 :
  0 ≤ start → 0 ≤ len1 → 0 ≤ len2 →
  file_lines seq start (len1 + len2)
  = file_lines seq start len1 ++ file_lines seq (start + len1) len2.
Proof. intros. unfold file_lines. by rewrite segment_app, map_app. Qed.

Lemma file_lines_length seq start len :
  0 ≤ start → 0 ≤ len → start + len ≤ Z.of_nat (length seq) →
  Z.of_nat (length (file_lines seq start len)) = len.
Proof. intros. unfold file_lines. rewrite length_map. by apply segment_length. Qed.

Lemma context_lines_Done (a : list string) cnt : ∀ line,
  0 ≤ line → line + Z.of_nat cnt ≤ Z.of_nat (length a) →
  context_lines a cnt line
  = Done (map (λ l, Plain (" " +:+ l +:+ nl)) (segment a line (Z.of_nat cnt))).
Proof.
  induction cnt as [|cnt IH]; intros line Hl Hlen.
  - done.
  - destruct (lookup_lt_is_Some_2 a (Z.to_nat line)) as [l Hin]; [lia|].
    cbn [context_lines].
    rewrite (proj2 (vec_get_Done a line l)) by done.
    cbn [mbind result_bind]. rewrite IH by lia. cbn [mbind result_bind].
    by rewrite (segment_cons _ _ l) by done.
Qed.

Lemma context_lines_sides (a : list string) (line bound : Z) :
  0 ≤ line → line ≤ bound → bound ≤ Z.of_nat (length a) →
  ∃ out, context_lines a (Z.to_nat (bound - line)) line = Done out ∧
         side on_orig out = file_lines a line (bound - line) ∧
         side on_new out = file_lines a line (bound - line).
Proof.
  intros Hl Hb Hn. eexists. split.
  - apply context_lines_Done; lia.
  - rewrite !side_map_all by done. by rewrite Z2Nat.id by lia.
Qed.

Section runs.
Context {A : Type}.
Variables a b : list A.

Lemma run_eq_eq x y len x' y' len' :
  run_eq a b x y len → x = x' → y = y' → len = len' → run_eq a b x' y' len'.
Proof. by intros ? <- <- <-. Qed.

Lemma run_eq_prefix x y len len' :
  run_eq a b x y len → len' ≤ len → run_eq a b x y len'.
Proof. intros Hr ? i ?. apply Hr. lia. Qed.

Lemma run_eq_suffix x y len k :
  run_eq a b x y len → 0 ≤ k → run_eq a b (x + k) (y + k) (len - k).
Proof.
  intros Hr ? i ?. destruct (Hr (k + i)) as (? & ? & Hc); [lia|].
  by rewrite <- !(assoc_L Z.add).
Qed.

Lemma run_eq_join x y len1 len2 :
  run_eq a b x y len1 → run_eq a b (x + len1) (y + len1) len2 →
  run_eq a b x y (len1 + len2).
Proof.
  intros Hr1 Hr2 i ?. destruct (decide (i < len1)).
  - apply Hr1. lia.
  - destruct (Hr2 (i - len1)) as (? & ? & Hc); [lia|].
    by replace (x + len1 + (i - len1)) with (x + i) in * by lia;
       replace (y + len1 + (i - len1)) with (y + i) in * by lia.
Qed.
End runs.

Section hunks.
Variables a b : list string.

Local Abbreviation n := (Z.of_nat (length a)).
Local Abbreviation m := (Z.of_nat (length b)).

(** The non-Nop instructions [l] lie between [(x, y)] and [(xe, ye)] in
    order; from one to the next, and at the two ends, there are as many
    lines of [a] as of [b] and they are equal. *)
Fixpoint aligned (x y : Z) (l : list EditInstruction) (xe ye : Z) : Prop :=
  match l with
  | [] => x ≤ xe ∧ xe - x = ye - y ∧ run_eq a b x y (xe - x)
  | es :: l' =>
      x ≤ orig_start es ∧ orig_start es - x = new_start es - y ∧
      run_eq a b x y (orig_start es - x) ∧
      type es ≠ Nop ∧ kind_ok a b es ∧
      aligned (orig_start es + orig_length es) (new_start es + new_length es)
        l' xe ye
  end.

Lemma aligned_le l : ∀ x y xe ye,
  aligned x y l xe ye → x ≤ xe ∧ y ≤ ye.
Proof.
  induction l as [|es l IH]; intros x y xe ye Hal; cbn [aligned] in Hal.
  - lia.
  - destruct Hal as (? & ? & _ & _ & Hk & Hal). apply IH in Hal.
    apply kind_ok_lengths in Hk. lia.
Qed.

Lemma aligned_start l x y x' y' xe ye :
  aligned x y l xe ye → x' ≤ x → x - x' = y - y' →
  run_eq a b x' y' (x - x') → aligned x' y' l xe ye.
Proof.
  destruct l as [|es l]; cbn [aligned]; intros Hal ? ? Hr.
  - destruct Hal as (? & ? & Hr'). split; [lia|]. split; [lia|].
    apply (run_eq_eq a b x' y' ((x - x') + (xe - x))); [|lia..].
    apply run_eq_join; [done|].
    by apply (run_eq_eq a b x y (xe - x)); [|lia..].
  - destruct Hal as (? & ? & Hr' & ? & ? & ?).
    split; [lia|]. split; [lia|]. split; [|done].
    apply (run_eq_eq a b x' y' ((x - x') + (orig_start es - x))); [|lia..].
    apply run_eq_join; [done|].
    by apply (run_eq_eq a b x y (orig_start es - x)); [|lia..].
Qed.

Lemma aligned_end l : ∀ x y xe ye xe' ye',
  aligned x y l xe ye → xe ≤ xe' → xe' - xe = ye' - ye →
  run_eq a b xe ye (xe' - xe) → aligned x y l xe' ye'.
Proof.
  induction l as [|es l IH]; cbn [aligned]; intros x y xe ye xe' ye' Hal ? ? Hr.
  - destruct Hal as (? & ? & Hr'). split; [lia|]. split; [lia|].
    apply (run_eq_eq a b x y ((xe - x) + (xe' - xe))); [|lia..].
    apply run_eq_join; [done|].
    by apply (run_eq_eq a b xe ye (xe' - xe)); [|lia..].
  - destruct Hal as (? & ? & ? & ? & ? & Hal). repeat (split; [done|]).
    by apply (IH _ _ xe ye).
Qed.

Lemma aligned_snoc l : ∀ x y xe ye es,
  aligned x y l xe ye → xe ≤ orig_start es →
  orig_start es - xe = new_start es - ye →
  run_eq a b xe ye (orig_start es - xe) →
  type es ≠ Nop → kind_ok a b es →
  aligned x y (l ++ [es])
    (orig_start es + orig_length es) (new_start es + new_length es).
Proof.
  induction l as [|e l IH]; cbn [aligned app];
    intros x y xe ye es Hal ? ? Hr ? ?.
  - destruct Hal as (? & ? & Hr'). split; [lia|]. split; [lia|]. split.
    { apply (run_eq_eq a b x y ((xe - x) + (orig_start es - xe))); [|lia..].
      apply run_eq_join; [done|].
      by apply (run_eq_eq a b xe ye (orig_start es - xe)); [|lia..]. }
    do 2 (split; [done|]). split; [lia|]. split; [lia|].
    apply run_eq_nil. lia.
  - destruct Hal as (? & ? & ? & ? & ? & Hal). repeat (split; [done|]).
    by apply (IH _ _ xe ye).
Qed.

(** The instructions of a chained script that are not Nop are aligned. *)
Lemma chained_aligned s : ∀ x y x' y' xe ye,
  chained a b x y s xe ye → x' ≤ x → x - x' = y - y' →
  run_eq a b x' y' (x - x') →
  aligned x' y' (filter (λ e, type e ≠ Nop) s) xe ye.
Proof.
  induction s as [|es s IH]; intros x y x' y' xe ye Hc Hx Hg Hr;
    cbn [chained] in Hc.
  - destruct Hc as [<- <-]. cbn [aligned filter list_filter]. done.
  - destruct Hc as (Hos & Hns & Hk & Hc).
    pose proof (kind_ok_lengths _ _ _ Hk) as (Hol & Hnl & _).
    destruct (decide (type es = Nop)) as [Hn|Hn].
    + rewrite filter_cons_False by (by intros ?).
      unfold kind_ok in Hk. rewrite Hn in Hk. destruct Hk as (? & Hnl' & Hr').
      apply (IH _ _ _ _ _ _ Hc); [lia|lia|].
      apply (run_eq_eq a b x' y' ((x - x') + orig_length es)); [|lia..].
      apply run_eq_join; [done|].
      by apply (run_eq_eq a b (orig_start es) (new_start es) (orig_length es));
        [|lia..].
    + rewrite filter_cons_True by done. cbn [aligned].
      split; [lia|]. split; [lia|].
      split; [by apply (run_eq_eq a b x' y' (x - x')); [|lia..]|].
      split; [done|]. split; [done|].
      apply (IH _ _ _ _ _ _ Hc); [lia|lia|]. apply run_eq_nil. lia.
Qed.

(** What [Hunk::print_modifications] writes for one instruction. *)
Lemma hunk_mods_sides (es : EditInstruction) :
  type es ≠ Nop → kind_ok a b es →
  0 ≤ orig_start es → orig_start es + orig_length es ≤ n →
  0 ≤ new_start es → new_start es + new_length es ≤ m →
  ∃ mods,
    print_modifications (mkPrinter default_signs default_colors) a b es
      = Done mods ∧
    side on_orig mods = file_lines a (orig_start es) (orig_length es) ∧
    side on_new mods = file_lines b (new_start es) (new_length es).
Proof.
  intros Hne Hk Hos Hoe Hns Hnse.
  assert (range_ok n (orig_start es) (orig_length es)) as Hro
    by (right; lia).
  assert (range_ok m (new_start es) (new_length es)) as Hrn
    by (right; lia).
  unfold print_modifications, kind_ok in *.
  destruct (type es); [| | |done];
    rewrite ?range_print_modifications_spec, ?decide_True by done;
    cbn [mbind result_bind]; eexists; (split; [reflexivity|]);
    rewrite ?side_app; unfold signed_lines;
    cbn [get_color color_config_ default_colors color_deleted color_inserted
         edit_signs_ default_signs deleted inserted sep_changes].
  - rewrite (side_map_all on_orig), (side_map_none on_new) by done.
    by rewrite (file_lines_nil b) by lia.
  - rewrite (side_map_none on_orig), (side_map_all on_new) by done.
    by rewrite (file_lines_nil a) by lia.
  - rewrite (side_map_all on_orig (λ l, Colored Red _)) by done.
    rewrite (side_map_none on_orig (λ l, Colored Green _)) by done.
    rewrite (side_map_none on_new (λ l, Colored Red _)) by done.
    rewrite (side_map_all on_new (λ l, Colored Green _)) by done.
    change (side on_orig [Plain ""]) with (@nil string).
    change (side on_new [Plain ""]) with (@nil string).
    by rewrite !app_nil_r.
Qed.

(** The body of a hunk whose window is aligned with its instructions shows
    the lines of [a] in the window on its old side and the lines of [b] in
    the window on its new side. *)
Lemma hunk_body_sides l : ∀ x y xe ye,
  aligned x y l xe ye → 0 ≤ x → 0 ≤ y → xe ≤ n → ye ≤ m →
  ∃ body,
    hunk_body (mkPrinter default_signs default_colors) a b xe x l = Done body ∧
    side on_orig body = file_lines a x (xe - x) ∧
    side on_new body = file_lines b y (ye - y).
Proof.
  induction l as [|es l IH]; intros x y xe ye Hal Hx Hy Hxe Hye;
    cbn [aligned] in Hal; cbn [hunk_body].
  - destruct Hal as (Hle & Hgap & Hr).
    destruct (context_lines_sides a x xe) as (out & -> & Ho & Hn);
      [lia..|].
    exists out. split; [done|]. split; [done|].
    rewrite Hn. unfold file_lines. rewrite <- Hgap.
    by rewrite (segment_run_eq a b x y).
  - destruct Hal as (Hle & Hgap & Hr & Hne & Hk & Hal).
    pose proof (aligned_le _ _ _ _ _ Hal) as [Hoe Hnse].
    pose proof (kind_ok_lengths _ _ _ Hk) as (Hol & Hnl & _).
    destruct (context_lines_sides a x (orig_start es)) as (ctx & -> & Ho & Hn);
      [lia..|].
    cbn [mbind result_bind].
    destruct (hunk_mods_sides es) as (mods & -> & Hmo & Hmn); [done|done|lia..|].
    cbn [mbind result_bind].
    replace (Z.max x (orig_start es)) with (orig_start es) by lia.
    destruct (IH _ _ _ _ Hal) as (rest & -> & Hro & Hrn); [lia..|].
    cbn [mbind result_bind].
    eexists. split; [reflexivity|].
    rewrite !side_app, Ho, Hn, Hmo, Hmn, Hro, Hrn. split.
    + replace (xe - x) with ((orig_start es - x)
        + (orig_length es + (xe - (orig_start es + orig_length es)))) by lia.
      rewrite file_lines_app by lia.
      replace (x + (orig_start es - x)) with (orig_start es) by lia.
      by rewrite file_lines_app by lia.
    + replace (ye - y) with ((orig_start es - x)
        + (new_length es + (ye - (new_start es + new_length es)))) by lia.
      rewrite file_lines_app by lia.
      replace (y + (orig_start es - x)) with (new_start es) by lia.
      rewrite file_lines_app by lia.
      unfold file_lines at 1 4.
      by rewrite (segment_run_eq a b x y).
Qed.
End hunks.

Lemma foldl_hunk_step_cons l : ∀ h others,
  foldl hunk_step (h :: others) l = foldl hunk_step [h] l ++ others.
Proof.
  induction l as [|es l IH]; intros h others; [done|].
  cbn [foldl]. unfold hunk_step at 2 4.
  destruct (decide (type es = Nop)); [apply IH|].
  destruct (mergeable h es); [apply IH|].
  rewrite (IH (Hunk_of es) (h :: others)), (IH (Hunk_of es) [h]).
  by rewrite <- (assoc_L (++)).
Qed.

Lemma foldl_hunk_step_filter s : ∀ hunks,
  foldl hunk_step hunks s
  = foldl hunk_step hunks (filter (λ e, type e ≠ Nop) s).
Proof.
  induction s as [|es s IH]; intros hunks; [done|].
  destruct (decide (type es = Nop)) as [Hn|Hn].
  - rewrite filter_cons_False by (by intros ?). cbn [foldl].
    unfold hunk_step at 2. rewrite decide_True by done. apply IH.
  - rewrite filter_cons_True by done. cbn [foldl]. apply IH.
Qed.

Section hunk_windows.
Variables a b : list string.

Local Abbreviation n := (Z.of_nat (length a)).
Local Abbreviation m := (Z.of_nat (length b)).

(** The hunk the loop of [unified_print] is filling: its window starts
    three lines before its first instruction, which lies as far into [a]
    as into [b] or at least three lines into both; the lines of the window
    before that instruction are equal in [a] and [b]; and its instructions
    are aligned up to three lines before the end of the window. *)
Definition open_ok (h : Hunk) : Prop :=
  ∃ first,
    head (edit_scripts_ h) = Some first ∧
    orig_start_ h = orig_start first - 3 ∧
    new_start_ h = new_start first - 3 ∧
    0 ≤ orig_start first ∧ 0 ≤ new_start first ∧
    (orig_start first = new_start first ∨
     3 ≤ orig_start first ∧ 3 ≤ new_start first) ∧
    run_eq a b (Z.max (orig_start first - 3) 0) (Z.max (new_start first - 3) 0)
      (orig_start first - Z.max (orig_start first - 3) 0) ∧
    aligned a b (orig_start first) (new_start first) (edit_scripts_ h)
      (orig_end_ h - 3) (new_end_ h - 3).

(** The hunk is written without a read outside [a] or [b].  With its
    window clamped to the files, from [os] to [oe] in [a] and from [ns] to
    [ne] in [b]: the header, in cyan, is [@@ -os+1,k +ns+1,l @@] where [k]
    is the number of lines of the body that start with a space or [-] and
    [l] the number of those that start with a space or [+]; the former
    are the lines of [a] from [os] to [oe], the latter the lines of [b]
    from [ns] to [ne]. *)
Definition header_matches_body (h : Hunk) : Prop :=
  let os := Z.max (orig_start_ h) 0 in
  let oe := Z.min (orig_end_ h) n in
  let ns := Z.max (new_start_ h) 0 in
  let ne := Z.min (new_end_ h) m in
  ∃ body,
    hunk_print_modifications h a b
      = Done (Colored Cyan
                ("@@ -" +:+ to_string (os + 1) +:+ ","
                   +:+ to_string (count_lines on_orig body)
                   +:+ " +" +:+ to_string (ns + 1) +:+ ","
                   +:+ to_string (count_lines on_new body)
                   +:+ " @@" +:+ nl)
              :: body) ∧
    0 ≤ os ≤ oe ∧ oe ≤ n ∧ 0 ≤ ns ≤ ne ∧ ne ≤ m ∧
    side on_orig body = file_lines a os (oe - os) ∧
    side on_new body = file_lines b ns (ne - ns) ∧
    count_lines on_orig body = oe - os ∧
    count_lines on_new body = ne - ns.

Lemma open_ok_matches (h : Hunk) :
  open_ok h → orig_end_ h - 3 ≤ n →
  n - (orig_end_ h - 3) = m - (new_end_ h - 3) ∨
    (orig_end_ h ≤ n ∧ new_end_ h ≤ m) →
  run_eq a b (orig_end_ h - 3) (new_end_ h - 3)
    (Z.min (orig_end_ h) n - (orig_end_ h - 3)) →
  header_matches_body h.
Proof.
  intros (first & Hhead & Hos & Hns & Hfo & Hfn & Hlead & Hrl & Hal)
    Hoe Htail Hrt.
  pose proof (aligned_le _ _ _ _ _ _ _ Hal) as [Hle1 Hle2].
  unfold header_matches_body, hunk_print_modifications, count_lines.
  cbn [normalize_range orig_start_ orig_end_ new_start_ new_end_ edit_scripts_].
  destruct (hunk_body_sides a b (edit_scripts_ h)
              (Z.max (orig_start_ h) 0) (Z.max (new_start_ h) 0)
              (Z.min (orig_end_ h) n) (Z.min (new_end_ h) m))
    as (body & -> & Ho & Hn); [|lia..|].
  - apply (aligned_start _ _ _ (orig_start first) (new_start first));
      [|lia|lia|].
    + apply (aligned_end _ _ _ _ _ (orig_end_ h - 3) (new_end_ h - 3));
        [done|lia|lia|done].
    + rewrite Hos, Hns.
      by apply (run_eq_eq a b _ _ _ _ _ _ Hrl).
  - cbn [mbind result_bind]. exists body.
    assert (Z.of_nat (length (side on_orig body))
            = Z.min (orig_end_ h) n - Z.max (orig_start_ h) 0) as Hco
      by (rewrite Ho; apply file_lines_length; lia).
    assert (Z.of_nat (length (side on_new body))
            = Z.min (new_end_ h) m - Z.max (new_start_ h) 0) as Hcn
      by (rewrite Hn; apply file_lines_length; lia).
    split.
    { rewrite Hco, Hcn. unfold make_header, color_print.
      cbn [orig_start_ orig_end_ new_start_ new_end_ app].
      rewrite !string_app_assoc. done. }
    split; [lia|]. split; [lia|]. split; [lia|]. split; [lia|].
    done.
Qed.

Lemma hunks_match l : ∀ cur,
  open_ok cur → aligned a b (orig_end_ cur - 3) (new_end_ cur - 3) l n m →
  Forall header_matches_body (reverse (foldl hunk_step [cur] l)).
Proof.
  induction l as [|es l IH]; intros cur Hopen Hal; cbn [aligned] in Hal.
  - cbn [foldl]. rewrite reverse_singleton. constructor; [|constructor].
    destruct Hal as (? & ? & Hr).
    apply open_ok_matches; [done|lia|left; lia|].
    apply (run_eq_prefix a b _ _ _ _ Hr). lia.
  - destruct Hal as (Hle & Hgap & Hr & Hne & Hk & Hal).
    pose proof (aligned_le _ _ _ _ _ _ _ Hal) as [Hoe Hnse].
    pose proof (kind_ok_lengths _ _ _ Hk) as (Hol & Hnl & _).
    pose proof Hopen as (first & Hhead & Hos & Hns & Hfo & Hfn & Hlead & Hrl & Hin).
    pose proof (aligned_le _ _ _ _ _ _ _ Hin) as [Hle1 Hle2].
    cbn [foldl]. unfold hunk_step at 2. rewrite decide_False by done.
    unfold mergeable. case_bool_decide as Hm.
    + apply IH.
      * exists first.
        cbn [add_edit_script edit_scripts_ orig_start_ orig_end_ new_start_
             new_end_].
        split; [by destruct (edit_scripts_ cur)|].
        do 6 (split; [done|]).
        replace (orig_start es + orig_length es + 3 - 3)
          with (orig_start es + orig_length es) by lia.
        replace (new_start es + new_length es + 3 - 3)
          with (new_start es + new_length es) by lia.
        by apply (aligned_snoc _ _ _ _ _ (orig_end_ cur - 3) (new_end_ cur - 3)).
      * cbn [add_edit_script orig_end_ new_end_].
        replace (orig_start es + orig_length es + 3 - 3)
          with (orig_start es + orig_length es) by lia.
        by replace (new_start es + new_length es + 3 - 3)
          with (new_start es + new_length es) by lia.
    + rewrite foldl_hunk_step_cons, reverse_app, reverse_singleton.
      constructor.
      * apply open_ok_matches; [done|lia|right; lia|].
        apply (run_eq_prefix a b _ _ _ _ Hr). lia.
      * apply IH.
        -- exists es.
           cbn [Hunk_of edit_scripts_ orig_start_ orig_end_ new_start_
                new_end_ head].
           do 3 (split; [done|]). split; [lia|]. split; [lia|].
           split; [right; lia|]. split.
           { pose proof (run_eq_suffix a b _ _ _
               (orig_start es - (orig_end_ cur - 3) - 3) Hr ltac:(lia)) as Hr'.
             apply (run_eq_eq a b _ _ _ _ _ _ Hr'); lia. }
           cbn [aligned]. split; [lia|]. split; [lia|].
           split; [apply run_eq_nil; lia|]. do 2 (split; [done|]).
           split; [lia|]. split; [lia|]. apply run_eq_nil. lia.
        -- cbn [Hunk_of orig_end_ new_end_].
           replace (orig_start es + orig_length es + 3 - 3)
             with (orig_start es + orig_length es) by lia.
           by replace (new_start es + new_length es + 3 - 3)
             with (new_start es + new_length es) by lia.
Qed.

Lemma print_hunks_Done (hunks : list Hunk) :
  Forall header_matches_body hunks → ∃ out, print_hunks a b hunks = Done out.
Proof.
  induction 1 as [|h hunks (body & Hh & _) _ [out IH]]; cbn [print_hunks].
  - by eexists.
  - rewrite Hh, IH. cbn [mbind result_bind]. by eexists.
Qed.
End hunk_windows.

(** X8.  For the script of a converged search, [unified_print] reads only
    inside [a] and [b], and every hunk it writes is right for both files:
    with the window of the hunk clamped to the files, the lines of its
    body that start with a space or [-] are the lines of [a] in the
    window, the lines that start with a space or [+] are the lines of [b]
    in the window, and the header gives the number of each. *)
Theorem hunk_headers_match_bodies (a b : list string) (s : list EditInstruction) :
  converged a b → shortest_edit_script a b = Done s →
  Forall (header_matches_body a b) (collect_hunks s) ∧
  ∃ out, unified_print a b s = Done out.
Proof.
  intros Hconv Hses.
  destruct (script_shape a b s Hconv Hses)
    as (x0 & s' & -> & _ & Hx0 & Hrun & Hch & _ & _).
  assert (Forall (header_matches_body a b)
            (collect_hunks (mkEdit Nop 0 0 0 0 :: s'))) as Hall.
  { unfold collect_hunks. rewrite foldl_hunk_step_filter.
    rewrite filter_cons_False by (by intros ?).
    assert (run_eq a b 0 0 (x0 - 0)) as Hrun0
      by (by rewrite Z.sub_0_r).
    pose proof (chained_aligned a b s' x0 x0 0 0 _ _ Hch Hx0 eq_refl Hrun0)
      as Hal.
    destruct (filter _ s') as [|es l]; [constructor|].
    cbn [aligned] in Hal. destruct Hal as (Hle & Hgap & Hr & Hne & Hk & Hal).
    cbn [foldl]. unfold hunk_step at 2. rewrite decide_False by done.
    apply hunks_match.
    - exists es.
      cbn [Hunk_of edit_scripts_ orig_start_ orig_end_ new_start_ new_end_
           head].
      do 3 (split; [done|]). split; [lia|]. split; [lia|].
      split; [left; lia|]. split.
      { pose proof (run_eq_suffix a b _ _ _
          (Z.max (orig_start es - 3) 0) Hr ltac:(lia)) as Hr'.
        apply (run_eq_eq a b _ _ _ _ _ _ Hr'); lia. }
      cbn [aligned]. split; [lia|]. split; [lia|].
      split; [apply run_eq_nil; lia|]. do 2 (split; [done|]).
      split; [lia|]. split; [lia|]. apply run_eq_nil. lia.
    - cbn [Hunk_of orig_end_ new_end_].
      replace (orig_start es + orig_length es + 3 - 3)
        with (orig_start es + orig_length es) by lia.
      by replace (new_start es + new_length es + 3 - 3)
        with (new_start es + new_length es) by lia. }
  split; [done|]. by apply print_hunks_Done.
Qed.

Lemma hunk_headers_match_bodies_witness :
  converged ["A"; "C"] ["A"; "B"; "C"] ∧
  shortest_edit_script ["A"; "C"] ["A"; "B"; "C"]
    = Done [mkEdit Nop 0 0 0 0; mkEdit Add 1 0 1 1; mkEdit Nop 1 1 2 1] ∧
  Forall (header_matches_body ["A"; "C"] ["A"; "B"; "C"])
    (collect_hunks [mkEdit Nop 0 0 0 0; mkEdit Add 1 0 1 1; mkEdit Nop 1 1 2 1]) ∧
  ∃ out,
    unified_print ["A"; "C"] ["A"; "B"; "C"]
      [mkEdit Nop 0 0 0 0; mkEdit Add 1 0 1 1; mkEdit Nop 1 1 2 1] = Done out.
Proof.
  assert (converged ["A"; "C"] ["A"; "B"; "C"]) as Hc.
  { exists [[1]]. split; vm_compute; reflexivity. }
  assert (shortest_edit_script ["A"; "C"] ["A"; "B"; "C"]
    = Done [mkEdit Nop 0 0 0 0; mkEdit Add 1 0 1 1; mkEdit Nop 1 1 2 1]) as Hs.
  { vm_compute. reflexivity. }
  split; [exact Hc|]. split; [exact Hs|].
  exact (hunk_headers_match_bodies _ _ _ Hc Hs).
Defined.

Lemma chained_readable {A : Type} (a b : list A) s : ∀ x y xe ye,
  chained a b x y s xe ye → 0 ≤ x → 0 ≤ y → Forall (readable xe ye) s.
Proof.
  induction s as [|es s IH]; intros x y xe ye Hc Hx Hy; [constructor|].
  cbn [chained] in Hc. destruct Hc as (Hos & Hns & Hk & Hc).
  pose proof (chained_le _ _ _ _ _ _ _ Hc) as [Hxe Hye].
  pose proof (kind_ok_lengths _ _ _ Hk) as (Hol & Hnl & _).
  constructor; [|apply (IH _ _ _ _ Hc); lia].
  unfold readable, range_ok. destruct (type es); try done; lia.
Qed.

(** X9.  For the script of a converged search, [normal_print] reads only
    inside [a] and [b] and writes one block for each instruction that is
    not a Nop, in the order of the script. *)
Theorem normal_print_of_script (a b : list string) (s : list EditInstruction) :
  converged a b → shortest_edit_script a b = Done s →
  normal_print a b s
  = Done (concat (map (normal_block a b) (filter (λ e, type e ≠ Nop) s))).
Proof.
  intros Hconv Hses.
  destruct (script_shape a b s Hconv Hses)
    as (x0 & s' & -> & _ & Hx0 & _ & Hch & _ & _).
  apply normal_print_readable.
  constructor; [done|]. by apply (chained_readable a b s' x0 x0).
Qed.

Lemma normal_print_of_script_witness :
  converged ["A"; "C"] ["A"; "B"; "C"] ∧
  shortest_edit_script ["A"; "C"] ["A"; "B"; "C"]
    = Done [mkEdit Nop 0 0 0 0; mkEdit Add 1 0 1 1; mkEdit Nop 1 1 2 1] ∧
  normal_print ["A"; "C"] ["A"; "B"; "C"]
    [mkEdit Nop 0 0 0 0; mkEdit Add 1 0 1 1; mkEdit Nop 1 1 2 1]
  = Done [Plain ("1a2" +:+ nl); Colored Green ("> B" +:+ nl)].
Proof.
  assert (converged ["A"; "C"] ["A"; "B"; "C"]) as Hc.
  { exists [[1]]. split; vm_compute; reflexivity. }
  assert (shortest_edit_script ["A"; "C"] ["A"; "B"; "C"]
    = Done [mkEdit Nop 0 0 0 0; mkEdit Add 1 0 1 1; mkEdit Nop 1 1 2 1]) as Hs.
  { vm_compute. reflexivity. }
  split; [exact Hc|]. split; [exact Hs|].
  exact (normal_print_of_script _ _ _ Hc Hs).
Defined.

(** ** Reading the files *)

(** A string without a newline character. *)
Fixpoint one_line (s : string) : bool :=
  match s with
  | EmptyString => true
  | String c s' => bool_decide (c ≠ newline) && one_line s'
  end.

(** The lines [ls], each followed by a newline. *)
Definition unlines (ls : list string) : string :=
  foldr (λ l acc, l +:+ nl +:+ acc) "" ls.

Lemma getline_chars_line (l rest : string) :
  one_line l = true → getline_chars (l +:+ nl +:+ rest) = (l, rest).
Proof.
  induction l as [|c l IH]; intros Hl.
  - change (EmptyString +:+ nl +:+ rest) with (String newline rest).
    cbn [getline_chars]. by rewrite decide_True.
  - cbn [one_line] in Hl. apply andb_true_iff in Hl as [Hc Hl].
    apply bool_decide_eq_true in Hc.
    change (String c l +:+ nl +:+ rest) with (String c (l +:+ nl +:+ rest)).
    cbn [getline_chars]. rewrite decide_False by done. by rewrite IH.
Qed.

Lemma getline_chars_last (l : string) :
  one_line l = true → getline_chars l = (l, EmptyString).
Proof.
  induction l as [|c l IH]; intros Hl; [done|].
  cbn [one_line] in Hl. apply andb_true_iff in Hl as [Hc Hl].
  apply bool_decide_eq_true in Hc.
  cbn [getline_chars]. rewrite decide_False by done. by rewrite IH.
Qed.

Lemma getline_chars_le (stream : string) :
  (String.length (getline_chars stream).2 ≤ String.length stream)%nat.
Proof.
  induction stream as [|c stream IH]; [done|].
  cbn [getline_chars]. destruct (decide (c = newline)); [simpl; lia|].
  destruct (getline_chars stream) as [s rest]. simpl in *. lia.
Qed.

(** A successful [getline] leaves less of the stream than it found, so the
    loop of [read_lines] ends because [getline] fails: more turns than the
    stream has characters change nothing. *)
Lemma getline_shorter (stream s rest : string) :
  getline stream = Some (s, rest) →
  (String.length rest < String.length stream)%nat.
Proof.
  destruct stream as [|c stream]; [done|]. unfold getline. intros [= Hg].
  cbn [getline_chars] in Hg. destruct (decide (c = newline)).
  - simplify_eq. simpl. lia.
  - pose proof (getline_chars_le stream) as Hle.
    destruct (getline_chars stream) as [s' rest']. simplify_eq.
    simpl in *. lia.
Qed.

Lemma read_loop_enough (fuel : nat) : ∀ stream lines extra,
  (String.length stream < fuel)%nat →
  read_loop (fuel + extra) stream lines = read_loop fuel stream lines.
Proof.
  induction fuel as [|fuel IH]; intros stream lines extra Hlen; [lia|].
  cbn [read_loop Nat.add].
  destruct (getline stream) as [[s rest]|] eqn:Hg; [|done].
  apply IH. apply getline_shorter in Hg. lia.
Qed.

Lemma read_loop_unlines (ls : list string) : ∀ l fuel acc,
  forallb one_line ls = true → one_line l = true →
  (String.length (unlines ls +:+ l) < fuel)%nat →
  read_loop fuel (unlines ls +:+ l) acc
  = acc ++ ls ++ (if decide (l = EmptyString) then [] else [l]).
Proof.
  induction ls as [|a ls IH]; intros l fuel acc Hls Hl Hfuel.
  - change (unlines [] +:+ l) with l in *.
    destruct fuel as [|fuel]; [lia|]. cbn [read_loop app].
    destruct l as [|c l].
    + by rewrite decide_True, app_nil_r.
    + rewrite decide_False by done. unfold getline.
      rewrite getline_chars_last by done.
      by destruct fuel.
  - cbn [forallb] in Hls. apply andb_true_iff in Hls as [Ha Hls].
    change (unlines (a :: ls)) with (a +:+ nl +:+ unlines ls) in *.
    rewrite !string_app_assoc in *.
    rewrite !string_app_length in Hfuel.
    destruct fuel as [|fuel]; [lia|]. cbn [read_loop].
    assert (getline (a +:+ nl +:+ unlines ls +:+ l)
            = Some (a, unlines ls +:+ l)) as ->.
    { rewrite <- (getline_chars_line a (unlines ls +:+ l)) by done.
      by destruct a. }
    rewrite IH; [|done|done|].
    + by rewrite <- (assoc_L (++)).
    + change (String.length nl) with 1%nat in Hfuel.
      rewrite string_app_length. lia.
Qed.

(** X10.  A file that holds the lines [ls], each followed by a newline,
    and then a last line [l] without one, is read as [ls] followed by [l]
    when [l] is not empty, and as [ls] when it is: a file is read as the
    same lines with or without the newline at its end. *)
Theorem read_lines_unlines (open_file : string → option string)
    (file : string) (ls : list string) (l : string) :
  forallb one_line ls = true → one_line l = true →
  open_file file = Some (unlines ls +:+ l) →
  read_lines open_file file
  = Returned (ls ++ (if decide (l = EmptyString) then [] else [l])).
Proof.
  intros Hls Hl Hopen. unfold read_lines. rewrite Hopen.
  by rewrite read_loop_unlines by (done || lia).
Qed.

Lemma read_lines_unlines_witness :
  let open_file := λ file : string,
    if decide (file = "old.txt") then Some ("A" +:+ nl +:+ "B") else None in
  forallb one_line ["A"] = true ∧ one_line "B" = true ∧
  open_file "old.txt" = Some (unlines ["A"] +:+ "B") ∧
  read_lines open_file "old.txt" = Returned ["A"; "B"].
Proof.
  intros open_file.
  assert (forallb one_line ["A"] = true) as H1 by reflexivity.
  assert (one_line "B" = true) as H2 by reflexivity.
  assert (open_file "old.txt" = Some (unlines ["A"] +:+ "B")) as H3
    by reflexivity.
  split; [exact H1|]. split; [exact H2|]. split; [exact H3|].
  exact (read_lines_unlines open_file "old.txt" ["A"] "B" H1 H2 H3).
Defined.

(** ** The program as a whole *)

Lemma apply_from_nops {T : Type} (a b : list T) (s : list EditInstruction) :
  ∀ pos, filter (λ e, type e ≠ Nop) s = [] →
         apply_from a b pos s = drop (Z.to_nat pos) a.
Proof.
  induction s as [|es s IH]; intros pos Hf; [done|].
  destruct (decide (type es = Nop)) as [Hn|Hn].
  - rewrite filter_cons_False in Hf by (by intros ?).
    cbn [apply_from]. rewrite Hn. by apply IH.
  - by rewrite filter_cons_True in Hf by done.
Qed.

Lemma normal_blocks_nil (a b : list string) (l : list EditInstruction) :
  concat (map (normal_block a b) l) = [] → l = [].
Proof. by destruct l. Qed.

(** X11.  When both files can be read and the search converges, the
    program writes nothing in the normal format exactly when the two
    files have the same lines; with [-u] it then writes the two header
    lines and nothing else. *)
Theorem print_diff_silent_iff_same (open_file : string → option string)
    (timestamp : string → string + string) (file_1 file_2 : string)
    (a b : list string) :
  read_lines open_file file_1 = Returned a →
  read_lines open_file file_2 = Returned b →
  converged a b →
  (print_diff open_file timestamp file_1 file_2 false = Returned [] ↔ a = b) ∧
  (a = b →
   print_diff open_file timestamp file_1 file_2 true
   = print_unified_header timestamp file_1 file_2).
Proof.
  intros Ha Hb Hconv. unfold print_diff. rewrite Ha, Hb.
  cbn [mbind run_bind]. split; [split|].
  - intros Hp.
    destruct (shortest_edit_script a b) as [s|f] eqn:Hs;
      cbn [lift mbind run_bind] in Hp; [|done].
    destruct (script_shape a b s Hconv Hs)
      as (x0 & s' & -> & _ & Hx0 & Hrun & Hch & _ & _).
    rewrite normal_print_readable in Hp
      by (constructor; [done|by apply (chained_readable a b s' x0 x0)]).
    cbn [lift] in Hp. injection Hp as Hp. apply normal_blocks_nil in Hp.
    rewrite filter_cons_False in Hp by (by intros ?).
    pose proof (apply_from_chained a b s' x0 x0 0 Hch) as Hb'.
    rewrite apply_from_nops in Hb' by done.
    replace (x0 - (x0 - 0)) with 0 in Hb' by lia.
    rewrite Z.sub_0_r in Hb'. cbn [Z.to_nat drop] in Hb'.
    apply Hb'; [lia|lia|]. by apply segment_run_eq.
  - intros ->. by rewrite shortest_edit_script_same.
  - intros ->. rewrite shortest_edit_script_same. cbn [lift mbind run_bind].
    destruct (print_unified_header timestamp file_1 file_2) as [header| |];
      cbn [mbind run_bind]; [|done..].
    change (unified_print b b [mkEdit Nop 0 0 0 0]) with (Done (@nil chunk)).
    cbn [lift mbind run_bind]. by rewrite app_nil_r.
Qed.

Lemma print_diff_silent_iff_same_witness :
  let open_file := λ file : string,
    if decide (file = "old.txt") then Some ("A" +:+ nl +:+ "B" +:+ nl)
    else if decide (file = "new.txt") then Some ("A" +:+ nl +:+ "B")
    else None in
  let timestamp := λ file : string, @inl string string "2024-01-01 00:00:00" in
  read_lines open_file "old.txt" = Returned ["A"; "B"] ∧
  read_lines open_file "new.txt" = Returned ["A"; "B"] ∧
  converged ["A"; "B"] ["A"; "B"] ∧
  (print_diff open_file timestamp "old.txt" "new.txt" false = Returned []
   ↔ ["A"; "B"] = ["A"; "B"]) ∧
  (["A"; "B"] = ["A"; "B"] →
   print_diff open_file timestamp "old.txt" "new.txt" true
   = print_unified_header timestamp "old.txt" "new.txt").
Proof.
  intros open_file timestamp.
  assert (read_lines open_file "old.txt" = Returned ["A"; "B"]) as H1
    by reflexivity.
  assert (read_lines open_file "new.txt" = Returned ["A"; "B"]) as H2
    by reflexivity.
  assert (converged ["A"; "B"] ["A"; "B"]) as H3.
  { exists []. split; vm_compute; reflexivity. }
  split; [exact H1|]. split; [exact H2|]. split; [exact H3|].
  exact (print_diff_silent_iff_same open_file timestamp _ _ _ _ H1 H2 H3).
Defined.

(** X12.  When one of the two files cannot be opened the program exits
    with status 1, having written nothing to [std::cout] and, to
    [std::cerr], [Cannot open] with the name of the first file that
    failed, in either format. *)
Theorem print_diff_cannot_open (open_file : string → option string)
    (timestamp : string → string + string) (file_1 file_2 : string)
    (unified : bool) :
  open_file file_1 = None ∨ open_file file_2 = None →
  print_diff open_file timestamp file_1 file_2 unified
  = Exited 1 []
      ("Cannot open "
         +:+ match open_file file_1 with
             | None => file_1
             | Some _ => file_2
             end
         +:+ nl).
Proof.
  intros Hopen. unfold print_diff, read_lines.
  destruct (open_file file_1) as [c1|]; [|done].
  destruct Hopen as [|Hopen]; [done|]. by rewrite Hopen.
Qed.

Lemma print_diff_cannot_open_witness :
  let open_file := λ file : string,
    if decide (file = "old.txt") then Some ("A" +:+ nl) else None in
  let timestamp := λ file : string, @inl string string "2024-01-01 00:00:00" in
  (open_file "old.txt" = None ∨ open_file "new.txt" = None) ∧
  print_diff open_file timestamp "old.txt" "new.txt" true
  = Exited 1 [] ("Cannot open new.txt" +:+ nl).
Proof.
  intros open_file timestamp.
  assert (open_file "old.txt" = None ∨ open_file "new.txt" = None) as H1
    by (right; reflexivity).
  split; [exact H1|].
  exact (print_diff_cannot_open open_file timestamp "old.txt" "new.txt" true H1).
Defined.

(** ** What can go wrong in the solver *)

Lemma vec_get_cases {T : Type} (v : list T) (i : Z) :
  (∃ t, vec_get v i = Done t) ∨ vec_get v i = Fault OutOfBounds.
Proof.
  unfold vec_get. case_bool_decide; [|by right].
  destruct (v !! Z.to_nat i); [left; by eexists | by right].
Qed.

Lemma back_step_cases (H : list max_pos_vec) (max_n : Z) (d : nat) (k : Z) :
  (∀ (d' : nat) v, H !! d' = Some v → length v = S d') →
  (d < length H)%nat →
  (∃ r, back_step H max_n (Z.of_nat d) k = Done r)
  ∨ back_step H max_n (Z.of_nat d) k = Fault OutOfBounds.
Proof.
  intros Hlen Hd. unfold back_step.
  destruct (lookup_lt_is_Some_2 H d Hd) as [v Hv].
  rewrite (vec_get_nat H d v Hv). cbn [mbind result_bind].
  rewrite (bool_decide_true (Z.of_nat (length v) = Z.of_nat d + 1))
    by (rewrite (Hlen _ _ Hv); lia).
  cbn [assert mbind result_bind].
  set (idx := ((k - 1 + Z.of_nat d) ÷ 2)).
  assert ((∃ x1, (if bool_decide (idx < 0) then Done (- (max_n + 1))
                  else vec_get v idx) = Done x1)
          ∨ (if bool_decide (idx < 0) then Done (- (max_n + 1))
             else vec_get v idx) = Fault OutOfBounds) as [[x1 ->]| ->];
    [case_bool_decide; [left; by eexists|apply vec_get_cases]| |by right].
  cbn [mbind result_bind].
  assert ((∃ x2, (if bool_decide (idx > Z.of_nat d) then Done (- (max_n + 1))
                  else vec_get v (idx + 1)) = Done x2)
          ∨ (if bool_decide (idx > Z.of_nat d) then Done (- (max_n + 1))
             else vec_get v (idx + 1)) = Fault OutOfBounds) as [[x2 ->]| ->];
    [case_bool_decide; [left; by eexists|apply vec_get_cases]| |by right].
  cbn [mbind result_bind]. left. case_bool_decide; by eexists.
Qed.

Lemma backtrack_cases (H : list max_pos_vec) (max_n : Z) (cnt : nat) :
  (∀ (d' : nat) v, H !! d' = Some v → length v = S d') →
  (cnt ≤ length H)%nat →
  ∀ k trace,
    (∃ t, backtrack H max_n cnt k trace = Done t)
    ∨ backtrack H max_n cnt k trace = Fault OutOfBounds.
Proof.
  intros Hlen. induction cnt as [|d IH]; intros Hcnt k trace.
  - left. by eexists.
  - cbn [backtrack].
    destruct (back_step_cases H max_n d k Hlen) as [[[k' p] ->]| ->];
      [lia| |by right].
    cbn [mbind result_bind]. apply IH. lia.
Qed.

(** X13.  When the search converges, [shortest_edit_script] returns a
    script or reads outside a vector: no assertion of [reconstruct_trace]
    or [build_edit_script] fails and no entry of the buffer is read
    before it is written. *)
Theorem solver_fails_only_out_of_bounds {A : Type} `{EqDecision A}
    (a b : list A) :
  converged a b →
  (∃ s, shortest_edit_script a b = Done s)
  ∨ shortest_edit_script a b = Fault OutOfBounds.
Proof.
  intros (H & Hfind & Hlen).
  destruct (find_shortest_path_total a b) as (H' & Hfind' & Hok & Hend).
  assert (H' = H) as -> by congruence.
  destruct Hend as [[Hterm _] | Hfull]; [|lia].
  unfold shortest_edit_script. rewrite Hfind. cbn [mbind result_bind].
  destruct (reconstruct_trace H (Z.of_nat (length a)) (Z.of_nat (length b)))
    as [trace|f] eqn:Hrec.
  - left. cbn [mbind result_bind].
    destruct (reconstruct_trace_ok a b H trace Hok Hterm Hrec) as [Htr _].
    destruct (build_edit_script_ok a b trace Htr) as (x0 & dq & -> & _).
    by eexists.
  - right. cbn [mbind result_bind]. unfold reconstruct_trace in Hrec.
    destruct (backtrack_cases H
                (if bool_decide (Z.of_nat (length a) > Z.of_nat (length b))
                 then Z.of_nat (length a) else Z.of_nat (length b))
                (length H) (λ d v Hv, proj1 (Hok d v Hv)) (le_n _)
                (Z.of_nat (length a) - Z.of_nat (length b))
                [(Z.of_nat (length a), Z.of_nat (length b))])
      as [[t Ht]|Ht]; rewrite Ht in Hrec; cbn [mbind result_bind] in Hrec;
      congruence.
Qed.

Lemma solver_fails_only_out_of_bounds_witness :
  converged ["A"; "B"] ["A"] ∧
  ((∃ s, shortest_edit_script ["A"; "B"] ["A"] = Done s)
   ∨ shortest_edit_script ["A"; "B"] ["A"] = Fault OutOfBounds).
Proof.
  assert (converged ["A"; "B"] ["A"]) as Hc.
  { exists [[1]]. split; vm_compute; reflexivity. }
  split; [exact Hc|].
  exact (solver_fails_only_out_of_bounds ["A"; "B"] ["A"] Hc).
Defined.
